(** * RefactorForge pattern extractor: a shallow embedding and its properties

    The development follows [backend/pattern-extractor.py]: the
    [CodePattern] record and its [pattern_hash], the rule registry, the
    corpus walk of [extract_patterns_from_repository], the line and
    context computation of [_extract_patterns_from_file], the language
    and framework classifiers, the grouping and the transactional write
    of [save_patterns_to_database], [generate_pattern_report], and
    [main].

    Conventions.  A Python [str] is a [list ascii], one [ascii] per code
    point, so the model covers text whose code points are below 256; a
    Python [int] is a [Z]; a [float] is a primitive float; a [dict] is an
    association list in insertion order; a [set] is a duplicate-free list. *)

From Stdlib Require Import Strings.String.
From Stdlib Require Import List Ascii NArith ZArith Lia Bool Arith.
From Stdlib Require Import Floats.PrimFloat.
From Stdlib Require Import Sorting.Sorted Sorting.Permutation.

Set Warnings "-inexact-float,-register-all".
Import Corelib.Init.Datatypes.
Import ListNotations.

(* ------------------------------------------------------------------ *)
(** ** Strings *)

Module Str.

Definition str := list ascii.

(** String literals of the source are written [lit "..."]. *)
Definition lit (s : string) : str := list_ascii_of_string s.

Definition code (c : ascii) : N := N_of_ascii c.

Definition chr_eqb (a b : ascii) : bool := Ascii.eqb a b.

Fixpoint eqb (a b : str) : bool :=
  match a, b with
  | [], [] => true
  | x :: a', y :: b' => chr_eqb x y && eqb a' b'
  | _, _ => false
  end.

Definition NL : ascii := ascii_of_N 10.
Definition COLON : ascii := ascii_of_N 58.

Definition is_nl (c : ascii) : bool := chr_eqb c NL.

(** [s.count('\n')] *)
Fixpoint count_nl (s : str) : nat :=
  match s with
  | [] => 0
  | c :: s' => (if is_nl c then 1 else 0) + count_nl s'
  end.

(** [sep.join(parts)] *)
Fixpoint join (sep : str) (parts : list str) : str :=
  match parts with
  | [] => []
  | [p] => p
  | p :: rest => p ++ sep ++ join sep rest
  end.

(** [needle in s] for a non-empty needle *)
Fixpoint starts_with (p s : str) : bool :=
  match p, s with
  | [], _ => true
  | x :: p', y :: s' => chr_eqb x y && starts_with p' s'
  | _ :: _, [] => false
  end.

Fixpoint contains (needle s : str) : bool :=
  starts_with needle s ||
  match s with
  | [] => false
  | _ :: s' => contains needle s'
  end.

Fixpoint ends_with_aux (p s : str) (n : nat) : bool :=
  match n with
  | O => eqb p s
  | S n' => match s with [] => false | _ :: s' => ends_with_aux p s' n' end
  end.

(** [s.endswith(p)] *)
Definition ends_with (p s : str) : bool :=
  (length p <=? length s) && ends_with_aux p s (length s - length p).

(** [str.isspace()] on one character: the white space of [strip] and of
    the regular-expression class [\s]. *)
Definition is_space (c : ascii) : bool :=
  let n := code c in
  ((9 <=? n) && (n <=? 13) || (28 <=? n) && (n <=? 32)
   || (n =? 133) || (n =? 160))%N.

(** The line boundaries of [str.splitlines()]. *)
Definition is_linebreak (c : ascii) : bool :=
  let n := code c in
  ((10 <=? n) && (n <=? 13) || (28 <=? n) && (n <=? 30) || (n =? 133))%N.

Definition CR : ascii := ascii_of_N 13.

(** [s.splitlines()]: a carriage return followed by a line feed is one
    boundary, and a final boundary opens no further line. *)
Fixpoint splitlines (s : str) : list str :=
  match s with
  | [] => []
  | c :: s' =>
      if is_linebreak c then
        [] :: match s' with
              | c' :: s'' =>
                  if chr_eqb c CR && chr_eqb c' NL then splitlines s''
                  else splitlines s'
              | [] => []
              end
      else
        match splitlines s' with
        | [] => [[c]]
        | l :: ls => (c :: l) :: ls
        end
  end.

Fixpoint lstrip (s : str) : str :=
  match s with
  | c :: s' => if is_space c then lstrip s' else s
  | [] => []
  end.

Definition rstrip (s : str) : str := rev (lstrip (rev s)).

(** [s.strip()] *)
Definition strip (s : str) : str := rstrip (lstrip s).

(** Index normalisation of a slice bound. *)
Definition slice_bound (len i : Z) : Z :=
  if (i <? 0)%Z then Z.max 0 (i + len) else Z.min i len.

(** [l[a:b]] *)
Definition slice {A : Type} (l : list A) (a b : Z) : list A :=
  let len := Z.of_nat (length l) in
  let a' := slice_bound len a in
  let b' := slice_bound len b in
  firstn (Z.to_nat (b' - a')) (skipn (Z.to_nat a') l).

(** [s[a:b]] for offsets [a <= b]. *)
Definition substring (s : str) (a b : nat) : str :=
  firstn (b - a) (skipn a s).

End Str.

Import Str.

(* ------------------------------------------------------------------ *)
(** ** [str.encode()] and [hashlib.md5(...).hexdigest()] *)

Module Md5.

Definition mask32 : N := 4294967295.
Definition w32 (x : N) : N := N.land x mask32.
Definition add32 (x y : N) : N := w32 (x + y).
Definition not32 (x : N) : N := N.lxor (w32 x) mask32.
Definition rotl32 (x c : N) : N :=
  w32 (N.lor (N.shiftl x c) (N.shiftr (w32 x) (32 - c))).

Definition shifts : list N :=
  [7; 12; 17; 22; 7; 12; 17; 22; 7; 12; 17; 22; 7; 12; 17; 22;
   5; 9; 14; 20; 5; 9; 14; 20; 5; 9; 14; 20; 5; 9; 14; 20;
   4; 11; 16; 23; 4; 11; 16; 23; 4; 11; 16; 23; 4; 11; 16; 23;
   6; 10; 15; 21; 6; 10; 15; 21; 6; 10; 15; 21; 6; 10; 15; 21]%N.

Definition sines : list N :=
  [0xd76aa478; 0xe8c7b756; 0x242070db; 0xc1bdceee; 0xf57c0faf; 0x4787c62a;
   0xa8304613; 0xfd469501; 0x698098d8; 0x8b44f7af; 0xffff5bb1; 0x895cd7be;
   0x6b901122; 0xfd987193; 0xa679438e; 0x49b40821; 0xf61e2562; 0xc040b340;
   0x265e5a51; 0xe9b6c7aa; 0xd62f105d; 0x02441453; 0xd8a1e681; 0xe7d3fbc8;
   0x21e1cde6; 0xc33707d6; 0xf4d50d87; 0x455a14ed; 0xa9e3e905; 0xfcefa3f8;
   0x676f02d9; 0x8d2a4c8a; 0xfffa3942; 0x8771f681; 0x6d9d6122; 0xfde5380c;
   0xa4beea44; 0x4bdecfa9; 0xf6bb4b60; 0xbebfbc70; 0x289b7ec6; 0xeaa127fa;
   0xd4ef3085; 0x04881d05; 0xd9d4d039; 0xe6db99e5; 0x1fa27cf8; 0xc4ac5665;
   0xf4292244; 0x432aff97; 0xab9423a7; 0xfc93a039; 0x655b59c3; 0x8f0ccc92;
   0xffeff47d; 0x85845dd1; 0x6fa87e4f; 0xfe2ce6e0; 0xa3014314; 0x4e0811a1;
   0xf7537e82; 0xbd3af235; 0x2ad7d2bb; 0xeb86d391]%N.

(** UTF-8 of a code point below 256. *)
Definition utf8 (c : ascii) : list N :=
  let n := code c in
  if (n <? 128)%N then [n]
  else [N.lor 192 (N.shiftr n 6); N.lor 128 (N.land n 63)].

Definition encode (s : str) : list N := flat_map utf8 s.

Fixpoint le_bytes (k : nat) (x : N) : list N :=
  match k with
  | O => []
  | S k' => N.land x 255 :: le_bytes k' (N.shiftr x 8)
  end.

Definition pad (msg : list N) : list N :=
  let len := length msg in
  let zeros := (64 + 55 - len mod 64) mod 64 in
  msg ++ [128%N] ++ repeat 0%N zeros ++ le_bytes 8 (N.of_nat len * 8).

Fixpoint word_le (bs : list N) : N :=
  match bs with
  | [] => 0
  | b :: bs' => b + 256 * word_le bs'
  end.

Fixpoint words (k : nat) (bs : list N) : list N :=
  match k with
  | O => []
  | S k' => word_le (firstn 4 bs) :: words k' (skipn 4 bs)
  end.

Record state := St { sa : N; sb : N; sc : N; sd : N }.

Definition round (m : list N) (st : state) (i : nat) : state :=
  let '(St a b c d) := st in
  let '(f, g) :=
    match i / 16 with
    | 0 => (N.lor (N.land b c) (N.land (not32 b) d), i)
    | 1 => (N.lor (N.land d b) (N.land (not32 d) c), (5 * i + 1) mod 16)
    | 2 => (N.lxor b (N.lxor c d), (3 * i + 5) mod 16)
    | _ => (N.lxor c (N.lor b (not32 d)), (7 * i) mod 16)
    end in
  let f' := add32 (add32 (add32 f a) (nth i sines 0%N)) (nth g m 0%N) in
  St d (add32 b (rotl32 f' (nth i shifts 0%N))) b c.

Definition block (st : state) (chunk : list N) : state :=
  let m := words 16 chunk in
  let '(St a b c d) := fold_left (round m) (seq 0 64) st in
  St (add32 (sa st) a) (add32 (sb st) b) (add32 (sc st) c) (add32 (sd st) d).

Fixpoint blocks (n : nat) (st : state) (bs : list N) : state :=
  match n with
  | O => st
  | S n' => blocks n' (block st (firstn 64 bs)) (skipn 64 bs)
  end.

Definition init : state := St 0x67452301 0xefcdab89 0x98badcfe 0x10325476.

Definition digest (msg : list N) : list N :=
  let p := pad msg in
  let '(St a b c d) := blocks (length p / 64) init p in
  le_bytes 4 a ++ le_bytes 4 b ++ le_bytes 4 c ++ le_bytes 4 d.

Definition hex_digit (n : N) : ascii :=
  ascii_of_N (if (n <? 10)%N then 48 + n else 87 + n).

Definition hex_byte (b : N) : str := [hex_digit (b / 16); hex_digit (b mod 16)].

Definition hexdigest (msg : list N) : str := flat_map hex_byte (digest msg).

End Md5.

(* ------------------------------------------------------------------ *)
(** ** Data model: enums, [CodePattern] and its [pattern_hash] *)

Inductive PatternCategory :=
| PERFORMANCE | TYPE_SAFETY | ARCHITECTURE | ERROR_HANDLING
| ASYNC_PATTERNS | REACT_PATTERNS | FILE_OPERATIONS | CODE_QUALITY.

Definition category_value (c : PatternCategory) : str :=
  match c with
  | PERFORMANCE => lit "performance"
  | TYPE_SAFETY => lit "type-safety"
  | ARCHITECTURE => lit "architecture"
  | ERROR_HANDLING => lit "error-handling"
  | ASYNC_PATTERNS => lit "async-patterns"
  | REACT_PATTERNS => lit "react-patterns"
  | FILE_OPERATIONS => lit "file-operations"
  | CODE_QUALITY => lit "code-quality"
  end.

Inductive PatternSeverity := LOW | MEDIUM | HIGH | CRITICAL.

Definition severity_value (s : PatternSeverity) : float :=
  match s with
  | LOW => 0.3
  | MEDIUM => 0.6
  | HIGH => 0.9
  | CRITICAL => 1.0
  end%float.

(** Values stored in the open [metadata] map. *)
Inductive pyval :=
| PyInt (z : Z)
| PyStr (s : str)
| PyList (l : list str).

(** A [dict] with string keys, in insertion order. *)
Module Dict.
Section Dict.
Variable V : Type.

Definition t := list (str * V).

Fixpoint lookup (k : str) (d : t) : option V :=
  match d with
  | [] => None
  | (k', v) :: d' => if Str.eqb k k' then Some v else lookup k d'
  end.

(** [d[k] = f(d[k])] for a key that is present; the entry keeps its place. *)
Fixpoint update (k : str) (f : V -> V) (d : t) : t :=
  match d with
  | [] => []
  | (k', v) :: d' =>
      if Str.eqb k k' then (k', f v) :: d' else (k', v) :: update k f d'
  end.

(** [d[k] = v]: overwrite in place, or append a new key. *)
Fixpoint set (k : str) (v : V) (d : t) : t :=
  match d with
  | [] => [(k, v)]
  | (k', v') :: d' =>
      if Str.eqb k k' then (k', v) :: d' else (k', v') :: set k v d'
  end.

Definition keys (d : t) : list str := map fst d.

End Dict.

Arguments lookup {V} k d.
Arguments update {V} k f d.
Arguments set {V} k v d.
Arguments keys {V} d.

End Dict.

Record CodePattern := mkCodePattern {
  pattern_type : str;
  pattern_content : str;
  description : str;
  category : PatternCategory;
  subcategory : option str;
  file_path : str;
  line_start : Z;
  line_end : Z;
  language : str;
  framework : option str;
  confidence_score : float;
  usage_count : Z;
  context_before : str;
  context_after : str;
  tags : list str;
  metadata : Dict.t pyval
}.

(** The text [f"{pattern_type}:{pattern_content}:{category.value}"]. *)
Definition hash_content (p : CodePattern) : str :=
  pattern_type p ++ [COLON] ++ pattern_content p ++ [COLON]
    ++ category_value (category p).

Definition pattern_hash (p : CodePattern) : str :=
  Md5.hexdigest (Md5.encode (hash_content p)).

(** The identity the specification gives to an occurrence. *)
Definition key_triple (p : CodePattern) : str * str * PatternCategory :=
  (pattern_type p, pattern_content p, category p).

Definition category_eqb (a b : PatternCategory) : bool :=
  Str.eqb (category_value a) (category_value b).

Definition key_triple_eqb (p q : CodePattern) : bool :=
  Str.eqb (pattern_type p) (pattern_type q)
  && Str.eqb (pattern_content p) (pattern_content q)
  && category_eqb (category p) (category q).

Definition no_colon (s : str) : bool :=
  forallb (fun c => negb (chr_eqb c COLON)) s.

(* ------------------------------------------------------------------ *)
(** ** Grouping by hash ([save_patterns_to_database], the grouping loop) *)

Record group := mkGroup {
  g_pattern : CodePattern;
  g_count : Z;
  g_files : list str
}.

(** [set.add] *)
Definition set_add (x : str) (s : list str) : list str :=
  if existsb (Str.eqb x) s then s else s ++ [x].

Definition group_step (gs : Dict.t group) (pattern : CodePattern)
  : Dict.t group :=
  let hash_key := pattern_hash pattern in
  let gs1 :=
    match Dict.lookup hash_key gs with
    | None => gs ++ [(hash_key, mkGroup pattern 0 [])]
    | Some _ => gs
    end in
  let gs2 :=
    Dict.update hash_key
      (fun g => mkGroup (g_pattern g) (g_count g + 1) (g_files g)) gs1 in
  Dict.update hash_key
    (fun g => mkGroup (g_pattern g) (g_count g)
                (set_add (file_path pattern) (g_files g))) gs2.

Definition pattern_groups (patterns : list CodePattern) : Dict.t group :=
  fold_left group_step patterns [].

(** Number of occurrences with the key of [p], resp. with hash [h]. *)
Definition count_key (p : CodePattern) (ps : list CodePattern) : nat :=
  length (filter (fun q => key_triple_eqb q p) ps).

Definition count_hash (h : str) (ps : list CodePattern) : nat :=
  length (filter (fun q => Str.eqb (pattern_hash q) h) ps).

(** No two occurrences of [ps] with different keys share a hash. *)
Definition collision_free (ps : list CodePattern) : bool :=
  forallb (fun p =>
    forallb (fun q =>
      implb (Str.eqb (pattern_hash p) (pattern_hash q)) (key_triple_eqb p q))
      ps) ps.

(* ------------------------------------------------------------------ *)
(** ** Regular expressions ([re.finditer], [re.search])

    The patterns of the source repeat single characters only ([\s*],
    [\w+], [[^}]*], [.*]), so repetition is over a character class.  A
    match is found as a backtracking matcher finds it: alternatives are
    tried left to right and repetitions are greedy; [run] lists the
    possible ends of a match in that order of preference. *)

Module Re.

Inductive regex :=
| Eps
| Chr (p : ascii -> bool)
| Cat (r1 r2 : regex)
| Alt (r1 r2 : regex)
| Star (p : ascii -> bool)
| Bnd.

(** The character before the cursor, and the text after it. *)
Definition cursor := (option ascii * str)%type.

Definition is_digit (c : ascii) : bool :=
  let n := code c in ((48 <=? n) && (n <=? 57))%N.

Definition is_upper (c : ascii) : bool :=
  let n := code c in ((65 <=? n) && (n <=? 90))%N.

Definition is_lower (c : ascii) : bool :=
  let n := code c in ((97 <=? n) && (n <=? 122))%N.

(** [\w]: alphanumeric in the sense of [str.isalnum], or an underscore. *)
Definition is_word (c : ascii) : bool :=
  let n := code c in
  is_digit c || is_upper c || is_lower c ||
  ((n =? 95) || (n =? 170) || (n =? 178) || (n =? 179) || (n =? 181)
   || (n =? 185) || (n =? 186) || (188 <=? n) && (n <=? 190)
   || (192 <=? n) && (n <=? 214) || (216 <=? n) && (n <=? 246)
   || (248 <=? n))%N.

Definition is_word_opt (c : option ascii) : bool :=
  match c with Some x => is_word x | None => false end.

Definition to_lower (c : ascii) : ascii :=
  if is_upper c then ascii_of_N (code c + 32) else c.

(** Character classes. *)
Definition one (c : ascii) : ascii -> bool := chr_eqb c.
Definition one_nocase (c : ascii) : ascii -> bool :=
  fun x => chr_eqb (to_lower x) (to_lower c).
Definition none_of (c : ascii) : ascii -> bool := fun x => negb (chr_eqb c x).
Definition any : ascii -> bool := fun _ => true.
Definition not_newline : ascii -> bool := fun x => negb (is_nl x).

Fixpoint star (p : ascii -> bool) (prev : option ascii) (rest : str)
  : list cursor :=
  match rest with
  | c :: rest' =>
      if p c then star p (Some c) rest' ++ [(prev, rest)] else [(prev, rest)]
  | [] => [(prev, rest)]
  end.

Fixpoint run (r : regex) (cur : cursor) : list cursor :=
  match r with
  | Eps => [cur]
  | Chr p =>
      match snd cur with
      | c :: rest => if p c then [(Some c, rest)] else []
      | [] => []
      end
  | Cat r1 r2 => flat_map (run r2) (run r1 cur)
  | Alt r1 r2 => run r1 cur ++ run r2 cur
  | Star p => star p (fst cur) (snd cur)
  | Bnd =>
      if xorb (is_word_opt (fst cur)) (is_word_opt (hd_error (snd cur)))
      then [cur] else []
  end.

(** Length of the match that starts at the cursor, if there is one. *)
Definition match_len (r : regex) (prev : option ascii) (rest : str)
  : option nat :=
  match run r (prev, rest) with
  | (_, rest') :: _ => Some (length rest - length rest')
  | [] => None
  end.

(** [re.finditer]: the spans [(start, end)] of the successive matches from
    left to right, none overlapping the one before.  [skip] counts the
    characters still covered by the previous match; after an empty match
    the search goes on one character further. *)
Fixpoint iter (r : regex) (skip off : nat) (prev : option ascii) (rest : str)
  : list (nat * nat) :=
  match skip with
  | S k =>
      match rest with
      | c :: rest' => iter r k (S off) (Some c) rest'
      | [] => []
      end
  | O =>
      match match_len r prev rest with
      | Some n =>
          (off, off + n) ::
          match rest with
          | c :: rest' => iter r (n - 1) (S off) (Some c) rest'
          | [] => []
          end
      | None =>
          match rest with
          | c :: rest' => iter r 0 (S off) (Some c) rest'
          | [] => []
          end
      end
  end.

Definition finditer (r : regex) (content : str) : list (nat * nat) :=
  iter r 0 0 None content.

(** [re.search(r, content)] finds a match. *)
Definition search (r : regex) (content : str) : bool :=
  match finditer r content with
  | [] => false
  | _ :: _ => true
  end.

(** Building blocks for writing the patterns of the source. *)
Fixpoint seq (rs : list regex) : regex :=
  match rs with
  | [] => Eps
  | [r] => r
  | r :: rs' => Cat r (seq rs')
  end.

Fixpoint alt (rs : list regex) : regex :=
  match rs with
  | [] => Chr (fun _ => false)
  | [r] => r
  | r :: rs' => Alt r (alt rs')
  end.

Definition text (s : string) : regex :=
  seq (map (fun c => Chr (one c)) (lit s)).
Definition text_nocase (s : string) : regex :=
  seq (map (fun c => Chr (one_nocase c)) (lit s)).
Definition plus (p : ascii -> bool) : regex := Cat (Chr p) (Star p).
Definition opt (r : regex) : regex := Alt r Eps.
Definition words (l : list string) : regex := alt (map text l).
Definition quote : ascii -> bool :=
  fun x => chr_eqb x (ascii_of_N 34) || chr_eqb x (ascii_of_N 39).

End Re.

(* ------------------------------------------------------------------ *)
(** ** The rule registry ([pattern_definitions]) *)

Record pattern_def := mkDef {
  rule_regex : Re.regex;
  rule_category : PatternCategory;
  rule_subcategory : str;
  rule_description : str;
  rule_severity : PatternSeverity;
  rule_tags : list str
}.

Module Rules.
Import Re.

Definition ws : regex := Star is_space.
Definition ws1 : regex := plus is_space.
Definition w1 : regex := plus is_word.
Definition ch (s : string) : regex := text s.

(** [fs\.(readFileSync|writeFileSync|...)] *)
Definition fs_sync_operations : regex :=
  seq [ch "fs.";
       words ["readFileSync"; "writeFileSync"; "appendFileSync"; "existsSync";
              "statSync"; "lstatSync"; "mkdirSync"; "rmdirSync"]%string].

(** [fs\.(readFile|writeFile|...)] *)
Definition fs_async_operations : regex :=
  seq [ch "fs.";
       words ["readFile"; "writeFile"; "appendFile"; "exists"; "stat";
              "lstat"; "mkdir"; "rmdir"; "readdir"]%string].

(** [:\s*any\b|as\s+any\b|\bany\[\]] *)
Definition any_type_usage : regex :=
  alt [seq [ch ":"; ws; ch "any"; Bnd];
       seq [ch "as"; ws1; ch "any"; Bnd];
       seq [Bnd; ch "any[]"]].

(** [interface\s+\w+\s*{[^}]+}] *)
Definition interface_definitions : regex :=
  seq [ch "interface"; ws1; w1; ws; ch "{"; plus (none_of "}"); ch "}"].

(** [as\s+\w+|<\w+>] *)
Definition type_assertions : regex :=
  alt [seq [ch "as"; ws1; w1]; seq [ch "<"; w1; ch ">"]].

(** [\bawait\s+] *)
Definition await_usage : regex := seq [Bnd; ch "await"; ws1].

(** [new\s+Promise|Promise\.(all|race|resolve|reject)] *)
Definition promise_usage : regex :=
  alt [seq [ch "new"; ws1; ch "Promise"];
       seq [ch "Promise."; words ["all"; "race"; "resolve"; "reject"]%string]].

(** [\(\s*err,?\s*\w*\s*\)\s*=>\s*{|\(\s*error,?\s*\w*\s*\)\s*=>\s*{] *)
Definition callback_patterns : regex :=
  let cb (name : string) :=
    seq [ch "("; ws; ch name; opt (ch ","); ws; Star is_word; ws; ch ")";
         ws; ch "=>"; ws; ch "{"] in
  alt [cb "err"%string; cb "error"%string].

(** [use(State|Effect|...)\s*\(] *)
Definition react_hooks : regex :=
  seq [ch "use";
       words ["State"; "Effect"; "Context"; "Reducer"; "Callback"; "Memo";
              "Ref"; "ImperativeHandle"; "LayoutEffect"; "DebugValue"]%string;
       ws; ch "("].

(** [React\.memo\s*\(|memo\s*\(] *)
Definition react_memo : regex :=
  alt [seq [ch "React.memo"; ws; ch "("]; seq [ch "memo"; ws; ch "("]].

(** [use(Callback|Memo)\s*\(] *)
Definition useCallback_useMemo : regex :=
  seq [ch "use"; words ["Callback"; "Memo"]%string; ws; ch "("].

(** [try\s*{[^}]*}\s*catch\s*\([^)]*\)\s*{] *)
Definition try_catch_blocks : regex :=
  seq [ch "try"; ws; ch "{"; Star (none_of "}"); ch "}"; ws; ch "catch"; ws;
       ch "("; Star (none_of ")"); ch ")"; ws; ch "{"].

(** [throw\s+new\s+\w*Error|throw\s+\w+] *)
Definition error_throwing : regex :=
  alt [seq [ch "throw"; ws1; ch "new"; ws1; Star is_word; ch "Error"];
       seq [ch "throw"; ws1; w1]].

(** [=>\s*{|=>\s*\w+] *)
Definition arrow_functions : regex :=
  alt [seq [ch "=>"; ws; ch "{"]; seq [ch "=>"; ws; w1]].

(** [const\s*{\s*\w+.*}\s*=|const\s*\[\s*\w+.*\]\s*=], where [.] also
    matches a newline ([re.DOTALL]). *)
Definition destructuring : regex :=
  alt [seq [ch "const"; ws; ch "{"; ws; w1; Star any; ch "}"; ws; ch "="];
       seq [ch "const"; ws; ch "["; ws; w1; Star any; ch "]"; ws; ch "="]].

(** [`[^`]*\${[^}]+}[^`]*`] *)
Definition template_literals : regex :=
  seq [ch "`"; Star (none_of "`"); ch "${"; plus (none_of "}"); ch "}";
       Star (none_of "`"); ch "`"].

(** [console\.(log|warn|error|info|debug)] *)
Definition console_statements : regex :=
  seq [ch "console."; words ["log"; "warn"; "error"; "info"; "debug"]%string].

(** [//\s*(TODO|FIXME|HACK|XXX|BUG)] *)
Definition todo_comments : regex :=
  seq [ch "//"; ws; words ["TODO"; "FIXME"; "HACK"; "XXX"; "BUG"]%string].

(** The patterns of [_determine_framework]; the first three are matched
    with [re.IGNORECASE], and [.] stops at a newline. *)
Definition nc (s : string) : regex := text_nocase s.

(** [import.*react|from\s+QreactQ], with [Q] a single or double quote *)
Definition react_import : regex :=
  alt [seq [nc "import"; Star not_newline; nc "react"];
       seq [nc "from"; ws1; Chr quote; nc "react"; Chr quote]].

(** [import.*vue|from\s+QvueQ] *)
Definition vue_import : regex :=
  alt [seq [nc "import"; Star not_newline; nc "vue"];
       seq [nc "from"; ws1; Chr quote; nc "vue"; Chr quote]].

(** [import.*angular|from\s+Q@angular] *)
Definition angular_import : regex :=
  alt [seq [nc "import"; Star not_newline; nc "angular"];
       seq [nc "from"; ws1; Chr quote; nc "@angular"]].

(** [express\(|app\.get|app\.post] *)
Definition express_calls : regex :=
  alt [ch "express("; ch "app.get"; ch "app.post"].

(** [require\(|module\.exports] *)
Definition node_modules_system : regex :=
  alt [ch "require("; ch "module.exports"].

End Rules.

Definition rule (name : string) (r : Re.regex) (cat : PatternCategory)
  (sub : string) (descr : str) (sev : PatternSeverity) (tgs : list string)
  : str * pattern_def :=
  (lit name, mkDef r cat (lit sub) descr sev (map lit tgs)).

Definition DQUOTE : ascii := ascii_of_N 34.

Definition pattern_definitions : list (str * pattern_def) :=
  [ rule "fs_sync_operations" Rules.fs_sync_operations PERFORMANCE
      "synchronous-io"
      (lit "Synchronous filesystem operations that block the event loop") HIGH
      ["blocking"; "filesystem"; "performance"];
    rule "fs_async_operations" Rules.fs_async_operations PERFORMANCE
      "asynchronous-io" (lit "Asynchronous filesystem operations") LOW
      ["non-blocking"; "filesystem"; "async"];
    rule "any_type_usage" Rules.any_type_usage TYPE_SAFETY "weak-typing"
      (lit "Usage of " ++ [DQUOTE] ++ lit "any" ++ [DQUOTE]
         ++ lit " type which bypasses TypeScript type checking")%list MEDIUM
      ["type-safety"; "any-type"; "weak-typing"];
    rule "interface_definitions" Rules.interface_definitions TYPE_SAFETY
      "strong-typing" (lit "Interface definitions for type safety") LOW
      ["interfaces"; "type-safety"; "strong-typing"];
    rule "type_assertions" Rules.type_assertions TYPE_SAFETY "type-casting"
      (lit "Type assertions that may bypass type checking") MEDIUM
      ["type-assertions"; "type-casting"];
    rule "await_usage" Rules.await_usage ASYNC_PATTERNS "await-async"
      (lit "Await keyword usage for asynchronous operations") LOW
      ["async"; "await"; "promises"];
    rule "promise_usage" Rules.promise_usage ASYNC_PATTERNS "promises"
      (lit "Promise-based asynchronous patterns") LOW
      ["promises"; "async"];
    rule "callback_patterns" Rules.callback_patterns ASYNC_PATTERNS
      "callbacks" (lit "Callback-based asynchronous patterns") MEDIUM
      ["callbacks"; "async"; "error-first"];
    rule "react_hooks" Rules.react_hooks REACT_PATTERNS "hooks"
      (lit "React hooks usage") LOW
      ["react"; "hooks"; "functional-components"];
    rule "react_memo" Rules.react_memo REACT_PATTERNS "performance"
      (lit "React.memo usage for component memoization") LOW
      ["react"; "memo"; "performance"; "optimization"];
    rule "useCallback_useMemo" Rules.useCallback_useMemo REACT_PATTERNS
      "performance" (lit "useCallback/useMemo for performance optimization") LOW
      ["react"; "performance"; "memoization"];
    rule "try_catch_blocks" Rules.try_catch_blocks ERROR_HANDLING
      "exception-handling" (lit "Try-catch blocks for error handling") LOW
      ["error-handling"; "exceptions"; "try-catch"];
    rule "error_throwing" Rules.error_throwing ERROR_HANDLING
      "error-throwing" (lit "Error throwing patterns") LOW
      ["error-handling"; "throw"; "exceptions"];
    rule "arrow_functions" Rules.arrow_functions ARCHITECTURE
      "functional-programming" (lit "Arrow function usage") LOW
      ["arrow-functions"; "functional"; "es6"];
    rule "destructuring" Rules.destructuring ARCHITECTURE "es6-features"
      (lit "Object/array destructuring patterns") LOW
      ["destructuring"; "es6"; "modern-js"];
    rule "template_literals" Rules.template_literals ARCHITECTURE
      "es6-features" (lit "Template literal usage") LOW
      ["template-literals"; "es6"; "string-interpolation"];
    rule "console_statements" Rules.console_statements CODE_QUALITY
      "debugging"
      (lit "Console statements that may need removal in production") MEDIUM
      ["console"; "debugging"; "production-cleanup"];
    rule "todo_comments" Rules.todo_comments CODE_QUALITY "technical-debt"
      (lit "TODO/FIXME comments indicating technical debt") MEDIUM
      ["todo"; "technical-debt"; "comments"] ]%string.

(* ------------------------------------------------------------------ *)
(** ** Classification ([_determine_language], [_determine_framework]) *)

Definition DOT : ascii := ascii_of_N 46.
Definition SLASH : ascii := ascii_of_N 47.

(** [str.lower()] *)
Definition lower_char (c : ascii) : ascii :=
  let n := code c in
  if ((65 <=? n) && (n <=? 90) || (192 <=? n) && (n <=? 214)
      || (216 <=? n) && (n <=? 222))%N
  then ascii_of_N (n + 32) else c.

Definition lower (s : str) : str := map lower_char s.

(** Offset of the last [c] in [s] ([s.rfind(c)]), if any. *)
Fixpoint rfind (c : ascii) (s : str) : option nat :=
  match s with
  | [] => None
  | x :: s' =>
      match rfind c s' with
      | Some i => Some (S i)
      | None => if chr_eqb x c then Some 0 else None
      end
  end.

(** A path is the list of its components below the repository root. *)
Definition path := list str.

Definition name (file_path : path) : str := last file_path [].

(** [Path.suffix]: the last dot of the name and what follows it, unless
    the dot comes first or last. *)
Definition suffix (file_path : path) : str :=
  let n := name file_path in
  match rfind DOT n with
  | Some i => if (0 <? i) && (S i <? length n) then skipn i n else []
  | None => []
  end.

Definition _determine_language (file_path : path) : str :=
  let extension := lower (suffix file_path) in
  if Str.eqb extension (lit ".ts") then lit "typescript"
  else if Str.eqb extension (lit ".tsx") then lit "typescript"
  else if Str.eqb extension (lit ".js") then lit "javascript"
  else if Str.eqb extension (lit ".jsx") then lit "javascript"
  else lit "unknown".

(** [file_path] is the text [str(file_path)]. *)
Definition _determine_framework (content : str) (file_path : str)
  : option str :=
  if Re.search Rules.react_import content then Some (lit "react")
  else if Re.search Rules.vue_import content then Some (lit "vue")
  else if Re.search Rules.angular_import content then Some (lit "angular")
  else if Re.search Rules.express_calls content then Some (lit "express")
  else if contains (lit "node") file_path
          || Re.search Rules.node_modules_system content
       then Some (lit "nodejs")
  else None.

(* ------------------------------------------------------------------ *)
(** ** Matching a file ([_extract_patterns_from_file]) *)

(** [content[:offset].count('\n') + 1] *)
Definition line_number (content : str) (offset : nat) : Z :=
  Z.of_nat (count_nl (firstn offset content)) + 1.

(** [lines[max(0, line_start - 3) : line_start - 1]] *)
Definition context_before_lines (lines : list str) (line_start : Z)
  : list str :=
  let context_start := Z.max 0 (line_start - 3) in
  slice lines context_start (line_start - 1).

(** [lines[line_end : min(len(lines), line_end + 2)]] *)
Definition context_after_lines (lines : list str) (line_end : Z)
  : list str :=
  let context_end := Z.min (Z.of_nat (length lines)) (line_end + 2) in
  slice lines line_end context_end.

(** The occurrence built for the match [content[s:e]] of a rule. *)
Definition build_pattern (pattern_name : str) (pattern_def : pattern_def)
  (relative_path language : str) (framework : option str)
  (content : str) (lines : list str) (span : nat * nat) : CodePattern :=
  let (s, e) := span in
  let group0 := substring content s e in
  let line_start := line_number content s in
  let line_end := line_number content e in
  mkCodePattern
    pattern_name
    (strip group0)
    (rule_description pattern_def)
    (rule_category pattern_def)
    (Some (rule_subcategory pattern_def))
    relative_path
    line_start
    line_end
    language
    framework
    (severity_value (rule_severity pattern_def))
    1
    (join [NL] (context_before_lines lines line_start))
    (join [NL] (context_after_lines lines line_end))
    (rule_tags pattern_def)
    [(lit "match_length", PyInt (Z.of_nat (length group0)));
     (lit "file_size", PyInt (Z.of_nat (length content)));
     (lit "total_lines", PyInt (Z.of_nat (length lines)))].

(** The occurrences of one file whose text [content] has been read:
    every rule in registry order, every match from left to right. *)
Definition patterns_of_content (relative_path full_path : str)
  (language : str) (content : str) : list CodePattern :=
  let lines := splitlines content in
  let framework := _determine_framework content full_path in
  flat_map
    (fun entry : str * pattern_def =>
       let (pattern_name, pattern_def) := entry in
       map (build_pattern pattern_name pattern_def relative_path language
              framework content lines)
           (Re.finditer (rule_regex pattern_def) content))
    pattern_definitions.

(* ------------------------------------------------------------------ *)
(** ** The corpus ([extract_patterns_from_repository]) *)

(** A file system below the repository root.  A node that cannot be read
    raises on [open] or on listing. *)
Inductive node :=
| File (readable : bool) (data : str)
| Dir (readable : bool) (entries : list (str * node)).

Record repository := mkRepo {
  repository_path : str;
  root : option node
}.

(** Text mode translates [\r\n] and [\r] to [\n] on reading. *)
Fixpoint universal_newlines (s : str) : str :=
  match s with
  | [] => []
  | c :: s' =>
      if chr_eqb c CR then
        NL :: match s' with
              | c' :: s'' =>
                  if chr_eqb c' NL then universal_newlines s''
                  else universal_newlines s'
              | [] => []
              end
      else c :: universal_newlines s'
  end.

(** [open(file_path).read()]; [None] when [open] raises. *)
Definition read (n : node) : option str :=
  match n with
  | File true data => Some (universal_newlines data)
  | _ => None
  end.

(** Every entry below a directory, directory by directory; a directory
    that cannot be listed contributes nothing. *)
Fixpoint entries_below (here : path) (n : node) : list (path * node) :=
  match n with
  | File _ _ => []
  | Dir false _ => []
  | Dir true entries =>
      map (fun e : str * node => (here ++ [fst e], snd e)) entries
      ++ flat_map
           (fun e : str * node =>
              let (child_name, child) := e in
              entries_below (here ++ [child_name]) child)
           entries
  end.

(** [root.rglob("*" + ext)]: empty when the root is missing or is not a
    directory that can be listed. *)
Definition rglob (r : option node) (ext : str) : list (path * node) :=
  match r with
  | None => []
  | Some n =>
      filter (fun e => ends_with ext (name (fst e))) (entries_below [] n)
  end.

(** [str(f.relative_to(repository_path))] and [str(f)], for a
    [repository_path] written without a final slash and other than ["."]. *)
Definition relative_str (f : path) : str := join [SLASH] f.
Definition path_str (repo : repository) (f : path) : str :=
  repository_path repo ++ [SLASH] ++ relative_str f.

Definition _extract_patterns_from_file (repo : repository)
  (file : path * node) : list CodePattern :=
  let (file_path, n) := file in
  match read n with
  | None => []
  | Some content =>
      patterns_of_content (relative_str file_path) (path_str repo file_path)
        (_determine_language file_path) content
  end.

(** The files that are matched against the rules. *)
Definition filtered_files (repo : repository) : list (path * node) :=
  let ts_files := rglob (root repo) (lit ".ts") in
  let js_files := rglob (root repo) (lit ".js") in
  let tsx_files := rglob (root repo) (lit ".tsx") in
  let jsx_files := rglob (root repo) (lit ".jsx") in
  let all_files := ts_files ++ js_files ++ tsx_files ++ jsx_files in
  filter
    (fun f => negb (contains (lit "node_modules") (path_str repo (fst f)))
              && negb (contains (lit "dist") (path_str repo (fst f))))
    all_files.

(** How a call ends. *)
Inductive exn := CorpusNotFoundError | SqliteError | UnboundLocalError.

Inductive outcome (A : Type) :=
| Returned (a : A)
| Raised (e : exn).
Arguments Returned {A} a.
Arguments Raised {A} e.

(** [patterns] is [self.patterns] on entry; the result is its value on
    return. *)
Definition extract_patterns_from_repository (repo : repository)
  (patterns : list CodePattern) : outcome (list CodePattern) :=
  Returned
    (fold_left
       (fun acc file => acc ++ _extract_patterns_from_file repo file)
       (filtered_files repo) patterns).

(* ------------------------------------------------------------------ *)
(** ** Persistence ([save_patterns_to_database]) *)

(** One row of [repository_patterns].  The two JSON columns hold the
    values that [json.dumps] serialises. *)
Record row := mkRow {
  r_id : str;
  r_repository_id : str;
  r_pattern_type : str;
  r_pattern_content : str;
  r_pattern_hash : str;
  r_description : str;
  r_category : str;
  r_subcategory : option str;
  r_tags : list str;
  r_file_path : str;
  r_line_start : Z;
  r_line_end : Z;
  r_language : str;
  r_framework : option str;
  r_confidence_score : float;
  r_usage_count : Z;
  r_context_before : str;
  r_context_after : str;
  r_metadata : Dict.t pyval;
  r_created_at : str;
  r_updated_at : str
}.

Definition table := list row.

(** The calls made on the connection. *)
Inductive db_op :=
| Connect
| Delete (repository_id : str)
| Insert (r : row)
| Commit
| Rollback
| Close.

(** A connection: the table as every other connection sees it, and the
    working copy of the open transaction, if one is open.  A [DELETE] or
    [INSERT] outside a transaction opens one. *)
Record connection := mkConn {
  committed : table;
  pending : option table
}.

Definition current (c : connection) : table :=
  match pending c with
  | Some t => t
  | None => committed c
  end.

Definition belongs (repository_id : str) (r : row) : bool :=
  Str.eqb (r_repository_id r) repository_id.

Definition apply_op (op : db_op) (c : connection) : connection :=
  match op with
  | Connect => c
  | Delete repository_id =>
      mkConn (committed c)
        (Some (filter (fun r => negb (belongs repository_id r)) (current c)))
  | Insert r => mkConn (committed c) (Some (current c ++ [r]))
  | Commit => mkConn (current c) None
  | Rollback => mkConn (committed c) None
  | Close => mkConn (committed c) None
  end.

(** What the run of a database call depends on and leaves behind:
    [fault] is the number of the one call that raises, if any (calls are
    numbered from 0, the [connect]); [log] lists the calls that were
    carried out and [history] the committed table after each of them. *)
Record world := mkWorld {
  conn : connection;
  calls : nat;
  fault : option nat;
  log : list db_op;
  history : list table
}.

(** Computations that call the database and may raise. *)
Definition M (A : Type) : Type := world -> outcome A * world.

Definition ret {A : Type} (a : A) : M A := fun w => (Returned a, w).

Definition bind {A B : Type} (m : M A) (k : A -> M B) : M B :=
  fun w =>
    match m w with
    | (Returned a, w') => k a w'
    | (Raised e, w') => (Raised e, w')
    end.

Notation "m ;; k" := (bind m (fun _ => k))
  (at level 61, right associativity).

Definition faulty (w : world) : bool :=
  match fault w with
  | Some k => Nat.eqb k (calls w)
  | None => false
  end.

(** One call on the connection. *)
Definition sql (op : db_op) : M unit :=
  fun w =>
    if faulty w then
      (Raised SqliteError,
       mkWorld (conn w) (S (calls w)) (fault w) (log w) (history w))
    else
      let c := apply_op op (conn w) in
      (Returned tt,
       mkWorld c (S (calls w)) (fault w) (log w ++ [op])
         (history w ++ [committed c])).

Fixpoint for_each {A : Type} (l : list A) (body : nat -> A -> M unit)
  (i : nat) : M unit :=
  match l with
  | [] => ret tt
  | a :: l' => body i a ;; for_each l' body (S i)
  end.

(** [try: body  except Exception: handler] and
    [try: body  finally: cleanup] *)
Definition try_except {A : Type} (body : M A) (handler : M A) : M A :=
  fun w =>
    match body w with
    | (Returned a, w') => (Returned a, w')
    | (Raised _, w') => handler w'
    end.

Definition try_finally {A : Type} (body : M A) (cleanup : M unit) : M A :=
  fun w =>
    match body w with
    | (r, w') =>
        match cleanup w' with
        | (Returned _, w'') => (r, w'')
        | (Raised e, w'') => (Raised e, w'')
        end
    end.

(** The sources of identifiers and of time stamps: the [i]-th value of
    [uuid.uuid4()] and of [datetime.now().isoformat()]. *)
Record clock := mkClock {
  uuid4 : nat -> str;
  now : nat -> str
}.

(** The row written for one group.  The representative's metadata gets
    [file_count] and [files] first; the representative is the object held
    in [self.patterns], which keeps the two entries afterwards. *)
Definition row_of (env : clock) (repository_id : str) (i : nat)
  (hash_key : str) (group_data : group) : row :=
  let pattern := g_pattern group_data in
  let usage_count := g_count group_data in
  let metadata1 :=
    Dict.set (lit "file_count")
      (PyInt (Z.of_nat (length (g_files group_data)))) (metadata pattern) in
  let metadata2 :=
    Dict.set (lit "files") (PyList (g_files group_data)) metadata1 in
  mkRow (uuid4 env i) repository_id
    (pattern_type pattern) (pattern_content pattern) (pattern_hash pattern)
    (description pattern) (category_value (category pattern))
    (subcategory pattern) (tags pattern) (file_path pattern)
    (line_start pattern) (line_end pattern) (language pattern)
    (framework pattern) (confidence_score pattern) usage_count
    (context_before pattern) (context_after pattern) metadata2
    (now env (2 * i)) (now env (2 * i + 1)).

Fixpoint rows_from (env : clock) (repository_id : str) (i : nat)
  (gs : Dict.t group) : list row :=
  match gs with
  | [] => []
  | (hash_key, group_data) :: gs' =>
      row_of env repository_id i hash_key group_data
      :: rows_from env repository_id (S i) gs'
  end.

(** The rows of a whole run, in the order of the groups. *)
Definition rows_of (env : clock) (repository_id : str)
  (patterns : list CodePattern) : list row :=
  rows_from env repository_id 0 (pattern_groups patterns).

(** What the function printed last. *)
Inductive verdict := NothingToSave | Saved (unique : nat) | Failed.

(** The body of the insertion loop, for the [i]-th group. *)
Definition insert_group (env : clock) (repository_id : str) (i : nat)
  (entry : str * group) : M unit :=
  sql (Insert (row_of env repository_id i (fst entry) (snd entry))).

(** The statements between [try] and [except], after [connect]. *)
Definition save_body (env : clock) (patterns : list CodePattern)
  (repository_id : str) : M verdict :=
  sql (Delete repository_id) ;;
  let groups := pattern_groups patterns in
  for_each groups (insert_group env repository_id) 0 ;;
  sql Commit ;;
  ret (Saved (length groups)).

(** When [connect] itself raises, [conn] is unbound and both the handler
    and the [finally] clause raise in turn. *)
Definition save_patterns_to_database (env : clock)
  (patterns : list CodePattern) (repository_id : str) : M verdict :=
  match patterns with
  | [] => ret NothingToSave
  | _ :: _ =>
      fun w =>
        match sql Connect w with
        | (Raised _, w') => (Raised UnboundLocalError, w')
        | (Returned _, w') =>
            try_finally
              (try_except (save_body env patterns repository_id)
                 (sql Rollback ;; ret Failed))
              (sql Close) w'
        end
  end.

(** A run against the stored table [db]. *)
Definition start (db : table) (fault : option nat) : world :=
  mkWorld (mkConn db None) 0 fault [] [].

Definition stored (w : world) : table := committed (conn w).

Definition rows_for (repository_id : str) (t : table) : table :=
  filter (belongs repository_id) t.

Definition rows_not_for (repository_id : str) (t : table) : table :=
  filter (fun r => negb (belongs repository_id r)) t.

(** Nothing has been committed so far: every other connection has seen
    the table [db] and nothing else. *)
Definition quiet (db : table) (w : world) : Prop :=
  committed (conn w) = db /\ Forall (eq db) (history w).

(** A call has raised: the failing call is behind. *)
Definition behind (w : world) : Prop :=
  exists k, fault w = Some k /\ k < calls w.

(** [n] calls went through between [w] and [w']. *)
Definition passed (n : nat) (w w' : world) : Prop :=
  calls w' = calls w + n /\ fault w' = fault w
  /\ forall k, fault w = Some k -> k < calls w \/ calls w + n <= k.

(* ------------------------------------------------------------------ *)
(** ** The report ([generate_pattern_report]) *)

(** [counts[k] = counts.get(k, 0) + 1] *)
Definition bump (k : str) (counts : Dict.t Z) : Dict.t Z :=
  let old := match Dict.lookup k counts with Some n => n | None => 0%Z end in
  Dict.set k (old + 1)%Z counts.

(** The severity name the report gives to a confidence score. *)
Definition severity_of_score (score : float) : str :=
  if (0.9 <=? score)%float then lit "critical"
  else if (0.6 <=? score)%float then lit "high"
  else if (0.3 <=? score)%float then lit "medium"
  else lit "low".

(** The severity name of a rule's tier. *)
Definition severity_name (s : PatternSeverity) : str :=
  match s with
  | LOW => lit "low"
  | MEDIUM => lit "medium"
  | HIGH => lit "high"
  | CRITICAL => lit "critical"
  end.

(** [sorted(items, key=lambda x: x[1], reverse=True)]: decreasing counts,
    equal counts in their original order. *)
Fixpoint insert_desc (x : str * Z) (l : list (str * Z)) : list (str * Z) :=
  match l with
  | [] => [x]
  | y :: l' =>
      if (snd x <? snd y)%Z then y :: insert_desc x l' else x :: l
  end.

Definition sorted_desc (items : list (str * Z)) : list (str * Z) :=
  fold_right insert_desc [] items.

Record report := mkReport {
  total_patterns : Z;
  category_breakdown : Dict.t Z;
  severity_breakdown : Dict.t Z;
  top_files_by_pattern_count : Dict.t Z;
  pattern_type_breakdown : Dict.t Z;
  extraction_timestamp : str;
  report_repository_path : str
}.

Record counters := mkCounters {
  category_counts : Dict.t Z;
  severity_counts : Dict.t Z;
  file_counts : Dict.t Z;
  pattern_type_counts : Dict.t Z
}.

Definition count_pattern (c : counters) (pattern : CodePattern) : counters :=
  mkCounters
    (bump (category_value (category pattern)) (category_counts c))
    (bump (severity_of_score (confidence_score pattern)) (severity_counts c))
    (bump (file_path pattern) (file_counts c))
    (bump (pattern_type pattern) (pattern_type_counts c)).

Definition count_patterns (patterns : list CodePattern) : counters :=
  fold_left count_pattern patterns (mkCounters [] [] [] []).

(** [None] stands for the report that only says that no patterns were
    found. *)
Definition generate_pattern_report (env : clock) (repository_path : str)
  (patterns : list CodePattern) : option report :=
  match patterns with
  | [] => None
  | _ :: _ =>
      let c := count_patterns patterns in
      Some (mkReport
              (Z.of_nat (length patterns))
              (category_counts c)
              (severity_counts c)
              (firstn 10 (sorted_desc (file_counts c)))
              (sorted_desc (pattern_type_counts c))
              (now env 0)
              repository_path)
  end.

Definition total (counts : Dict.t Z) : Z :=
  fold_right (fun kv acc => (snd kv + acc)%Z) 0%Z counts.

(* ------------------------------------------------------------------ *)
(** ** Lines of a text, as the specification speaks of them *)

(** Offset just after the [k]-th newline of [s], if [s] has that many. *)
Fixpoint after_newlines (k : nat) (s : str) {struct s} : option nat :=
  match k with
  | O => Some 0
  | S k' =>
      match s with
      | [] => None
      | c :: s' =>
          option_map S
            (if is_nl c then after_newlines k' s' else after_newlines k s')
      end
  end.

(** Offset where line [line] starts (lines are numbered from 1 and end at
    a newline). *)
Definition line_begin (content : str) (line : Z) : option nat :=
  after_newlines (Z.to_nat (line - 1)) content.

(** End of the line that starts after [k] newlines: at its newline, or at
    the end of the text. *)
Definition finish_after (k : nat) (s : str) : nat :=
  match after_newlines (S k) s with
  | Some o => o - 1
  | None => length s
  end.

(** Offset where line [line] ends. *)
Definition line_finish (content : str) (line : Z) : nat :=
  finish_after (Z.to_nat (line - 1)) content.

(** The [k] lines immediately before line [line], fewer at the start. *)
Definition preceding (k : nat) (lines : list str) (line : Z) : list str :=
  let i := Z.to_nat (line - 1) in
  skipn (i - k) (firstn i lines).

(** The [k] lines immediately after line [line], fewer at the end. *)
Definition following (k : nat) (lines : list str) (line : Z) : list str :=
  firstn k (skipn (Z.to_nat line) lines).

(** Every line boundary of [content] is a newline. *)
Definition only_newlines (content : str) : bool :=
  forallb (fun c => implb (is_linebreak c) (is_nl c)) content.

(** Line [line] of a text, if the text has it: lines are numbered from 1,
    each ends at a newline or at the end of the text, and a final newline
    opens no further line. *)
Definition text_line (content : str) (line : Z) : option str :=
  if (line <? 1)%Z then None
  else
    match line_begin content line with
    | Some a =>
        if a <? length content
        then Some (substring content a (line_finish content line))
        else None
    | None => None
    end.

Definition present (lines : list (option str)) : list str :=
  flat_map (fun l => match l with Some x => [x] | None => [] end) lines.

(** Those of the lines numbered [first] and [first + 1] that the text
    has. *)
Definition two_lines (content : str) (first : Z) : list str :=
  present [text_line content first; text_line content (first + 1)].

(** A text with a form feed in its first line, and the occurrence of the
    call on its second line. *)
Definition FF : ascii := ascii_of_N 12.

Definition form_feed_text : str :=
  lit "one" ++ [FF] ++ lit "more" ++ [NL] ++ lit "fs.readFileSync(p)" ++ [NL]
  ++ lit "three".

(** A text used in examples: three lines, a call of [fs.readFileSync] on
    line 4 (offsets 14 to 29), three more lines. *)
Definition seven_lines : str :=
  lit "one" ++ [NL] ++ lit "two" ++ [NL] ++ lit "three" ++ [NL]
  ++ lit "fs.readFileSync(p)" ++ [NL] ++ lit "five" ++ [NL] ++ lit "six"
  ++ [NL] ++ lit "seven".

Definition sync_rule : pattern_def :=
  mkDef Rules.fs_sync_operations PERFORMANCE (lit "synchronous-io")
    (lit "Synchronous filesystem operations that block the event loop") HIGH
    (map lit ["blocking"; "filesystem"; "performance"]%string).

Definition sync_in_seven_lines : CodePattern :=
  build_pattern (lit "fs_sync_operations") sync_rule (lit "src/a.ts")
    (lit "typescript") None seven_lines (splitlines seven_lines) (14, 29).

Definition sync_after_form_feed : CodePattern :=
  build_pattern (lit "fs_sync_operations") sync_rule (lit "src/a.ts")
    (lit "typescript") None form_feed_text (splitlines form_feed_text)
    (9, 24).

(** Inputs used in examples. *)
Definition fixed_clock : clock :=
  mkClock (fun i => lit "id-" ++ [ascii_of_nat (48 + i)])
          (fun i => lit "2024-01-01T00:00:0" ++ [ascii_of_nat (48 + i)]).

Definition await_file : list CodePattern :=
  patterns_of_content (lit "a.ts") (lit "/repo/a.ts") (lit "typescript")
    (lit "await foo()").

(** Some content heuristic of [_determine_framework] applies. *)
Definition content_heuristic (content : str) : bool :=
  Re.search Rules.react_import content
  || Re.search Rules.vue_import content
  || Re.search Rules.angular_import content
  || Re.search Rules.express_calls content
  || Re.search Rules.node_modules_system content.

Definition react_and_require : str :=
  lit "import React from 'react';" ++ [NL] ++ lit "const fs = require('fs');".

Definition plain_content : str := lit "export const x = 1;".

(** A content with a call of the server framework and the generic
    module-system indicator. *)
Definition express_and_exports : str :=
  lit "const app = express();" ++ [NL] ++ lit "module.exports = app;".

(** The last heuristic of [_determine_framework]: the generic indicator. *)
Definition generic_indicator (content file_path : str) : bool :=
  contains (lit "node") file_path
  || Re.search Rules.node_modules_system content.




Definition vendored_repo : repository :=
  mkRepo (lit "/repo")
    (Some (Dir true
       [(lit "node_modules",
         Dir true [(lit "lib.js", File true (lit "fs.readFileSync(p)"))])])).

Definition small_repo : repository :=
  mkRepo (lit "/repo")
    (Some (Dir true
       [(lit "src",
         Dir true [(lit "a.ts", File true (lit "fs.readFileSync(path)"));
                   (lit "b.ts", File false (lit "await x"));
                   (lit "notes.md", File true (lit "await y"))])])).

(** Tables used in examples: two rows of repository ["r1"] left by an
    earlier run and one row of repository ["r2"]. *)
Definition old_row (rid ty : string) : row :=
  mkRow (lit "old") (lit rid) (lit ty) [] [] [] [] None [] [] 1 1 [] None
    0.3 1 [] [] [] [] [].

Definition old_table : table :=
  [old_row "r1" "await_usage"; old_row "r2" "todo_comments";
   old_row "r1" "arrow_functions"].

(** A bare occurrence, for examples: only the fields given matter. *)
Definition occurrence (ty content : str) (cat : PatternCategory)
  (file : str) (ls le : Z) (score : float) : CodePattern :=
  mkCodePattern ty content [] cat None file ls le (lit "typescript") None
    score 1 [] [] [] [].

(** The same occurrence seen at another place. *)
Definition relocate (p : CodePattern) (file : str) (ls le : Z) : CodePattern :=
  mkCodePattern (pattern_type p) (pattern_content p) (description p)
    (category p) (subcategory p) file ls le (language p) (framework p)
    (confidence_score p) (usage_count p) (context_before p)
    (context_after p) (tags p) (metadata p).

(** The deduplication invariant of the specification: the group emitted
    for the hash of [p] counts the occurrences with the key of [p], holds
    their distinct file paths, and is represented by the first occurrence
    with that hash. *)
Definition dedup_invariant (ps : list CodePattern) : Prop :=
  forall p, In p ps ->
  exists g,
    Dict.lookup (pattern_hash p) (pattern_groups ps) = Some g
    /\ g_count g = Z.of_nat (count_key p ps)
    /\ NoDup (g_files g)
    /\ (forall f, In f (g_files g) <->
          exists q, In q ps /\ key_triple q = key_triple p /\ file_path q = f)
    /\ (Z.of_nat (length (g_files g)) <= g_count g)%Z
    /\ find (fun q => Str.eqb (pattern_hash q) (pattern_hash p)) ps
        = Some (g_pattern g).

(** Two occurrences whose keys differ and whose hashed texts coincide:
    rule id ["a:b"] with text ["c"], and rule id ["a"] with text ["b:c"]. *)
Definition colon_left : CodePattern :=
  occurrence (lit "a:b") (lit "c") PERFORMANCE (lit "x.ts") 1 1 0.3.
Definition colon_right : CodePattern :=
  occurrence (lit "a") (lit "b:c") PERFORMANCE (lit "y.ts") 1 1 0.3.

(** Occurrences of two registry rules, and three sightings of them. *)
Definition sync_read_a : CodePattern :=
  occurrence (lit "fs_sync_operations") (lit "fs.readFileSync") PERFORMANCE
    (lit "src/a.ts") 3 3 0.9.
Definition async_read_b : CodePattern :=
  occurrence (lit "fs_async_operations") (lit "fs.readFile") PERFORMANCE
    (lit "src/b.ts") 7 7 0.3.

Definition three_sightings : list CodePattern :=
  [sync_read_a; async_read_b; relocate sync_read_a (lit "src/c.ts") 9 9].

(** The texts a digest can be: all words of a given length over the
    sixteen hexadecimal digits. *)
Definition hex_digits : str := lit "0123456789abcdef".

Fixpoint all_words (n : nat) : list str :=
  match n with
  | O => [[]]
  | S n' => flat_map (fun c => map (cons c) (all_words n')) hex_digits
  end.

(** The occurrence of rule [error_throwing] in a file whose text is
    [throw] followed by [k + 1] letters [a]. *)
Definition thrown_text (k : nat) : str :=
  lit "throw " ++ repeat (ascii_of_N 97) (S k).

Definition thrown (k : nat) : CodePattern :=
  occurrence (lit "error_throwing") (thrown_text k) ERROR_HANDLING
    (lit "src/a.ts") 1 1 0.3.

(* ------------------------------------------------------------------ *)
(** ** Counting, as the report and the grouping do it *)

(** The distinct texts of a list, in the order of their first
    appearance. *)
Definition distinct (ks : list str) : list str :=
  fold_left (fun seen k => set_add k seen) ks [].

(** Number of occurrences whose [key] is [k]. *)
Definition occurrences_with (key : CodePattern -> str) (k : str)
  (ps : list CodePattern) : nat :=
  length (filter (fun p => Str.eqb (key p) k) ps).

(** One counter of the report's loop, alone: [counts[key(p)] =
    counts.get(key(p), 0) + 1] for every occurrence. *)
Definition tally (key : CodePattern -> str) (ps : list CodePattern)
  (counts : Dict.t Z) : Dict.t Z :=
  fold_left (fun d p => bump (key p) d) ps counts.

(** The counts a tally must hold: every distinct key with its number of
    occurrences, in the order of first appearance. *)
Definition counted (key : CodePattern -> str) (ps : list CodePattern)
  : Dict.t Z :=
  map (fun k => (k, Z.of_nat (occurrences_with key k ps)))
      (distinct (map key ps)).

(** The keys of the four counters. *)
Definition category_key (p : CodePattern) : str :=
  category_value (category p).
Definition severity_key (p : CodePattern) : str :=
  severity_of_score (confidence_score p).

(** The entries of a count dictionary with a given count. *)
Definition with_count (c : Z) (items : list (str * Z)) : list (str * Z) :=
  filter (fun e => (snd e =? c)%Z) items.

(** [a] counts at least as much as [b]. *)
Definition ge_count (a b : str * Z) : Prop := (snd b <= snd a)%Z.

(** Sum of the usage counts of the groups. *)
Definition total_usage (gs : Dict.t group) : Z :=
  fold_right (fun kv acc => (g_count (snd kv) + acc)%Z) 0%Z gs.

(** Sum of the [usage_count] column of a list of rows. *)
Definition sum_usage (rows : list row) : Z :=
  fold_right (fun r acc => (r_usage_count r + acc)%Z) 0%Z rows.

(** The columns of a row that are copied from an occurrence. *)
Definition copied_from (p : CodePattern) (r : row) : Prop :=
  r_pattern_type r = pattern_type p
  /\ r_pattern_content r = pattern_content p
  /\ r_pattern_hash r = pattern_hash p
  /\ r_description r = description p
  /\ r_category r = category_value (category p)
  /\ r_subcategory r = subcategory p
  /\ r_tags r = tags p
  /\ r_file_path r = file_path p
  /\ r_line_start r = line_start p
  /\ r_line_end r = line_end p
  /\ r_language r = language p
  /\ r_framework r = framework p
  /\ r_confidence_score r = confidence_score p
  /\ r_context_before r = context_before p
  /\ r_context_after r = context_after p.


(* ------------------------------------------------------------------ *)
(** ** The walk, as a whole *)

(** The occurrences that one walk of the corpus appends to
    [self.patterns]. *)
Definition found (repo : repository) : list CodePattern :=
  flat_map (_extract_patterns_from_file repo) (filtered_files repo).

Definition source_extensions : list str :=
  [lit ".ts"; lit ".js"; lit ".tsx"; lit ".jsx"].

(** The name matches one of the four [rglob] patterns. *)
Definition has_source_extension (file_name : str) : bool :=
  existsb (fun ext => ends_with ext file_name) source_extensions.

(** The text holds one of the two substrings that the filter rejects. *)
Definition vendored (s : str) : bool :=
  contains (lit "node_modules") s || contains (lit "dist") s.

(** Every entry below the root, as [rglob] enumerates them. *)
Definition entries (repo : repository) : list (path * node) :=
  match root repo with
  | Some n => entries_below [] n
  | None => []
  end.

(** The tree of [small_repo], checked out under a path that has ["dist"]
    in it. *)
Definition distributed_repo : repository :=
  mkRepo (lit "/srv/distributed-queue") (root small_repo).

(** The name is nothing but one of the four extensions. *)
Definition bare_extension (file_name : str) : bool :=
  existsb (Str.eqb file_name) source_extensions.

(** A scanned file of [small_repo]. *)
Definition a_ts : path * node :=
  ([lit "src"; lit "a.ts"], File true (lit "fs.readFileSync(path)")).

(* ------------------------------------------------------------------ *)
(** ** What a pattern can match first *)

Definition all_ascii : list ascii := map ascii_of_nat (seq 0 256).

(** The pattern matches the empty text only, where it matches. *)
Fixpoint zero (r : Re.regex) : bool :=
  match r with
  | Re.Eps | Re.Bnd => true
  | Re.Cat r1 r2 => zero r1 && zero r2
  | _ => false
  end.

(** Every match of the pattern begins with a character that is not white
    space. *)
Fixpoint leads (r : Re.regex) : bool :=
  match r with
  | Re.Chr p => forallb (fun c => implb (p c) (negb (is_space c))) all_ascii
  | Re.Cat r1 r2 => leads r1 || (zero r1 && leads r2)
  | Re.Alt r1 r2 => leads r1 && leads r2
  | _ => false
  end.

(** The occurrence is built from a rule of the registry and one of the
    matches of its pattern in some text. *)
Definition built (p : CodePattern) (pattern_name : str) (def : pattern_def)
  (content : str) (span : nat * nat) : Prop :=
  In (pattern_name, def) pattern_definitions
  /\ In span (Re.finditer (rule_regex def) content)
  /\ exists relative_path language framework,
       p = build_pattern pattern_name def relative_path language framework
             content (splitlines content) span.

(* ------------------------------------------------------------------ *)
(** ** The command line ([main]) *)




(** One span ends before the next begins, and begins before it. *)
Definition before (a b : nat * nat) : Prop := snd a <= fst b /\ fst a < fst b.

(* ------------------------------------------------------------------ *)
(** ** What the insertion loop leaves in [self.patterns] *)

(** [list(group_data['files'])]: the order in which a set is listed is
    not fixed by its elements.  A [listing] stands for that order; what
    is proved below holds for every one. *)
Definition listing := list str -> list str.

(** The representative of a group, once the loop has handled the group:
    [pattern.metadata] is the dictionary of the occurrence held in
    [self.patterns], and it has got [file_count] and [files]. *)
Definition annotate (order : listing) (group_data : group)
  (pattern : CodePattern) : CodePattern :=
  mkCodePattern (pattern_type pattern) (pattern_content pattern)
    (description pattern) (category pattern) (subcategory pattern)
    (file_path pattern) (line_start pattern) (line_end pattern)
    (language pattern) (framework pattern) (confidence_score pattern)
    (usage_count pattern) (context_before pattern) (context_after pattern)
    (tags pattern)
    (Dict.set (lit "files") (PyList (order (g_files group_data)))
       (Dict.set (lit "file_count")
          (PyInt (Z.of_nat (length (g_files group_data))))
          (metadata pattern))).

Definition annotate_in (order : listing) (groups : Dict.t group)
  (pattern : CodePattern) : CodePattern :=
  match Dict.lookup (pattern_hash pattern) groups with
  | Some group_data => annotate order group_data pattern
  | None => pattern
  end.

(** The occurrences after the loop has handled every group of [groups]:
    the first occurrence with each hash is the one its group holds;
    [seen] are the hashes met so far. *)
Fixpoint annotated (order : listing) (groups : Dict.t group)
  (seen : list str) (patterns : list CodePattern) : list CodePattern :=
  match patterns with
  | [] => []
  | pattern :: rest =>
      let hash_key := pattern_hash pattern in
      if existsb (Str.eqb hash_key) seen
      then pattern :: annotated order groups seen rest
      else annotate_in order groups pattern
           :: annotated order groups (hash_key :: seen) rest
  end.

(** [self.patterns] after a run of the persistence step in which every
    group was inserted. *)
Definition patterns_after_save (order : listing)
  (patterns : list CodePattern) : list CodePattern :=
  annotated order (pattern_groups patterns) [] patterns.

(** A group whose representative is seen after the loop. *)
Definition regroup (order : listing) (groups : Dict.t group)
  (entry : str * group) : str * group :=
  (fst entry,
   mkGroup (annotate_in order groups (g_pattern (snd entry)))
     (g_count (snd entry)) (g_files (snd entry))).

(** The row written for a group by a run that lists the files of the
    group in the order [order]: the row of [row_of], with that list under
    [files]. *)
Definition row_listed (order : listing) (env : clock)
  (repository_id : str) (i : nat) (hash_key : str) (group_data : group)
  : row :=
  let r := row_of env repository_id i hash_key group_data in
  mkRow (r_id r) (r_repository_id r) (r_pattern_type r)
    (r_pattern_content r) (r_pattern_hash r) (r_description r)
    (r_category r) (r_subcategory r) (r_tags r) (r_file_path r)
    (r_line_start r) (r_line_end r) (r_language r) (r_framework r)
    (r_confidence_score r) (r_usage_count r) (r_context_before r)
    (r_context_after r)
    (Dict.set (lit "files") (PyList (order (g_files group_data)))
       (r_metadata r))
    (r_created_at r) (r_updated_at r).

Fixpoint rows_listed_from (order : listing) (env : clock)
  (repository_id : str) (i : nat) (gs : Dict.t group) : list row :=
  match gs with
  | [] => []
  | (hash_key, group_data) :: gs' =>
      row_listed order env repository_id i hash_key group_data
      :: rows_listed_from order env repository_id (S i) gs'
  end.

Definition rows_listed (order : listing) (env : clock)
  (repository_id : str) (patterns : list CodePattern) : list row :=
  rows_listed_from order env repository_id 0 (pattern_groups patterns).

(** The order in which the files were added. *)
Definition as_added : listing := fun files => files.

(* ================================================================== *)
(** * Properties *)

(** ** Strings and dictionaries *)

Module StrFacts.

Lemma chr_eqb_eq a b : chr_eqb a b = true <-> a = b.
Proof. apply Ascii.eqb_eq. Qed.

Lemma streqb_eq a b : Str.eqb a b = true <-> a = b.
Proof.
  revert b; induction a as [|x a IH]; intros [|y b]; simpl; split;
    try congruence; try reflexivity.
  - intros H. apply andb_true_iff in H as [H1 H2].
    apply chr_eqb_eq in H1. apply IH in H2. congruence.
  - intros H. injection H as -> ->. apply andb_true_iff. split.
    + now apply chr_eqb_eq.
    + now apply IH.
Qed.

Lemma streqb_refl a : Str.eqb a a = true.
Proof. now apply streqb_eq. Qed.

Lemma streqb_neq a b : Str.eqb a b = false <-> a <> b.
Proof.
  split.
  - intros H E. apply streqb_eq in E. congruence.
  - intros H. destruct (Str.eqb a b) eqn:E; [|reflexivity].
    apply streqb_eq in E. contradiction.
Qed.


End StrFacts.

Module DictFacts.
Section DictFacts.
Variable V : Type.
Implicit Types (d : Dict.t V) (k : str).

Lemma lookup_update_same k f d :
  Dict.lookup k (Dict.update k f d) = option_map f (Dict.lookup k d).
Proof.
  induction d as [|[k' v] d IH]; simpl; [reflexivity|].
  destruct (Str.eqb k k') eqn:E; simpl; rewrite E; auto.
Qed.

Lemma lookup_update_other k k' f d :
  k' <> k -> Dict.lookup k' (Dict.update k f d) = Dict.lookup k' d.
Proof.
  intros N. induction d as [|[k0 v] d IH]; simpl; [reflexivity|].
  destruct (Str.eqb k k0) eqn:E; simpl.
  - apply StrFacts.streqb_eq in E. subst k0.
    destruct (Str.eqb k' k) eqn:E'; [|reflexivity].
    apply StrFacts.streqb_eq in E'. contradiction.
  - now rewrite IH.
Qed.

Lemma lookup_snoc k k' v d :
  Dict.lookup k' (d ++ [(k, v)]) =
  match Dict.lookup k' d with
  | Some x => Some x
  | None => if Str.eqb k' k then Some v else None
  end.
Proof.
  induction d as [|[k0 v0] d IH]; simpl; [reflexivity|].
  destruct (Str.eqb k' k0); auto.
Qed.

Lemma keys_update k f d : Dict.keys (Dict.update k f d) = Dict.keys d.
Proof.
  induction d as [|[k0 v] d IH]; simpl; [reflexivity|].
  destruct (Str.eqb k k0); simpl; [reflexivity|]. now f_equal.
Qed.

Lemma lookup_none_keys k d : Dict.lookup k d = None <-> ~ In k (Dict.keys d).
Proof.
  induction d as [|[k0 v] d IH]; simpl.
  - tauto.
  - destruct (Str.eqb k k0) eqn:E.
    + apply StrFacts.streqb_eq in E. subst. split; [discriminate|]. tauto.
    + apply StrFacts.streqb_neq in E. rewrite IH. split.
      * intros H [H1|H1]; [congruence | tauto].
      * tauto.
Qed.
End DictFacts.
End DictFacts.

(** ** MD5 test vectors (RFC 1321) *)

Example md5_empty :
  Md5.hexdigest (Md5.encode (lit "")) = lit "d41d8cd98f00b204e9800998ecf8427e".
Proof. vm_compute. reflexivity. Qed.

Example md5_abc :
  Md5.hexdigest (Md5.encode (lit "abc"))
  = lit "900150983cd24fb0d6963f7d28e17f72".
Proof. vm_compute. reflexivity. Qed.


(** ** Sample matches of the registry patterns *)

Example finditer_destructuring :
  Re.finditer Rules.destructuring
    (lit "const {a, b} = obj; const c = {d: 1}; e = 2")
  = [(0, 14)].
Proof. vm_compute. reflexivity. Qed.

Example finditer_any_type_usage :
  Re.finditer Rules.any_type_usage
    (lit "x: any, y: anyone, z as any, many[], w: any[]")
  = [(1, 6); (21, 27); (38, 43)].
Proof. vm_compute. reflexivity. Qed.

Example finditer_await_usage :
  Re.finditer Rules.await_usage (lit "await f(); xawait g(); await  h()")
  = [(0, 6); (23, 30)].
Proof. vm_compute. reflexivity. Qed.

Example finditer_arrow_functions :
  Re.finditer Rules.arrow_functions (lit "a => b; c =>  { d }; e =>")
  = [(2, 6); (10, 15)].
Proof. vm_compute. reflexivity. Qed.

Example finditer_fs_async_in_sync :
  Re.finditer Rules.fs_async_operations
    (lit "fs.readFileSync(p); fs.statSync(q)")
  = [(0, 11); (20, 27)].
Proof. vm_compute. reflexivity. Qed.

Example splitlines_boundaries :
  splitlines (lit "a" ++ [CR; NL] ++ lit "b" ++ [NL; NL] ++ lit "c" ++ [NL])
  = [lit "a"; lit "b"; []; lit "c"].
Proof. vm_compute. reflexivity. Qed.

(** ** The pattern hash *)

Section HashKey.

Lemma no_colon_cons c s :
  no_colon (c :: s) = true <-> c <> COLON /\ no_colon s = true.
Proof.
  unfold no_colon; simpl. rewrite andb_true_iff, negb_true_iff.
  split; intros [H1 H2]; split; auto.
  - intros E. apply StrFacts.chr_eqb_eq in E. congruence.
  - destruct (chr_eqb c COLON) eqn:E; [|reflexivity].
    apply StrFacts.chr_eqb_eq in E. contradiction.
Qed.

Lemma no_colon_rev s : no_colon s = true -> no_colon (rev s) = true.
Proof.
  unfold no_colon. rewrite !forallb_forall. intros H c Hc.
  apply H. now apply in_rev.
Qed.

(** A colon-free prefix is delimited by the first colon. *)
Lemma split_first_colon a a' x x' :
  no_colon a = true -> no_colon a' = true ->
  a ++ COLON :: x = a' ++ COLON :: x' -> a = a' /\ x = x'.
Proof.
  revert a'. induction a as [|c a IH]; intros [|c' a'] Ha Ha' E; simpl in E.
  - injection E as ->. auto.
  - injection E as E1 E2. apply no_colon_cons in Ha' as [Hc _]. congruence.
  - injection E as E1 E2. apply no_colon_cons in Ha as [Hc _]. congruence.
  - injection E as -> E. apply no_colon_cons in Ha as [_ Ha].
    apply no_colon_cons in Ha' as [_ Ha'].
    destruct (IH a' Ha Ha' E) as [-> ->]. auto.
Qed.

(** A colon-free suffix is delimited by the last colon. *)
Lemma split_last_colon x x' v v' :
  no_colon v = true -> no_colon v' = true ->
  x ++ COLON :: v = x' ++ COLON :: v' -> x = x' /\ v = v'.
Proof.
  intros Hv Hv' E. apply (f_equal (@rev ascii)) in E.
  rewrite !rev_app_distr in E. simpl in E. rewrite <- !app_assoc in E.
  simpl in E.
  apply split_first_colon in E; auto using no_colon_rev.
  destruct E as [E1 E2].
  apply (f_equal (@rev ascii)) in E1, E2. rewrite !rev_involutive in E1, E2.
  auto.
Qed.

Lemma category_value_no_colon c : no_colon (category_value c) = true.
Proof. destruct c; reflexivity. Qed.

Lemma category_value_inj c c' :
  category_value c = category_value c' -> c = c'.
Proof. destruct c, c'; intros E; (reflexivity || discriminate E). Qed.

Lemma category_eqb_eq c c' : category_eqb c c' = true <-> c = c'.
Proof.
  unfold category_eqb. rewrite StrFacts.streqb_eq. split.
  - apply category_value_inj.
  - now intros ->.
Qed.

Lemma key_triple_eqb_eq p q :
  key_triple_eqb p q = true <-> key_triple p = key_triple q.
Proof.
  unfold key_triple_eqb, key_triple.
  rewrite !andb_true_iff, !StrFacts.streqb_eq, category_eqb_eq.
  split.
  - intros [[-> ->] ->]. reflexivity.
  - intros E. injection E as -> -> ->. auto.
Qed.

Lemma hash_content_of_key p q :
  key_triple p = key_triple q -> hash_content p = hash_content q.
Proof.
  unfold key_triple, hash_content. intros E. injection E as -> -> ->.
  reflexivity.
Qed.

Lemma pattern_hash_of_key p q :
  key_triple p = key_triple q -> pattern_hash p = pattern_hash q.
Proof.
  intros E. unfold pattern_hash. now rewrite (hash_content_of_key _ _ E).
Qed.

(** The category is always recoverable from the hashed text. *)
Lemma hash_content_category p q :
  hash_content p = hash_content q ->
  pattern_type p ++ COLON :: pattern_content p
    = pattern_type q ++ COLON :: pattern_content q
  /\ category p = category q.
Proof.
  unfold hash_content. intros E.
  change (pattern_type p ++ [COLON] ++ pattern_content p ++ [COLON]
            ++ category_value (category p))
    with (pattern_type p ++ COLON :: (pattern_content p
            ++ COLON :: category_value (category p))) in E.
  change (pattern_type q ++ [COLON] ++ pattern_content q ++ [COLON]
            ++ category_value (category q))
    with (pattern_type q ++ COLON :: (pattern_content q
            ++ COLON :: category_value (category q))) in E.
  rewrite !app_comm_cons, !app_assoc in E.
  apply split_last_colon in E; auto using category_value_no_colon.
  destruct E as [E1 E2]. split.
  - exact E1.
  - now apply category_value_inj.
Qed.

Lemma hash_content_inj p q :
  no_colon (pattern_type p) = true -> no_colon (pattern_type q) = true ->
  hash_content p = hash_content q -> key_triple p = key_triple q.
Proof.
  intros Hp Hq E. apply hash_content_category in E as [E1 E2].
  apply split_first_colon in E1 as [E1 E3]; auto.
  unfold key_triple. congruence.
Qed.

(** Same text under two rule ids: the hashed texts differ. *)
Lemma hash_content_rule_id p q :
  pattern_content p = pattern_content q ->
  pattern_type p <> pattern_type q ->
  hash_content p <> hash_content q.
Proof.
  intros Ec Nt E. apply hash_content_category in E as [E1 _].
  rewrite Ec in E1. apply app_inv_tail in E1. contradiction.
Qed.

End HashKey.

(** *** Digests are too few to tell all texts apart *)

Section Pigeonhole.

Lemma all_words_complete : forall n w,
  length w = n -> Forall (fun c => In c hex_digits) w -> In w (all_words n).
Proof.
  induction n as [|n IH]; intros w Hl Hw.
  - destruct w; [now left|discriminate].
  - destruct w as [|c w]; [discriminate|].
    inversion Hw as [|? ? Hc Hw']; subst.
    cbn [all_words]. apply in_flat_map. exists c. split; [exact Hc|].
    apply in_map. apply IH; [|exact Hw']. simpl in Hl. lia.
Qed.

Lemma hex_digit_in n : (n < 16)%N -> In (Md5.hex_digit n) hex_digits.
Proof.
  intros H.
  assert (K : forallb (fun k => existsb (chr_eqb (Md5.hex_digit k)) hex_digits)
                (map N.of_nat (seq 0 16)) = true) by (vm_compute; reflexivity).
  rewrite forallb_forall in K.
  specialize (K n). rewrite existsb_exists in K.
  destruct K as (c & Hc & E).
  - apply in_map_iff. exists (N.to_nat n). split; [lia|].
    apply in_seq. lia.
  - apply StrFacts.chr_eqb_eq in E. now subst.
Qed.

Lemma hex_byte_shape b :
  (b < 256)%N ->
  length (Md5.hex_byte b) = 2
  /\ Forall (fun c => In c hex_digits) (Md5.hex_byte b).
Proof.
  intros H. split; [reflexivity|]. unfold Md5.hex_byte.
  constructor; [|constructor; [|constructor]]; apply hex_digit_in.
  - apply N.Div0.div_lt_upper_bound. lia.
  - apply N.mod_upper_bound. lia.
Qed.

Lemma le_bytes_shape : forall k x,
  length (Md5.le_bytes k x) = k
  /\ Forall (fun b => (b < 256)%N) (Md5.le_bytes k x).
Proof.
  induction k as [|k IH]; intros x; cbn [Md5.le_bytes].
  - split; [reflexivity|constructor].
  - destruct (IH (N.shiftr x 8)) as [Hl Hf].
    split; [cbn [length]; now rewrite Hl|].
    constructor; [|exact Hf].
    change 255%N with (N.ones 8). rewrite N.land_ones.
    apply N.mod_upper_bound. discriminate.
Qed.

Lemma digest_shape msg :
  length (Md5.digest msg) = 16
  /\ Forall (fun b => (b < 256)%N) (Md5.digest msg).
Proof.
  unfold Md5.digest.
  destruct (Md5.blocks _ Md5.init (Md5.pad msg)) as [a b c d].
  destruct (le_bytes_shape 4 a) as [La Fa].
  destruct (le_bytes_shape 4 b) as [Lb Fb].
  destruct (le_bytes_shape 4 c) as [Lc Fc].
  destruct (le_bytes_shape 4 d) as [Ld Fd].
  split.
  - rewrite !length_app, La, Lb, Lc, Ld. reflexivity.
  - rewrite !Forall_app. auto.
Qed.

Lemma hex_bytes_shape : forall bs,
  Forall (fun b => (b < 256)%N) bs ->
  length (flat_map Md5.hex_byte bs) = 2 * length bs
  /\ Forall (fun c => In c hex_digits) (flat_map Md5.hex_byte bs).
Proof.
  induction bs as [|b bs IH]; intros H.
  - split; [reflexivity|constructor].
  - inversion H as [|? ? Hb Hbs]; subst.
    destruct (IH Hbs) as [Hl Hf].
    destruct (hex_byte_shape b Hb) as [Hl1 Hf1].
    cbn [flat_map]. split.
    + rewrite length_app, Hl, Hl1. simpl. lia.
    + apply Forall_app. auto.
Qed.

(** Every digest is one of the words of 32 hexadecimal digits. *)
Lemma hexdigest_in_words msg : In (Md5.hexdigest msg) (all_words 32).
Proof.
  destruct (digest_shape msg) as [Hl Hf].
  destruct (hex_bytes_shape _ Hf) as [Hl' Hf'].
  apply all_words_complete; [|exact Hf'].
  unfold Md5.hexdigest. rewrite Hl', Hl. reflexivity.
Qed.

(** A function into finitely many values is not injective on infinitely
    many arguments. *)
Lemma not_injective_into_finite (B : Type) (f : nat -> B) (values : list B) :
  (forall i, In (f i) values) -> ~ (forall i j, f i = f j -> i = j).
Proof.
  intros Hin Hinj.
  set (n := length values).
  assert (Hnd : NoDup (map f (seq 0 (S n)))).
  { apply NoDup_map_NoDup_ForallPairs; [|apply seq_NoDup].
    intros i j _ _. apply Hinj. }
  assert (Hincl : incl (map f (seq 0 (S n))) values).
  { intros b Hb. apply in_map_iff in Hb as (i & <- & _). apply Hin. }
  assert (Hle : length (map f (seq 0 (S n))) <= length values)
    by (apply NoDup_incl_length; assumption).
  rewrite length_map, length_seq in Hle. fold n in Hle. lia.
Qed.

Lemma thrown_text_inj i j : thrown_text i = thrown_text j -> i = j.
Proof.
  intros E. apply (f_equal (@length ascii)) in E.
  unfold thrown_text in E. rewrite !length_app, !repeat_length in E. lia.
Qed.

(** Among the occurrences of rule [error_throwing] there are two with
    different matched texts and the same pattern hash. *)
Lemma pattern_hash_collides :
  ~ (forall i j,
       pattern_hash (thrown i) = pattern_hash (thrown j) ->
       key_triple (thrown i) = key_triple (thrown j)).
Proof.
  intros H.
  apply (not_injective_into_finite _ (fun k => pattern_hash (thrown k))
           (all_words 32)).
  - intros i. apply hexdigest_in_words.
  - intros i j E. apply H in E. apply thrown_text_inj.
    unfold key_triple in E. cbn [thrown occurrence pattern_content] in E.
    congruence.
Qed.

Example thrown_is_extracted :
  map (fun p => (pattern_type p, pattern_content p, category p))
    (patterns_of_content (lit "src/a.ts") (lit "/repo/src/a.ts")
       (lit "typescript") (thrown_text 2))
  = [key_triple (thrown 2)].
Proof. vm_compute. reflexivity. Qed.

End Pigeonhole.

Example colon_hashes :
  pattern_hash colon_left = lit "ef3689f7f92b7ec623c63ff2d37e80c9"
  /\ pattern_hash colon_right = lit "ef3689f7f92b7ec623c63ff2d37e80c9".
Proof. split; vm_compute; reflexivity. Qed.

(** C2, as stated, fails: [colon_left] and [colon_right] have the same
    pattern hash although their (rule_id, matched_text, category) triples
    differ, so "equal hash iff equal triple" does not hold for every pair
    of occurrences. *)
Lemma pattern_hash_iff_key_fails :
  ~ (pattern_hash colon_left = pattern_hash colon_right
     <-> key_triple colon_left = key_triple colon_right).
Proof.
  intros [H _].
  assert (E : key_triple colon_left = key_triple colon_right).
  { apply H. vm_compute. reflexivity. }
  discriminate E.
Qed.

(** C2, amended: the pattern hash is the MD5 digest of the text
    [rule_id:matched_text:category], so occurrences with the same
    digested text have the same hash; for every pair of occurrences,
    equal triples give equal hashes, so occurrences differing only in
    file path or line numbers share a hash, and two occurrences with the
    same matched text and different rule ids never have the same digested
    text; and when neither rule id contains [':'] (as for every rule id
    of the registry) the digested texts are equal exactly when the
    triples are equal. *)
Theorem pattern_hash_key_identity (p q : CodePattern) :
  pattern_hash p
  = Md5.hexdigest
      (Md5.encode (pattern_type p ++ [COLON] ++ pattern_content p ++ [COLON]
                     ++ category_value (category p)))
  /\ (hash_content p = hash_content q -> pattern_hash p = pattern_hash q)
  /\ (key_triple p = key_triple q -> pattern_hash p = pattern_hash q)
  /\ (forall file ls le, pattern_hash (relocate p file ls le) = pattern_hash p)
  /\ (pattern_content p = pattern_content q ->
      pattern_type p <> pattern_type q ->
      hash_content p <> hash_content q)
  /\ (no_colon (pattern_type p) = true ->
      no_colon (pattern_type q) = true ->
      (hash_content p = hash_content q <-> key_triple p = key_triple q))
  /\ (forall rule_id rule,
        In (rule_id, rule) pattern_definitions -> no_colon rule_id = true).
Proof.
  split; [reflexivity|].
  split; [intros E; unfold pattern_hash; now rewrite E|].
  split; [apply pattern_hash_of_key|].
  split; [intros; apply pattern_hash_of_key; reflexivity|].
  split; [apply hash_content_rule_id|].
  split.
  - intros Hp Hq. split.
    + now apply hash_content_inj.
    + apply hash_content_of_key.
  - assert (F : forallb (fun e : str * pattern_def => no_colon (fst e))
                  pattern_definitions = true) by (vm_compute; reflexivity).
    intros rule_id rule H.
    exact (proj1 (forallb_forall _ _) F (rule_id, rule) H).
Qed.

Lemma pattern_hash_key_identity_witness :
  no_colon (pattern_type sync_read_a) = true
  /\ no_colon (pattern_type async_read_b) = true
  /\ (hash_content sync_read_a = hash_content async_read_b
      <-> key_triple sync_read_a = key_triple async_read_b)
  /\ pattern_hash (relocate sync_read_a (lit "src/b.ts") 7 7)
     = pattern_hash sync_read_a.
Proof.
  destruct (pattern_hash_key_identity sync_read_a async_read_b)
    as (_ & _ & _ & Hmove & _ & Hiff & _).
  split; [reflexivity|]. split; [reflexivity|].
  split; [apply Hiff; reflexivity|apply Hmove].
Defined.

(** ** Grouping *)

Section Grouping.

Lemma pattern_groups_snoc ps p :
  pattern_groups (ps ++ [p]) = group_step (pattern_groups ps) p.
Proof. unfold pattern_groups. now rewrite fold_left_app. Qed.

Lemma lookup_group_step gs p h :
  Dict.lookup h (group_step gs p) =
  if Str.eqb h (pattern_hash p) then
    Some match Dict.lookup h gs with
         | None => mkGroup p 1 [file_path p]
         | Some g => mkGroup (g_pattern g) (g_count g + 1)
                       (set_add (file_path p) (g_files g))
         end
  else Dict.lookup h gs.
Proof.
  unfold group_step.
  destruct (Str.eqb h (pattern_hash p)) eqn:E.
  - apply StrFacts.streqb_eq in E. subst h.
    rewrite !DictFacts.lookup_update_same.
    destruct (Dict.lookup (pattern_hash p) gs) as [g|] eqn:L.
    + rewrite L. reflexivity.
    + rewrite DictFacts.lookup_snoc, L, StrFacts.streqb_refl. reflexivity.
  - apply StrFacts.streqb_neq in E.
    rewrite !DictFacts.lookup_update_other by assumption.
    destruct (Dict.lookup (pattern_hash p) gs) as [g|] eqn:L;
      [reflexivity|].
    rewrite DictFacts.lookup_snoc.
    destruct (Dict.lookup h gs); [reflexivity|].
    apply StrFacts.streqb_neq in E. now rewrite E.
Qed.

Lemma find_snoc (A : Type) (f : A -> bool) l x :
  find f (l ++ [x]) =
  match find f l with
  | Some y => Some y
  | None => if f x then Some x else None
  end.
Proof.
  induction l as [|a l IH]; simpl; [reflexivity|].
  destruct (f a); auto.
Qed.

Lemma count_hash_snoc h ps p :
  count_hash h (ps ++ [p]) =
  count_hash h ps + (if Str.eqb (pattern_hash p) h then 1 else 0).
Proof.
  unfold count_hash. rewrite filter_app, length_app. simpl.
  destruct (Str.eqb (pattern_hash p) h); reflexivity.
Qed.

Lemma set_add_in x s f : In f (set_add x s) <-> f = x \/ In f s.
Proof.
  unfold set_add. destruct (existsb (Str.eqb x) s) eqn:E.
  - split; [tauto|]. intros [->|H]; [|exact H].
    apply existsb_exists in E as [y [Hy Ey]].
    apply StrFacts.streqb_eq in Ey. now subst.
  - rewrite in_app_iff. simpl. split; intros H; intuition auto.
Qed.

Lemma set_add_nodup x s : NoDup s -> NoDup (set_add x s).
Proof.
  intros H. unfold set_add. destruct (existsb (Str.eqb x) s) eqn:E; [exact H|].
  apply NoDup_app; auto.
  - constructor; [intros []|constructor].
  - intros a Ha [<-|[]].
    assert (existsb (Str.eqb x) s = true); [|congruence].
    apply existsb_exists. exists x. split; [exact Ha|].
    apply StrFacts.streqb_refl.
Qed.

(** What the grouping loop has stored under a hash [h] after [ps]. *)
Definition group_of (h : str) (ps : list CodePattern) (g : group) : Prop :=
  find (fun q => Str.eqb (pattern_hash q) h) ps = Some (g_pattern g)
  /\ g_count g = Z.of_nat (count_hash h ps)
  /\ NoDup (g_files g)
  /\ (forall f, In f (g_files g) <->
        exists q, In q ps /\ pattern_hash q = h /\ file_path q = f).

Lemma pattern_groups_by_hash ps h :
  match Dict.lookup h (pattern_groups ps) with
  | None => forall q, In q ps -> pattern_hash q <> h
  | Some g => group_of h ps g
  end.
Proof.
  induction ps as [|p ps IH] using rev_ind.
  - simpl. intros q [].
  - rewrite pattern_groups_snoc, lookup_group_step.
    destruct (Str.eqb h (pattern_hash p)) eqn:E.
    + apply StrFacts.streqb_eq in E. subst h.
      destruct (Dict.lookup (pattern_hash p) (pattern_groups ps)) as [g|].
      * destruct IH as (Hf & Hc & Hn & Hs). unfold group_of; simpl.
        rewrite find_snoc, Hf, count_hash_snoc, StrFacts.streqb_refl.
        repeat split.
        -- lia.
        -- now apply set_add_nodup.
        -- intros H. apply set_add_in in H as [->|H].
           ++ exists p. rewrite in_app_iff. simpl. auto.
           ++ apply Hs in H as (q & Hq & Hh & Hp). exists q.
              rewrite in_app_iff. auto.
        -- intros (q & Hq & Hh & Hp). apply set_add_in.
           apply in_app_iff in Hq as [Hq|[->|[]]]; [|now left].
           right. apply Hs. eauto.
      * unfold group_of; simpl.
        assert (F : find (fun q => Str.eqb (pattern_hash q) (pattern_hash p))
                      ps = None).
        { destruct (find _ ps) as [q|] eqn:Fq; [|reflexivity].
          apply find_some in Fq as [Hq Eq].
          apply StrFacts.streqb_eq in Eq. now apply IH in Hq. }
        assert (C : count_hash (pattern_hash p) ps = 0).
        { unfold count_hash.
          destruct (filter _ ps) as [|q l] eqn:Fq; [reflexivity|].
          assert (Hq : In q (q :: l)) by now left.
          rewrite <- Fq in Hq. apply filter_In in Hq as [Hq Eq].
          apply StrFacts.streqb_eq in Eq. now apply IH in Hq. }
        rewrite find_snoc, F, count_hash_snoc, C, StrFacts.streqb_refl.
        repeat split.
        -- constructor; [intros []|constructor].
        -- intros [<-|[]]. exists p. rewrite in_app_iff. simpl. auto.
        -- intros (q & Hq & Hh & Hp).
           apply in_app_iff in Hq as [Hq|[->|[]]]; [|now left].
           now apply IH in Hq.
    + assert (E' : Str.eqb (pattern_hash p) h = false).
      { apply StrFacts.streqb_neq. apply StrFacts.streqb_neq in E. congruence. }
      destruct (Dict.lookup h (pattern_groups ps)) as [g|].
      * destruct IH as (Hf & Hc & Hn & Hs). unfold group_of.
        rewrite find_snoc, Hf, count_hash_snoc, E'.
        repeat split; auto.
        -- lia.
        -- intros H. apply Hs in H as (q & Hq & Hh & Hp). exists q.
           rewrite in_app_iff. auto.
        -- intros (q & Hq & Hh & Hp). apply Hs.
           apply in_app_iff in Hq as [Hq|[->|[]]]; [eauto|].
           apply StrFacts.streqb_neq in E'. contradiction.
      * intros q Hq. apply in_app_iff in Hq as [Hq|[->|[]]]; [auto|].
        now apply StrFacts.streqb_neq.
Qed.

Lemma group_files_le_count h ps g :
  group_of h ps g -> (Z.of_nat (length (g_files g)) <= g_count g)%Z.
Proof.
  intros (_ & Hc & Hn & Hs). rewrite Hc. apply inj_le.
  unfold count_hash.
  rewrite <- (length_map file_path
                (filter (fun q => Str.eqb (pattern_hash q) h) ps)).
  apply NoDup_incl_length; [exact Hn|].
  intros f Hf. apply Hs in Hf as (q & Hq & Hh & Hp).
  apply in_map_iff. exists q. split; [exact Hp|].
  apply filter_In. split; [exact Hq|]. now apply StrFacts.streqb_eq.
Qed.

Lemma collision_free_spec ps :
  collision_free ps = true ->
  forall p q, In p ps -> In q ps ->
    (pattern_hash q = pattern_hash p <-> key_triple q = key_triple p).
Proof.
  unfold collision_free. rewrite forallb_forall. intros H p q Hp Hq.
  split; [|apply pattern_hash_of_key].
  intros E. specialize (H q Hq). rewrite forallb_forall in H.
  specialize (H p Hp). rewrite E, StrFacts.streqb_refl in H. simpl in H.
  now apply key_triple_eqb_eq.
Qed.

(** C1, as stated, fails: for the input [colon_left; colon_right] the
    group of their common hash has [usage_count = 2], while only one
    occurrence has the key of [colon_left]. *)
Lemma dedup_invariant_fails :
  ~ dedup_invariant [colon_left; colon_right].
Proof.
  intros H. destruct (H colon_left (or_introl eq_refl))
    as (g & Hl & Hc & _).
  vm_compute in Hl. injection Hl as <-. discriminate Hc.
Qed.

(** C1, amended: when no two occurrences of the input with different
    (rule_id, matched_text, category) triples have the same pattern hash,
    the group emitted for the hash of an occurrence [p] has [usage_count]
    equal to the number of occurrences with the triple of [p], its file
    set is exactly the set of distinct file paths among them (so it has at
    most [usage_count] elements), and its representative is the first
    occurrence with that hash in input order. *)
Theorem pattern_groups_dedup (ps : list CodePattern)
  (Hfree : collision_free ps = true) :
  dedup_invariant ps.
Proof.
  intros p Hp.
  pose proof (pattern_groups_by_hash ps (pattern_hash p)) as G.
  destruct (Dict.lookup (pattern_hash p) (pattern_groups ps)) as [g|].
  - exists g. split; [reflexivity|].
    pose proof (group_files_le_count _ _ _ G) as Hle.
    destruct G as (Hf & Hc & Hn & Hs).
    split; [|split; [exact Hn|split; [|split; [exact Hle|exact Hf]]]].
    + rewrite Hc. f_equal. unfold count_hash, count_key. f_equal.
      apply filter_ext_in. intros q Hq.
      pose proof (collision_free_spec ps Hfree p q Hp Hq) as [K1 K2].
      destruct (key_triple_eqb q p) eqn:E.
      * apply key_triple_eqb_eq in E. apply StrFacts.streqb_eq. auto.
      * apply StrFacts.streqb_neq. intros E'. apply K1 in E'.
        apply key_triple_eqb_eq in E'. congruence.
    + intros f. rewrite Hs. split; intros (q & Hq & Hh & Hfp); exists q;
        (split; [exact Hq|split; [|exact Hfp]]);
        now apply (collision_free_spec ps Hfree p q Hp Hq).
  - exfalso. now apply (G p Hp).
Qed.

Lemma pattern_groups_dedup_witness :
  collision_free three_sightings = true /\ dedup_invariant three_sightings.
Proof.
  split; [vm_compute; reflexivity|].
  apply (pattern_groups_dedup three_sightings). vm_compute. reflexivity.
Defined.

Example three_sightings_groups :
  map (fun kv => (pattern_type (g_pattern (snd kv)), g_count (snd kv),
                  g_files (snd kv)))
    (pattern_groups three_sightings)
  = [(lit "fs_sync_operations", 2%Z, [lit "src/a.ts"; lit "src/c.ts"]);
     (lit "fs_async_operations", 1%Z, [lit "src/b.ts"])].
Proof. vm_compute. reflexivity. Qed.

End Grouping.

(** ** Line numbers of a match *)

Section Lines.

Lemma match_len_le r prev rest n :
  Re.match_len r prev rest = Some n -> n <= length rest.
Proof.
  unfold Re.match_len.
  destruct (Re.run r (prev, rest)) as [|[p' rest'] l]; [discriminate|].
  intros H. injection H as <-. lia.
Qed.

Lemma iter_spans r : forall rest skip off prev s e,
  In (s, e) (Re.iter r skip off prev rest) ->
  off <= s /\ s <= e /\ e <= off + length rest.
Proof.
  induction rest as [|c rest IH]; intros skip off prev s e H.
  - destruct skip as [|k]; cbn [Re.iter] in H; [|contradiction].
    destruct (Re.match_len r prev []) as [n|] eqn:M; [|contradiction].
    destruct H as [H|[]]. injection H as <- <-.
    apply match_len_le in M. lia.
  - destruct skip as [|k]; cbn [Re.iter] in H.
    + destruct (Re.match_len r prev (c :: rest)) as [n|] eqn:M.
      * destruct H as [H|H].
        -- injection H as <- <-. apply match_len_le in M. lia.
        -- apply IH in H. simpl. lia.
      * apply IH in H. simpl. lia.
    + apply IH in H. simpl. lia.
Qed.

Lemma finditer_span r content s e :
  In (s, e) (Re.finditer r content) -> s <= e /\ e <= length content.
Proof.
  unfold Re.finditer. intros H. apply iter_spans in H. lia.
Qed.

Lemma count_nl_firstn_le content : forall s e,
  s <= e -> count_nl (firstn s content) <= count_nl (firstn e content).
Proof.
  induction content as [|c content IH]; intros s e H.
  - rewrite !firstn_nil. lia.
  - destruct s as [|s]; [simpl; lia|].
    destruct e as [|e]; [lia|]. simpl.
    specialize (IH s e). lia.
Qed.

Lemma after_newlines_0 s : after_newlines 0 s = Some 0.
Proof. destruct s; reflexivity. Qed.

Lemma after_newlines_before content : forall s,
  exists a, after_newlines (count_nl (firstn s content)) content = Some a
            /\ a <= s.
Proof.
  induction content as [|c content IH]; intros s.
  - rewrite firstn_nil. exists 0. simpl. split; [reflexivity|lia].
  - destruct s as [|s]; [exists 0; simpl; split; [reflexivity|lia]|].
    destruct (IH s) as (a & Ha & Hle).
    cbn [firstn count_nl].
    destruct (is_nl c) eqn:E.
    + cbn [Nat.add after_newlines]. rewrite E, Ha.
      exists (S a). simpl. split; [reflexivity|lia].
    + cbn [Nat.add].
      destruct (count_nl (firstn s content)) as [|k] eqn:K.
      * exists 0. split; [reflexivity|lia].
      * cbn [after_newlines]. rewrite E, Ha.
        exists (S a). simpl. split; [reflexivity|lia].
Qed.

Lemma after_newlines_after content : forall e,
  match after_newlines (S (count_nl (firstn e content))) content with
  | Some o => e < o
  | None => True
  end.
Proof.
  induction content as [|c content IH]; intros e.
  - rewrite firstn_nil. exact I.
  - destruct e as [|e].
    + cbn [firstn count_nl after_newlines].
      destruct (is_nl c).
      * rewrite after_newlines_0. cbn [option_map]. lia.
      * destruct (after_newlines 1 content); cbn [option_map]; [lia|exact I].
    + specialize (IH e). cbn [firstn count_nl].
      destruct (is_nl c) eqn:E; cbn [Nat.add after_newlines]; rewrite E;
        destruct (after_newlines (S (count_nl (firstn e content))) content);
        cbn [option_map]; (lia || exact I).
Qed.

Lemma substring_split content a m b :
  a <= m -> m <= b ->
  substring content a b = substring content a m ++ substring content m b.
Proof.
  unfold substring. intros H1 H2.
  replace (b - a) with ((m - a) + (b - m)) by lia.
  replace (skipn m content) with (skipn (m - a) (skipn a content)).
  - generalize (skipn a content) as l. generalize (m - a) as n.
    induction n as [|n IH]; intros l; [reflexivity|].
    destruct l as [|x l]; simpl.
    + now rewrite firstn_nil.
    + now rewrite IH.
  - rewrite skipn_skipn. f_equal. lia.
Qed.

(** Where a span lies among the newline-delimited lines of a text. *)
Lemma span_lines content s e :
  s <= e -> e <= length content ->
  let ls := line_number content s in
  let le := line_number content e in
  (1 <= ls)%Z /\ (ls <= le)%Z
  /\ exists a, line_begin content ls = Some a
       /\ a <= s /\ e <= line_finish content le
       /\ substring content a (line_finish content le)
          = substring content a s ++ substring content s e
            ++ substring content e (line_finish content le).
Proof.
  intros Hse Hlen ls le. subst ls le. unfold line_number.
  pose proof (count_nl_firstn_le content s e Hse) as Hc.
  split; [lia|]. split; [lia|].
  destruct (after_newlines_before content s) as (a & Ha & Hle).
  assert (Hfin : e <= line_finish content
                        (Z.of_nat (count_nl (firstn e content)) + 1)).
  { unfold line_finish, finish_after.
    replace (Z.to_nat (Z.of_nat (count_nl (firstn e content)) + 1 - 1))
      with (count_nl (firstn e content)) by lia.
    pose proof (after_newlines_after content e) as H.
    destruct (after_newlines (S (count_nl (firstn e content))) content);
      lia. }
  exists a. unfold line_begin.
  replace (Z.to_nat (Z.of_nat (count_nl (firstn s content)) + 1 - 1))
    with (count_nl (firstn s content)) by lia.
  split; [exact Ha|]. split; [exact Hle|]. split; [exact Hfin|].
  rewrite (substring_split content a s _) by lia.
  f_equal. apply substring_split; lia.
Qed.

Lemma lstrip_suffix s : exists x, s = x ++ lstrip s.
Proof.
  induction s as [|c s [x IH]]; [now exists []|].
  simpl. destruct (is_space c).
  - exists (c :: x). simpl. now f_equal.
  - now exists [].
Qed.

Lemma strip_inside s : exists x y, s = x ++ strip s ++ y.
Proof.
  destruct (lstrip_suffix s) as [x Hx].
  destruct (lstrip_suffix (rev (lstrip s))) as [y Hy].
  exists x, (rev y). unfold strip, rstrip.
  rewrite <- rev_app_distr, <- Hy, rev_involutive. exact Hx.
Qed.

(** C3: for every rule of the registry and every match [(s, e)] of its
    pattern in a text, the occurrence built for the match has
    [line_start = 1 +] the number of newlines before offset [s] and
    [line_end = 1 +] the number of newlines before offset [e]; so
    [1 <= line_start <= line_end], and the text from the start of line
    [line_start] to the end of line [line_end] contains the match, and
    the stored (trimmed) matched text, in full. *)
Theorem match_line_numbers (content : str) (s e : nat)
  (pattern_name : str) (pattern_def : pattern_def)
  (relative_path language : str) (framework : option str)
  (Hrule : In (pattern_name, pattern_def) pattern_definitions)
  (Hmatch : In (s, e) (Re.finditer (rule_regex pattern_def) content)) :
  let p := build_pattern pattern_name pattern_def relative_path language
             framework content (splitlines content) (s, e) in
  line_start p = (1 + Z.of_nat (count_nl (firstn s content)))%Z
  /\ line_end p = (1 + Z.of_nat (count_nl (firstn e content)))%Z
  /\ (1 <= line_start p)%Z
  /\ (line_start p <= line_end p)%Z
  /\ exists a,
       line_begin content (line_start p) = Some a
       /\ a <= s /\ s <= e /\ e <= line_finish content (line_end p)
       /\ substring content a (line_finish content (line_end p))
          = substring content a s ++ substring content s e
            ++ substring content e (line_finish content (line_end p))
       /\ exists x y,
            substring content a (line_finish content (line_end p))
            = x ++ pattern_content p ++ y.
Proof.
  apply finditer_span in Hmatch as [Hse Hlen].
  destruct (span_lines content s e Hse Hlen)
    as (H1 & H2 & a & Ha & Has & Heb & Hsub).
  cbn [build_pattern line_start line_end pattern_content].
  unfold line_number in *.
  split; [lia|]. split; [lia|]. split; [exact H1|]. split; [exact H2|].
  exists a. repeat split; auto.
  destruct (strip_inside (substring content s e)) as (x & y & Hxy).
  rewrite Hsub.
  exists (substring content a s ++ x),
         (y ++ substring content e
                 (line_finish content
                    (Z.of_nat (count_nl (firstn e content)) + 1))).
  rewrite Hxy at 1. now rewrite <- !app_assoc.
Qed.

Lemma match_line_numbers_witness :
  In (14, 29) (Re.finditer Rules.fs_sync_operations seven_lines)
  /\ line_start sync_in_seven_lines = 4%Z
  /\ line_end sync_in_seven_lines = 4%Z
  /\ (line_start sync_in_seven_lines <= line_end sync_in_seven_lines)%Z.
Proof.
  assert (Hrule : In (lit "fs_sync_operations", sync_rule)
                     pattern_definitions) by (left; reflexivity).
  assert (Hmatch : In (14, 29)
                     (Re.finditer (rule_regex sync_rule) seven_lines))
    by (vm_compute; left; reflexivity).
  split; [exact Hmatch|].
  destruct (match_line_numbers seven_lines 14 29 (lit "fs_sync_operations")
              sync_rule (lit "src/a.ts") (lit "typescript") None
              Hrule Hmatch) as (_ & _ & _ & H & _).
  split; [reflexivity|]. split; [reflexivity|]. exact H.
Defined.

End Lines.

(** ** Context lines of a match *)

Section Context.

Lemma slice_nonneg (A : Type) (l : list A) a b :
  (0 <= a)%Z -> (0 <= b)%Z ->
  slice l a b = skipn (Z.to_nat a) (firstn (Z.to_nat b) l).
Proof.
  intros Ha Hb. unfold slice, slice_bound.
  destruct (a <? 0)%Z eqn:Ea; [apply Z.ltb_lt in Ea; lia|].
  destruct (b <? 0)%Z eqn:Eb; [apply Z.ltb_lt in Eb; lia|].
  rewrite skipn_firstn_comm.
  set (len := length l).
  destruct (Nat.le_gt_cases len (Z.to_nat a)) as [Hlen|Hlen].
  - rewrite (skipn_all2 l) by (fold len; lia).
    rewrite (skipn_all2 l) by (fold len; lia).
    now rewrite !firstn_nil.
  - replace (Z.to_nat (Z.min a (Z.of_nat len))) with (Z.to_nat a) by lia.
    destruct (Nat.le_gt_cases (Z.to_nat b) len) as [Hb'|Hb'].
    + f_equal. lia.
    + rewrite !firstn_all2; [reflexivity| |];
        rewrite length_skipn; fold len; lia.
Qed.

Lemma context_before_preceding lines ls :
  (1 <= ls)%Z -> context_before_lines lines ls = preceding 2 lines ls.
Proof.
  intros H. unfold context_before_lines, preceding.
  rewrite slice_nonneg by lia. f_equal. lia.
Qed.

Lemma context_after_following lines le :
  (0 <= le)%Z -> context_after_lines lines le = following 2 lines le.
Proof.
  intros H. unfold context_after_lines, following.
  rewrite slice_nonneg by lia. rewrite skipn_firstn_comm.
  set (len := length lines).
  destruct (Z.le_gt_cases (le + 2) (Z.of_nat len)) as [Hl|Hl].
  - f_equal. lia.
  - rewrite !firstn_all2; [reflexivity| |];
      rewrite length_skipn; fold len; lia.
Qed.

Lemma after_newlines_pos k s o : after_newlines (S k) s = Some o -> 1 <= o.
Proof.
  destruct s as [|c s]; [discriminate|]. cbn [after_newlines].
  destruct (if is_nl c then after_newlines k s else after_newlines (S k) s);
    cbn [option_map]; [|discriminate].
  intros H. injection H as <-. lia.
Qed.

Lemma substring_cons c s a b :
  substring (c :: s) (S a) (S b) = substring s a b.
Proof. reflexivity. Qed.

Lemma substring_cons_0 c s b :
  substring (c :: s) 0 (S b) = c :: substring s 0 b.
Proof. unfold substring. simpl. now rewrite Nat.sub_0_r. Qed.

Lemma finish_after_cons_nl c s k :
  is_nl c = true -> finish_after (S k) (c :: s) = S (finish_after k s).
Proof.
  intros E. unfold finish_after. cbn [after_newlines]. rewrite E.
  destruct (after_newlines (S k) s) as [o|] eqn:A; cbn [option_map length].
  - apply after_newlines_pos in A. lia.
  - reflexivity.
Qed.

Lemma finish_after_cons_other c s k :
  is_nl c = false -> finish_after k (c :: s) = S (finish_after k s).
Proof.
  intros E. unfold finish_after. cbn [after_newlines]. rewrite E.
  destruct (after_newlines (S k) s) as [o|] eqn:A; cbn [option_map length].
  - apply after_newlines_pos in A. lia.
  - reflexivity.
Qed.

Lemma is_nl_linebreak c : is_nl c = true -> is_linebreak c = true.
Proof.
  intros E. apply StrFacts.chr_eqb_eq in E. subst c. reflexivity.
Qed.

Lemma is_nl_not_cr c : is_nl c = true -> chr_eqb c CR = false.
Proof.
  intros E. apply StrFacts.chr_eqb_eq in E. subst c. reflexivity.
Qed.

(** When newlines are the only line boundaries of a text, the entries of
    [splitlines] are its newline-delimited lines. *)
Lemma splitlines_newline_lines : forall content k a,
  only_newlines content = true ->
  after_newlines k content = Some a -> a < length content ->
  nth_error (splitlines content) k
  = Some (substring content a (finish_after k content)).
Proof.
  induction content as [|c t IH]; intros k a Hnl Ha Hlt;
    [simpl in Hlt; lia|].
  unfold only_newlines in Hnl. cbn [forallb] in Hnl.
  apply andb_true_iff in Hnl as [Hc Ht]. fold (only_newlines t) in Ht.
  cbn [splitlines].
  destruct (is_nl c) eqn:E.
  - rewrite (is_nl_linebreak c E), (is_nl_not_cr c E). cbn [andb].
    match goal with
    | |- nth_error ([] :: ?m) _ = _ =>
        replace m with (splitlines t) by (destruct t; reflexivity)
    end.
    destruct k as [|k].
    + cbn [after_newlines] in Ha. injection Ha as <-.
      cbn [nth_error]. unfold finish_after. cbn [after_newlines].
      rewrite E, after_newlines_0. reflexivity.
    + cbn [after_newlines] in Ha. rewrite E in Ha.
      destruct (after_newlines k t) as [a'|] eqn:A; [|discriminate].
      cbn [option_map] in Ha. injection Ha as <-.
      cbn [nth_error length] in *.
      rewrite (IH k a' Ht A) by lia.
      rewrite (finish_after_cons_nl c t k E). reflexivity.
  - destruct (is_linebreak c) eqn:L; [discriminate Hc|].
    destruct k as [|k].
    + cbn [after_newlines] in Ha. injection Ha as <-.
      rewrite (finish_after_cons_other c t 0 E), substring_cons_0.
      destruct t as [|c' t'].
      * reflexivity.
      * pose proof (IH 0 0 Ht (after_newlines_0 _)) as H.
        cbn [length] in H. specialize (H ltac:(lia)).
        destruct (splitlines (c' :: t')) as [|l ls]; [discriminate H|].
        cbn [nth_error] in *. injection H as ->. reflexivity.
    + cbn [after_newlines] in Ha. rewrite E in Ha.
      destruct (after_newlines (S k) t) as [a'|] eqn:A; [|discriminate].
      cbn [option_map] in Ha. injection Ha as <-.
      cbn [length] in Hlt.
      pose proof (IH (S k) a' Ht A ltac:(lia)) as H.
      rewrite (finish_after_cons_other c t (S k) E), substring_cons.
      destruct (splitlines t) as [|l ls]; [discriminate H|].
      exact H.
Qed.

(** C5, as stated, fails: for the call on line 4 of [seven_lines] the
    context before the match is ["two\nthree"], the two lines before line
    4, not the three lines before it; and for the call on line 2 of
    [form_feed_text], a text with a line boundary of [splitlines] that is
    not a newline, the context after the match is not the lines that
    follow line 2. *)
Lemma context_before_three_lines_fails :
  context_before sync_in_seven_lines
  <> join [NL] (preceding 3 (splitlines seven_lines)
                  (line_start sync_in_seven_lines))
  /\ context_after sync_after_form_feed
     <> join [NL] (two_lines form_feed_text
                     (line_end sync_after_form_feed + 1)).
Proof. split; vm_compute; discriminate. Qed.

(** When newlines are the only line boundaries of a text, [splitlines]
    has no entry for a line that the text does not have. *)
Lemma splitlines_newline_count : forall content k,
  only_newlines content = true ->
  match after_newlines k content with
  | Some a => length content <= a
  | None => True
  end ->
  length (splitlines content) <= k.
Proof.
  induction content as [|c t IH]; intros k Hnl Hk; [simpl; lia|].
  unfold only_newlines in Hnl. cbn [forallb] in Hnl.
  apply andb_true_iff in Hnl as [Hc Ht]. fold (only_newlines t) in Ht.
  cbn [splitlines].
  destruct (is_nl c) eqn:E.
  - rewrite (is_nl_linebreak c E), (is_nl_not_cr c E). cbn [andb].
    match goal with
    | |- length ([] :: ?m) <= _ =>
        replace m with (splitlines t) by (destruct t; reflexivity)
    end.
    destruct k as [|k]; [cbn in Hk; lia|].
    cbn [after_newlines] in Hk. rewrite E in Hk.
    cbn [length]. apply le_n_S. apply IH; [exact Ht|].
    destruct (after_newlines k t); cbn [option_map length] in *; [lia|exact I].
  - destruct (is_linebreak c) eqn:L; [discriminate Hc|].
    destruct k as [|k]; [cbn in Hk; lia|].
    cbn [after_newlines] in Hk. rewrite E in Hk.
    assert (H : length (splitlines t) <= S k).
    { apply IH; [exact Ht|].
      destruct (after_newlines (S k) t); cbn [option_map length] in *;
        [lia|exact I]. }
    destruct (splitlines t) as [|l ls]; cbn [length] in *; lia.
Qed.

(** When newlines are the only line boundaries of a text, the entries of
    [splitlines] are exactly its lines. *)
Lemma splitlines_text_line content line :
  only_newlines content = true -> (1 <= line)%Z ->
  nth_error (splitlines content) (Z.to_nat (line - 1))
  = text_line content line.
Proof.
  intros Hnl Hl. unfold text_line.
  destruct (line <? 1)%Z eqn:E; [apply Z.ltb_lt in E; lia|].
  unfold line_begin, line_finish.
  destruct (after_newlines (Z.to_nat (line - 1)) content) as [a|] eqn:A.
  - destruct (a <? length content) eqn:Lt.
    + apply Nat.ltb_lt in Lt. now apply splitlines_newline_lines.
    + apply Nat.ltb_ge in Lt. apply nth_error_None.
      apply splitlines_newline_count; [exact Hnl|]. now rewrite A.
  - apply nth_error_None.
    apply splitlines_newline_count; [exact Hnl|]. now rewrite A.
Qed.

Lemma two_before (A : Type) : forall j (l : list A),
  skipn j (firstn (S (S j)) l)
  = flat_map (fun o => match o with Some x => [x] | None => [] end)
      [nth_error l j; nth_error l (S j)].
Proof.
  induction j as [|j IH]; intros l.
  - destruct l as [|a [|b l]]; reflexivity.
  - destruct l as [|a l]; [reflexivity|].
    cbn [firstn skipn nth_error]. apply IH.
Qed.

Lemma two_after (A : Type) : forall j (l : list A),
  firstn 2 (skipn j l)
  = flat_map (fun o => match o with Some x => [x] | None => [] end)
      [nth_error l j; nth_error l (S j)].
Proof.
  induction j as [|j IH]; intros l.
  - destruct l as [|a [|b l]]; reflexivity.
  - destruct l as [|a l]; [reflexivity|].
    cbn [skipn nth_error]. apply IH.
Qed.

(** Outside the texts of C5, amended: the form feed is a line boundary
    for [splitlines] and not for the line numbers, so for the call on
    line 2 of [form_feed_text] the context after the match begins with
    the line of the match itself, and the context before it is not the
    line before it. *)
Example context_after_form_feed :
  In (9, 24) (Re.finditer Rules.fs_sync_operations form_feed_text)
  /\ only_newlines form_feed_text = false
  /\ line_start sync_after_form_feed = 2%Z
  /\ line_end sync_after_form_feed = 2%Z
  /\ context_before sync_after_form_feed = lit "one"
  /\ context_after sync_after_form_feed
     = lit "fs.readFileSync(p)" ++ [NL] ++ lit "three"
  /\ two_lines form_feed_text 0 = [lit "one" ++ [FF] ++ lit "more"]
  /\ two_lines form_feed_text 3 = [lit "three"].
Proof.
  split; [vm_compute; left; reflexivity|].
  repeat split; vm_compute; reflexivity.
Qed.

(** C5, amended: for every match in a file whose only line boundaries are
    newlines, [context_before] is exactly the 2 lines immediately
    preceding [line_start] (fewer at the start of the file) joined by
    newlines, and [context_after] is exactly the 2 lines immediately
    following [line_end] (fewer at the end of the file) joined by
    newlines. *)
Theorem match_context (content : str) (s e : nat)
  (pattern_name : str) (pattern_def : pattern_def)
  (relative_path language : str) (framework : option str)
  (Hrule : In (pattern_name, pattern_def) pattern_definitions)
  (Hmatch : In (s, e) (Re.finditer (rule_regex pattern_def) content))
  (Hlines : only_newlines content = true) :
  let p := build_pattern pattern_name pattern_def relative_path language
             framework content (splitlines content) (s, e) in
  context_before p = join [NL] (two_lines content (line_start p - 2))
  /\ context_after p = join [NL] (two_lines content (line_end p + 1)).
Proof.
  cbn [build_pattern context_before context_after line_start line_end].
  unfold line_number.
  set (ls := Z.of_nat (count_nl (firstn s content))).
  set (le := Z.of_nat (count_nl (firstn e content))).
  assert (Hls : (0 <= ls)%Z) by (unfold ls; lia).
  assert (Hle : (0 <= le)%Z) by (unfold le; lia).
  split.
  - rewrite context_before_preceding by lia. f_equal.
    unfold preceding, two_lines, present. cbv zeta.
    replace (ls + 1 - 2 + 1)%Z with ls by lia.
    replace (Z.to_nat (ls + 1 - 1)) with (Z.to_nat ls) by lia.
    destruct (Z.to_nat ls) as [|[|j]] eqn:J.
    + assert (ls = 0)%Z by lia. subst ls. rewrite H. reflexivity.
    + assert (H : ls = 1%Z) by lia. rewrite H.
      rewrite <- (splitlines_text_line content 1 Hlines) by lia.
      change (text_line content (1 + 1 - 2)) with (@None str).
      cbn [Z.sub Z.to_nat Pos.to_nat Pos.iter_op Nat.sub skipn flat_map app].
      change (Z.to_nat (1 - 1)) with 0.
      destruct (splitlines content) as [|a l]; reflexivity.
    + assert (H : ls = Z.of_nat (S (S j))) by lia.
      rewrite <- (splitlines_text_line content (ls + 1 - 2) Hlines) by lia.
      rewrite <- (splitlines_text_line content ls Hlines) by lia.
      replace (Z.to_nat (ls + 1 - 2 - 1)) with j by lia.
      replace (Z.to_nat (ls - 1)) with (S j) by lia.
      replace (S (S j) - 2) with j by lia.
      apply two_before.
  - rewrite context_after_following by lia. f_equal.
    unfold following, two_lines, present.
    rewrite <- (splitlines_text_line content (le + 1 + 1) Hlines) by lia.
    rewrite <- (splitlines_text_line content (le + 1 + 1 + 1) Hlines) by lia.
    replace (Z.to_nat (le + 1 + 1 - 1)) with (Z.to_nat (le + 1)) by lia.
    replace (Z.to_nat (le + 1 + 1 + 1 - 1)) with (S (Z.to_nat (le + 1)))
      by lia.
    apply two_after.
Qed.

Lemma match_context_witness :
  In (14, 29) (Re.finditer Rules.fs_sync_operations seven_lines)
  /\ only_newlines seven_lines = true
  /\ two_lines seven_lines 2 = [lit "two"; lit "three"]
  /\ two_lines seven_lines 5 = [lit "five"; lit "six"]
  /\ context_before sync_in_seven_lines
     = join [NL] (two_lines seven_lines (line_start sync_in_seven_lines - 2))
  /\ context_after sync_in_seven_lines
     = join [NL] (two_lines seven_lines (line_end sync_in_seven_lines + 1)).
Proof.
  assert (Hrule : In (lit "fs_sync_operations", sync_rule)
                     pattern_definitions) by (left; reflexivity).
  assert (Hmatch : In (14, 29)
                     (Re.finditer (rule_regex sync_rule) seven_lines))
    by (vm_compute; left; reflexivity).
  assert (Hlines : only_newlines seven_lines = true)
    by (vm_compute; reflexivity).
  split; [exact Hmatch|]. split; [exact Hlines|].
  split; [vm_compute; reflexivity|]. split; [vm_compute; reflexivity|].
  exact (match_context seven_lines 14 29 (lit "fs_sync_operations")
           sync_rule (lit "src/a.ts") (lit "typescript") None
           Hrule Hmatch Hlines).
Defined.

End Context.

(** ** The report *)

Section Report.

Lemma total_set k v (d : Dict.t Z) :
  total (Dict.set k v d)
  = (total d - match Dict.lookup k d with Some n => n | None => 0 end + v)%Z.
Proof.
  induction d as [|[k' n] d IH]; simpl.
  - lia.
  - destruct (Str.eqb k k'); simpl; lia.
Qed.

Lemma total_bump k (d : Dict.t Z) : total (bump k d) = (total d + 1)%Z.
Proof. unfold bump. rewrite total_set. lia. Qed.

Lemma severity_counts_total ps : forall c,
  total (severity_counts (fold_left count_pattern ps c))
  = (total (severity_counts c) + Z.of_nat (length ps))%Z.
Proof.
  induction ps as [|p ps IH]; intros c; simpl fold_left.
  - simpl. lia.
  - rewrite IH. cbn [count_pattern severity_counts length].
    rewrite total_bump. lia.
Qed.

(** The severity counts of a report add up to the number of occurrences. *)
Lemma report_severity_total env path ps r :
  generate_pattern_report env path ps = Some r ->
  total (severity_breakdown r) = total_patterns r.
Proof.
  destruct ps as [|p ps]; [discriminate|].
  intros H. injection H as <-.
  cbn [severity_breakdown total_patterns]. unfold count_patterns.
  rewrite severity_counts_total. reflexivity.
Qed.

(** C4, on the code: the report names every tier one step too high.  The
    score of a LOW rule (0.3) is counted as ["medium"], MEDIUM (0.6) as
    ["high"], HIGH (0.9) as ["critical"]; a file with one [await] gives a
    report whose severity breakdown is [{"medium": 1}]. *)
Theorem report_severity_tiers :
  severity_of_score (severity_value LOW) = lit "medium"
  /\ severity_of_score (severity_value MEDIUM) = lit "high"
  /\ severity_of_score (severity_value HIGH) = lit "critical"
  /\ severity_of_score (severity_value CRITICAL) = lit "critical"
  /\ map (fun p => (pattern_type p, confidence_score p)) await_file
     = [(lit "await_usage", severity_value LOW)]
  /\ option_map severity_breakdown
       (generate_pattern_report fixed_clock (lit "/repo") await_file)
     = Some [(lit "medium", 1%Z)].
Proof. repeat split; vm_compute; reflexivity. Qed.

End Report.

(** ** Framework classification *)

Section Framework.

(** C6, as stated, fails: a content to which no content heuristic
    applies is classified as ["nodejs"], not left without a framework,
    when the path of its file has ["node"] in it. *)
Lemma no_heuristic_yet_nodejs :
  content_heuristic plain_content = false
  /\ _determine_framework plain_content (lit "/home/node/app/x.ts")
     = Some (lit "nodejs")
  /\ _determine_framework plain_content (lit "/home/node/app/x.ts") <> None.
Proof.
  split; [vm_compute; reflexivity|].
  split; [vm_compute; reflexivity|vm_compute; discriminate].
Qed.

(** C6, amended: the heuristics are tried in a fixed order and the first
    that applies decides: the import of react, then of vue, then of
    angular, then the calls of express, then the generic indicator (the
    path has ["node"] in it, or the content has [require(] or
    [module.exports]).  So a content with a UI-framework import that also
    matches the generic indicator is classified as the UI framework, and
    a content with the calls of express as ["express"] even when the
    generic indicator applies too; and when no content heuristic applies
    and the path has no ["node"] in it the result is [None]; it is never
    an empty text. *)
Theorem determine_framework_priority (content file_path : str) :
  let react := Re.search Rules.react_import content in
  let vue := Re.search Rules.vue_import content in
  let angular := Re.search Rules.angular_import content in
  let express := Re.search Rules.express_calls content in
  let generic := generic_indicator content file_path in
  let framework := _determine_framework content file_path in
  (react = true -> framework = Some (lit "react"))
  /\ (react = false -> vue = true -> framework = Some (lit "vue"))
  /\ (react = false -> vue = false -> angular = true ->
      framework = Some (lit "angular"))
  /\ (react = false -> vue = false -> angular = false -> express = true ->
      framework = Some (lit "express"))
  /\ (react = false -> vue = false -> angular = false -> express = false ->
      generic = true -> framework = Some (lit "nodejs"))
  /\ (react || vue || angular = true ->
      framework <> Some (lit "nodejs") /\ framework <> Some (lit "express"))
  /\ (content_heuristic content = false ->
      contains (lit "node") file_path = false ->
      framework = None)
  /\ (framework = None <->
      content_heuristic content = false
      /\ contains (lit "node") file_path = false)
  /\ framework <> Some [].
Proof.
  cbv zeta.
  unfold _determine_framework, content_heuristic, generic_indicator.
  destruct (Re.search Rules.react_import content);
    destruct (Re.search Rules.vue_import content);
    destruct (Re.search Rules.angular_import content);
    destruct (Re.search Rules.express_calls content);
    destruct (Re.search Rules.node_modules_system content);
    destruct (contains (lit "node") file_path);
    cbn [orb andb];
    repeat split; intros; try reflexivity; try discriminate;
    repeat match goal with
           | H : _ /\ _ |- _ => destruct H
           end; try discriminate.
Qed.

Lemma determine_framework_priority_witness :
  Re.search Rules.react_import react_and_require = true
  /\ generic_indicator react_and_require (lit "/repo/src/App.tsx") = true
  /\ _determine_framework react_and_require (lit "/repo/src/App.tsx")
     = Some (lit "react")
  /\ Re.search Rules.express_calls express_and_exports = true
  /\ generic_indicator express_and_exports (lit "/repo/node/server.js") = true
  /\ _determine_framework express_and_exports (lit "/repo/node/server.js")
     = Some (lit "express")
  /\ content_heuristic plain_content = false
  /\ contains (lit "node") (lit "/repo/src/x.ts") = false
  /\ _determine_framework plain_content (lit "/repo/src/x.ts") = None.
Proof.
  assert (H1 : Re.search Rules.react_import react_and_require = true)
    by (vm_compute; reflexivity).
  assert (H2 : content_heuristic plain_content = false)
    by (vm_compute; reflexivity).
  assert (H3 : contains (lit "node") (lit "/repo/src/x.ts") = false)
    by (vm_compute; reflexivity).
  assert (H4 : Re.search Rules.express_calls express_and_exports = true)
    by (vm_compute; reflexivity).
  split; [exact H1|]. split; [vm_compute; reflexivity|].
  split.
  { destruct (determine_framework_priority react_and_require
                (lit "/repo/src/App.tsx")) as (P & _).
    exact (P H1). }
  split; [exact H4|]. split; [vm_compute; reflexivity|].
  split.
  { destruct (determine_framework_priority express_and_exports
                (lit "/repo/node/server.js")) as (_ & _ & _ & P & _).
    apply P; [vm_compute; reflexivity ..|exact H4]. }
  split; [exact H2|]. split; [exact H3|].
  destruct (determine_framework_priority plain_content
              (lit "/repo/src/x.ts")) as (_ & _ & _ & _ & _ & _ & P & _).
  exact (P H2 H3).
Defined.

Example no_heuristic_no_framework :
  content_heuristic plain_content = false
  /\ _determine_framework plain_content (lit "/repo/src/x.ts") = None.
Proof. split; vm_compute; reflexivity. Qed.

(** C9, as stated, fails: the same content is classified as ["nodejs"]
    under a path that contains ["node"] and is not classified under a
    path that does not. *)
Lemma determine_framework_reads_path :
  _determine_framework plain_content (lit "/repo/node/x.ts")
  <> _determine_framework plain_content (lit "/repo/src/x.ts").
Proof. vm_compute. discriminate. Qed.

(** C9, amended: the classification depends on the content and on
    whether the path text contains ["node"], and on nothing else of the
    path: two files with identical content get the same framework tag
    when their paths both contain ["node"] or both do not, and also
    whenever one of the content heuristics applies. *)
Theorem determine_framework_path (content path1 path2 : str)
  (H : contains (lit "node") path1 = contains (lit "node") path2
       \/ content_heuristic content = true) :
  _determine_framework content path1 = _determine_framework content path2.
Proof.
  unfold _determine_framework, content_heuristic in *.
  destruct H as [H|H].
  - now rewrite H.
  - destruct (Re.search Rules.react_import content); [reflexivity|].
    destruct (Re.search Rules.vue_import content); [reflexivity|].
    destruct (Re.search Rules.angular_import content); [reflexivity|].
    destruct (Re.search Rules.express_calls content); [reflexivity|].
    cbn [orb] in H. rewrite H, !orb_true_r. reflexivity.
Qed.

Lemma determine_framework_path_witness :
  contains (lit "node") (lit "/repo/src/x.ts")
  = contains (lit "node") (lit "/repo/lib/y.ts")
  /\ _determine_framework react_and_require (lit "/repo/src/x.ts")
     = _determine_framework react_and_require (lit "/repo/lib/y.ts").
Proof.
  split; [reflexivity|].
  apply (determine_framework_path react_and_require
           (lit "/repo/src/x.ts") (lit "/repo/lib/y.ts")).
  left. reflexivity.
Defined.

End Framework.

(** ** The corpus walk *)

Section Walk.



(** The walk never raises. *)
Lemma extract_returns repo patterns :
  exists ps, extract_patterns_from_repository repo patterns = Returned ps.
Proof. eexists. reflexivity. Qed.




Example vendored_repo_is_empty :
  extract_patterns_from_repository vendored_repo [] = Returned [].
Proof. vm_compute. reflexivity. Qed.

Example small_repo_occurrences :
  match extract_patterns_from_repository small_repo [] with
  | Returned ps =>
      map (fun p => (pattern_type p, pattern_content p, file_path p,
                     line_start p, line_end p)) ps
  | Raised _ => []
  end
  = [(lit "fs_sync_operations", lit "fs.readFileSync", lit "src/a.ts",
      1%Z, 1%Z);
     (lit "fs_async_operations", lit "fs.readFile", lit "src/a.ts",
      1%Z, 1%Z)].
Proof. vm_compute. reflexivity. Qed.

End Walk.

(** ** Persistence *)

Section Persistence.

Variable env : clock.
Variable repository_id : str.

Lemma sql_cases op w :
  (faulty w = false
   /\ sql op w =
      (Returned tt,
       mkWorld (apply_op op (conn w)) (S (calls w)) (fault w)
         (log w ++ [op]) (history w ++ [committed (apply_op op (conn w))])))
  \/ (faulty w = true
      /\ sql op w =
         (Raised SqliteError,
          mkWorld (conn w) (S (calls w)) (fault w) (log w) (history w))).
Proof. unfold sql. destruct (faulty w); auto. Qed.

Lemma faulty_false_passed w k :
  faulty w = false -> fault w = Some k -> k < calls w \/ calls w + 1 <= k.
Proof.
  unfold faulty. intros F E. rewrite E in F.
  apply Nat.eqb_neq in F. lia.
Qed.

Lemma faulty_true_behind w :
  faulty w = true -> exists k, fault w = Some k /\ calls w = k.
Proof.
  unfold faulty. destruct (fault w) as [k|]; [|discriminate].
  intros F. apply Nat.eqb_eq in F. eauto.
Qed.

Lemma behind_not_faulty w : behind w -> faulty w = false.
Proof.
  intros (k & E & C). unfold faulty. rewrite E.
  apply Nat.eqb_neq. lia.
Qed.

Lemma committed_apply_op op c :
  op <> Commit -> committed (apply_op op c) = committed c.
Proof. destruct op; intros H; try reflexivity. contradiction. Qed.

Lemma sql_quiet db op w r w' :
  op <> Commit -> quiet db w -> sql op w = (r, w') -> quiet db w'.
Proof.
  intros Hop [Hc Hh] E.
  destruct (sql_cases op w) as [[_ E']|[_ E']]; rewrite E' in E;
    injection E as <- <-; split; cbn [conn history]; auto.
  - now rewrite committed_apply_op.
  - apply Forall_app. split; [exact Hh|].
    constructor; [|constructor]. now rewrite committed_apply_op.
Qed.

Lemma sql_returned op w u w' :
  sql op w = (Returned u, w') -> passed 1 w w'.
Proof.
  intros E. destruct (sql_cases op w) as [[F E']|[_ E']]; rewrite E' in E;
    [|discriminate].
  injection E as <- <-. unfold passed; cbn [calls fault].
  split; [lia|]. split; [reflexivity|].
  intros k. now apply faulty_false_passed.
Qed.

Lemma sql_raised op w e w' :
  sql op w = (Raised e, w') ->
  behind w' /\ conn w' = conn w /\ history w' = history w.
Proof.
  intros E. destruct (sql_cases op w) as [[_ E']|[F E']]; rewrite E' in E;
    [discriminate|].
  injection E as <- <-. split; [|split; reflexivity].
  apply faulty_true_behind in F as (k & Hk & Hc).
  exists k. cbn [fault calls]. split; [exact Hk|lia].
Qed.

Lemma passed_trans n m w1 w2 w3 :
  passed n w1 w2 -> passed m w2 w3 -> passed (n + m) w1 w3.
Proof.
  intros (C1 & F1 & K1) (C2 & F2 & K2). unfold passed.
  split; [lia|]. split; [congruence|].
  intros k Hk. specialize (K1 k Hk). rewrite <- F1 in Hk.
  specialize (K2 k Hk). lia.
Qed.

Ltac keep_quiet Q E :=
  eapply sql_quiet; [|exact Q|exact E]; discriminate.

Lemma for_each_inserts_quiet db : forall gs i w r w',
  quiet db w ->
  for_each gs (insert_group env repository_id) i w = (r, w') ->
  quiet db w'.
Proof.
  induction gs as [|g gs IH]; intros i w r w' Q E.
  - injection E as <- <-. exact Q.
  - cbn [for_each] in E. unfold bind in E.
    destruct (insert_group env repository_id i g w) as [[u|e] w1] eqn:E1.
    + apply (IH (S i) w1 r w'); [|exact E].
      keep_quiet Q E1.
    + injection E as <- <-.
      keep_quiet Q E1.
Qed.

Lemma for_each_inserts_returned : forall gs i w u w',
  for_each gs (insert_group env repository_id) i w = (Returned u, w') ->
  passed (length gs) w w'.
Proof.
  induction gs as [|g gs IH]; intros i w u w' E.
  - cbn [for_each] in E. unfold ret in E. injection E as _ <-.
    unfold passed. split; [simpl; lia|].
    split; [reflexivity|]. intros k _. simpl. lia.
  - cbn [for_each] in E. unfold bind in E.
    destruct (insert_group env repository_id i g w) as [[u1|e] w1] eqn:E1;
      [|discriminate].
    apply sql_returned in E1. apply IH in E.
    apply (passed_trans 1 (length gs) w w1 w' E1 E).
Qed.

Lemma for_each_inserts_raised : forall gs i w e w',
  for_each gs (insert_group env repository_id) i w = (Raised e, w') ->
  behind w'.
Proof.
  induction gs as [|g gs IH]; intros i w e w' E.
  - discriminate.
  - cbn [for_each] in E. unfold bind in E.
    destruct (insert_group env repository_id i g w) as [[u1|e1] w1] eqn:E1.
    + now apply IH in E.
    + injection E as <- <-. now apply sql_raised in E1 as [B _].
Qed.

(** The inserts of a run in which nothing raises. *)
Lemma for_each_inserts_no_fault : forall gs i w,
  fault w = None ->
  for_each gs (insert_group env repository_id) i w =
  (Returned tt,
   mkWorld
     (mkConn (committed (conn w))
        (match gs with
         | [] => pending (conn w)
         | _ :: _ => Some (current (conn w) ++ rows_from env repository_id i gs)
         end))
     (calls w + length gs) None
     (log w ++ map Insert (rows_from env repository_id i gs))
     (history w ++ map (fun _ => committed (conn w))
                     (rows_from env repository_id i gs))).
Proof.
  induction gs as [|[h g] gs IH]; intros i w F.
  - cbn [for_each rows_from map length]. unfold ret.
    rewrite !app_nil_r, Nat.add_0_r, <- F.
    destruct w as [[c p] n f l hs]. reflexivity.
  - cbn [for_each]. unfold bind, insert_group.
    destruct (sql_cases
                (Insert (row_of env repository_id i (fst (h, g)) (snd (h, g))))
                w) as [[_ E]|[Ft _]].
    + rewrite E. rewrite IH by exact F.
      cbn [conn calls log history apply_op committed pending current
           rows_from map length fst snd].
      f_equal. f_equal.
      * f_equal. destruct gs as [|g' gs'].
        -- cbn [rows_from pending]. reflexivity.
        -- now rewrite <- app_assoc.
      * lia.
      * now rewrite <- app_assoc.
      * now rewrite <- app_assoc.
    + unfold faulty in Ft. rewrite F in Ft. discriminate.
Qed.

Ltac simpl_world :=
  cbn [conn calls fault log history apply_op committed pending current app].

Lemma sql_no_fault op w :
  fault w = None ->
  sql op w =
  (Returned tt,
   mkWorld (apply_op op (conn w)) (S (calls w)) None
     (log w ++ [op]) (history w ++ [committed (apply_op op (conn w))])).
Proof.
  intros F. unfold sql, faulty. rewrite F. reflexivity.
Qed.

Lemma rows_from_length : forall gs i,
  length (rows_from env repository_id i gs) = length gs.
Proof.
  induction gs as [|[h g] gs IH]; intros i; simpl; [reflexivity|].
  now rewrite IH.
Qed.

Lemma rows_from_belong : forall gs i r,
  In r (rows_from env repository_id i gs) -> belongs repository_id r = true.
Proof.
  induction gs as [|[h g] gs IH]; intros i r; simpl; [intros []|].
  intros [<-|H]; [|now apply IH in H].
  unfold belongs. simpl. apply StrFacts.streqb_refl.
Qed.

Lemma filter_all (A : Type) (f : A -> bool) l :
  (forall x, In x l -> f x = true) -> filter f l = l.
Proof.
  induction l as [|a l IH]; intros H; simpl; [reflexivity|].
  rewrite (H a (or_introl eq_refl)). f_equal. apply IH.
  intros x Hx. apply H. now right.
Qed.

Lemma filter_none (A : Type) (f : A -> bool) l :
  (forall x, In x l -> f x = false) -> filter f l = [].
Proof.
  induction l as [|a l IH]; intros H; simpl; [reflexivity|].
  rewrite (H a (or_introl eq_refl)). apply IH.
  intros x Hx. apply H. now right.
Qed.

(** The table after a delete of the rows of [repository_id] and the
    insertion of rows of [repository_id]. *)
Lemma replaced_rows db rows :
  (forall r, In r rows -> belongs repository_id r = true) ->
  rows_for repository_id (rows_not_for repository_id db ++ rows) = rows
  /\ rows_not_for repository_id (rows_not_for repository_id db ++ rows)
     = rows_not_for repository_id db.
Proof.
  intros H. unfold rows_for, rows_not_for. rewrite !filter_app. split.
  - rewrite filter_none, filter_all; [reflexivity|exact H|].
    intros r Hr. apply filter_In in Hr as [_ Hr].
    now apply negb_true_iff in Hr.
  - rewrite (filter_none _ _ rows), app_nil_r.
    + apply filter_all. intros r Hr. now apply filter_In in Hr as [_ Hr].
    + intros r Hr. now rewrite (H r Hr).
Qed.

(** A run in which no call raises. *)
Lemma save_no_fault p ps db :
  let patterns := p :: ps in
  let rows := rows_of env repository_id patterns in
  let new := rows_not_for repository_id db ++ rows in
  save_patterns_to_database env patterns repository_id (start db None)
  = (Returned (Saved (length (pattern_groups patterns))),
     mkWorld (mkConn new None) (length rows + 4) None
       ([Connect; Delete repository_id] ++ map Insert rows ++ [Commit; Close])
       ([db; db] ++ map (fun _ => db) rows ++ [new; new])).
Proof.
  intros patterns rows new.
  unfold save_patterns_to_database. cbn [patterns].
  unfold start. rewrite sql_no_fault by reflexivity.
  simpl_world.
  unfold try_finally, try_except, save_body, bind.
  rewrite sql_no_fault by reflexivity.
  simpl_world.
  rewrite for_each_inserts_no_fault by reflexivity.
  simpl_world.
  rewrite sql_no_fault by reflexivity.
  simpl_world.
  unfold ret. rewrite sql_no_fault by reflexivity.
  simpl_world.
  fold patterns. fold (rows_of env repository_id patterns). fold rows.
  fold (rows_not_for repository_id db).
  match goal with
  | |- context [current ?c] => assert (Hcur : current c = new)
  end.
  { unfold current, new, rows, rows_of. cbn [pending].
    destruct (pattern_groups patterns); [|reflexivity].
    cbn [rows_from]. now rewrite app_nil_r. }
  rewrite Hcur. f_equal. f_equal.
  - unfold rows, rows_of. rewrite rows_from_length. lia.
  - rewrite <- !app_assoc. reflexivity.
  - rewrite <- !app_assoc. reflexivity.
Qed.

Lemma sql_behind op w :
  behind w ->
  sql op w =
  (Returned tt,
   mkWorld (apply_op op (conn w)) (S (calls w)) (fault w)
     (log w ++ [op]) (history w ++ [committed (apply_op op (conn w))])).
Proof.
  intros B. apply behind_not_faulty in B.
  destruct (sql_cases op w) as [[_ E]|[F _]]; [exact E|congruence].
Qed.

Lemma save_body_returned patterns w v w' :
  save_body env patterns repository_id w = (Returned v, w') ->
  passed (length (pattern_groups patterns) + 2) w w'.
Proof.
  unfold save_body, bind. intros E.
  destruct (sql (Delete repository_id) w) as [[u1|e1] w1] eqn:E1;
    [|discriminate].
  destruct (for_each (pattern_groups patterns)
              (insert_group env repository_id) 0 w1)
    as [[u2|e2] w2] eqn:E2; [|discriminate].
  destruct (sql Commit w2) as [[u3|e3] w3] eqn:E3; [|discriminate].
  unfold ret in E. injection E as _ <-.
  apply sql_returned in E1, E3. apply for_each_inserts_returned in E2.
  pose proof (passed_trans _ _ _ _ _ (passed_trans _ _ _ _ _ E1 E2) E3) as P.
  replace (length (pattern_groups patterns) + 2)
    with (1 + length (pattern_groups patterns) + 1) by lia.
  exact P.
Qed.

Lemma save_body_raised db patterns w e w' :
  quiet db w ->
  save_body env patterns repository_id w = (Raised e, w') ->
  quiet db w' /\ behind w'.
Proof.
  unfold save_body, bind. intros Q E.
  destruct (sql (Delete repository_id) w) as [[u1|e1] w1] eqn:E1.
  - assert (Q1 : quiet db w1) by keep_quiet Q E1.
    destruct (for_each (pattern_groups patterns)
                (insert_group env repository_id) 0 w1)
      as [[u2|e2] w2] eqn:E2.
    + assert (Q2 : quiet db w2)
        by (eapply for_each_inserts_quiet; [exact Q1|exact E2]).
      destruct (sql Commit w2) as [[u3|e3] w3] eqn:E3; [discriminate|].
      injection E as _ <-.
      apply sql_raised in E3 as (B & C & H). split; [|exact B].
      destruct Q2 as [Qc Qh]. split; [now rewrite C|now rewrite H].
    + injection E as _ <-. split.
      * eapply for_each_inserts_quiet; [exact Q1|exact E2].
      * eapply for_each_inserts_raised. exact E2.
  - injection E as _ <-. split.
    + keep_quiet Q E1.
    + now apply sql_raised in E1 as [B _].
Qed.

End Persistence.

Lemma save_fault env repository_id p ps db k :
  let patterns := p :: ps in
  1 <= k <= length (pattern_groups patterns) + 2 ->
  let run := save_patterns_to_database env patterns repository_id
               (start db (Some k)) in
  fst run = Returned Failed
  /\ quiet db (snd run)
  /\ exists done, log (snd run) = done ++ [Rollback; Close].
Proof.
  intros patterns Hk. subst patterns. cbn zeta.
  unfold save_patterns_to_database.
  destruct (sql_cases Connect (start db (Some k))) as [[_ E]|[F _]].
  2:{ unfold faulty, start in F. cbn [fault calls] in F.
      apply Nat.eqb_eq in F. lia. }
  rewrite E. clear E.
  cbn [start conn calls fault log history apply_op committed app].
  set (w1 := mkWorld (mkConn db None) 1 (Some k) [Connect] [db]).
  assert (Q1 : quiet db w1).
  { split; [reflexivity|]. repeat constructor. }
  unfold try_finally, try_except.
  destruct (save_body env (p :: ps) repository_id w1) as [[v|e] wb] eqn:B.
  - exfalso. apply save_body_returned in B as (_ & _ & P).
    specialize (P k eq_refl). cbn [w1 calls] in P. lia.
  - apply (save_body_raised env repository_id db) in B as [Qb Bb];
      [|exact Q1].
    unfold bind. rewrite (sql_behind Rollback wb Bb). unfold ret.
    set (wr := mkWorld _ _ _ _ _).
    assert (Br : behind wr).
    { destruct Bb as (j & Hj & Hc). exists j. cbn [wr fault calls].
      split; [exact Hj|lia]. }
    rewrite (sql_behind Close wr Br). cbn [fst snd].
    split; [reflexivity|]. split.
    + destruct Qb as [Qc Qh]. split; cbn [wr conn history apply_op committed].
      * exact Qc.
      * rewrite !Forall_app. repeat split; auto; repeat constructor; auto.
    + exists (log wb). cbn [wr log]. now rewrite <- app_assoc.
Qed.

(** C7: for a non-empty set of occurrences and a repository identifier,
    a run in which no call raises deletes the rows stored under that
    identifier and writes one row per group, so that afterwards exactly
    the new rows are stored under it and the rows of other identifiers
    are as before, also when the table is what an earlier, larger run
    left; and when the delete, an insert or the commit raises, the
    transaction is rolled back: the stored table is the one before the
    run, and it was never anything else while the run lasted. *)
Theorem save_replaces_atomically (env : clock)
  (patterns : list CodePattern) (repository_id : str) (db : table)
  (Hne : patterns <> []) :
  let new_rows := rows_of env repository_id patterns in
  let done := save_patterns_to_database env patterns repository_id
                (start db None) in
  (fst done = Returned (Saved (length (pattern_groups patterns)))
   /\ log (snd done)
      = [Connect; Delete repository_id] ++ map Insert new_rows
        ++ [Commit; Close]
   /\ stored (snd done) = rows_not_for repository_id db ++ new_rows
   /\ rows_for repository_id (stored (snd done)) = new_rows
   /\ rows_not_for repository_id (stored (snd done))
      = rows_not_for repository_id db
   /\ Forall (fun t => t = db \/ t = rows_not_for repository_id db ++ new_rows)
        (history (snd done)))
  /\ (forall env0 earlier,
        let before :=
          stored (snd (save_patterns_to_database env0 earlier repository_id
                         (start db None))) in
        rows_for repository_id
          (stored (snd (save_patterns_to_database env patterns repository_id
                          (start before None))))
        = new_rows)
  /\ (forall k,
        1 <= k <= length (pattern_groups patterns) + 2 ->
        let failed := save_patterns_to_database env patterns repository_id
                        (start db (Some k)) in
        fst failed = Returned Failed
        /\ stored (snd failed) = db
        /\ Forall (eq db) (history (snd failed))
        /\ exists calls_done,
             log (snd failed) = calls_done ++ [Rollback; Close]).
Proof.
  destruct patterns as [|p ps]; [contradiction|]. cbn zeta.
  assert (Hrows : forall r,
            In r (rows_of env repository_id (p :: ps)) ->
            belongs repository_id r = true).
  { intros r. apply rows_from_belong. }
  split; [|split].
  - rewrite save_no_fault. cbn [fst snd log history]. unfold stored.
    cbn [conn committed].
    destruct (replaced_rows repository_id db _ Hrows) as [R1 R2].
    repeat split; auto.
    rewrite !Forall_app. repeat split.
    + constructor; [now left|]. constructor; [now left|constructor].
    + apply Forall_forall. intros t Ht.
      apply in_map_iff in Ht as (r & <- & _). now left.
    + constructor; [now right|]. constructor; [now right|constructor].
  - intros env0 earlier. cbn zeta. rewrite save_no_fault.
    cbn [snd]. unfold stored at 1. cbn [conn committed].
    now apply replaced_rows.
  - intros k Hk. cbn zeta.
    destruct (save_fault env repository_id p ps db k Hk) as (H1 & [H2 H3] & H4).
    repeat split; auto.
Qed.

Lemma save_replaces_atomically_witness :
  three_sightings <> []
  /\ map r_pattern_type
       (rows_for (lit "r1")
          (stored (snd (save_patterns_to_database fixed_clock three_sightings
                          (lit "r1") (start old_table None)))))
     = [lit "fs_sync_operations"; lit "fs_async_operations"]
  /\ rows_for (lit "r1")
       (stored (snd (save_patterns_to_database fixed_clock three_sightings
                       (lit "r1") (start old_table None))))
     = rows_of fixed_clock (lit "r1") three_sightings.
Proof.
  assert (Hne : three_sightings <> []) by discriminate.
  split; [exact Hne|]. split; [vm_compute; reflexivity|].
  destruct (save_replaces_atomically fixed_clock three_sightings (lit "r1")
              old_table Hne) as ((_ & _ & _ & H & _) & _).
  exact H.
Defined.

Example insert_failure_leaves_table :
  let failed := save_patterns_to_database fixed_clock three_sightings
                  (lit "r1") (start old_table (Some 3)) in
  fst failed = Returned Failed
  /\ stored (snd failed) = old_table
  /\ map (fun op => match op with
                    | Connect => 0 | Delete _ => 1 | Insert _ => 2
                    | Commit => 3 | Rollback => 4 | Close => 5
                    end) (log (snd failed))
     = [0; 1; 2; 4; 5].
Proof. cbn zeta. repeat split; vm_compute; reflexivity. Qed.

(** C10: when the list of occurrences is empty the persistence step
    returns at once: it makes no call on the database, so nothing is
    deleted and the rows stored under the identifier by an earlier run
    stay in place. *)
Theorem save_nothing_keeps_rows (env : clock) (repository_id : str)
  (db : table) (fault : option nat) :
  let run := save_patterns_to_database env [] repository_id
               (start db fault) in
  (forall w,
     save_patterns_to_database env [] repository_id w
     = (Returned NothingToSave, w))
  /\ run = (Returned NothingToSave, start db fault)
  /\ log (snd run) = []
  /\ history (snd run) = []
  /\ calls (snd run) = 0
  /\ stored (snd run) = db
  /\ rows_for repository_id (stored (snd run)) = rows_for repository_id db.
Proof. cbn zeta. repeat split. Qed.

Example rerun_without_patterns_keeps_rows :
  extract_patterns_from_repository vendored_repo [] = Returned []
  /\ rows_for (lit "r1")
       (stored (snd (save_patterns_to_database fixed_clock [] (lit "r1")
                       (start old_table None))))
     = [old_row "r1" "await_usage"; old_row "r1" "arrow_functions"].
Proof. split; vm_compute; reflexivity. Qed.
(* ================================================================== *)
(** * Further properties *)

(** ** Dictionaries and first-seen order *)

Section Counting.

Lemma lookup_set (V : Type) (k k' : str) (v : V) (d : Dict.t V) :
  Dict.lookup k' (Dict.set k v d)
  = if Str.eqb k' k then Some v else Dict.lookup k' d.
Proof.
  induction d as [|[k0 v0] d IH]; simpl.
  - reflexivity.
  - destruct (Str.eqb k k0) eqn:E; simpl.
    + apply StrFacts.streqb_eq in E. subst k0.
      destruct (Str.eqb k' k); reflexivity.
    + rewrite IH. destruct (Str.eqb k' k0) eqn:E0; [|reflexivity].
      apply StrFacts.streqb_eq in E0. subst k0.
      destruct (Str.eqb k' k) eqn:E1; [|reflexivity].
      apply StrFacts.streqb_eq in E1. subst k'.
      rewrite StrFacts.streqb_refl in E. discriminate.
Qed.

Lemma existsb_streqb k ks : existsb (Str.eqb k) ks = true <-> In k ks.
Proof.
  rewrite existsb_exists. split.
  - intros (x & Hx & E). apply StrFacts.streqb_eq in E. now subst.
  - intros H. exists k. split; [exact H|apply StrFacts.streqb_refl].
Qed.

Lemma keys_set (V : Type) (k : str) (v : V) (d : Dict.t V) :
  Dict.keys (Dict.set k v d) = set_add k (Dict.keys d).
Proof.
  unfold set_add, Dict.keys.
  induction d as [|[k0 v0] d IH]; simpl; [reflexivity|].
  destruct (Str.eqb k k0) eqn:E; simpl; [reflexivity|].
  rewrite IH.
  destruct (existsb (Str.eqb k) (map fst d)); reflexivity.
Qed.

Lemma distinct_snoc ks k : distinct (ks ++ [k]) = set_add k (distinct ks).
Proof. unfold distinct. now rewrite fold_left_app. Qed.

Lemma distinct_in ks k : In k (distinct ks) <-> In k ks.
Proof.
  induction ks as [|x ks IH] using rev_ind.
  - simpl. tauto.
  - rewrite distinct_snoc, set_add_in, in_app_iff, IH. simpl.
    intuition congruence.
Qed.

Lemma distinct_nodup ks : NoDup (distinct ks).
Proof.
  induction ks as [|x ks IH] using rev_ind.
  - constructor.
  - rewrite distinct_snoc. now apply set_add_nodup.
Qed.

Lemma distinct_length ks : length (distinct ks) <= length ks.
Proof.
  induction ks as [|x ks IH] using rev_ind; [simpl; lia|].
  rewrite distinct_snoc, length_app. unfold set_add.
  destruct (existsb (Str.eqb x) (distinct ks)); [simpl; lia|].
  rewrite length_app. simpl. lia.
Qed.

(** A dictionary is its keys with the values found under them. *)
Lemma dict_by_keys (V : Type) (d : Dict.t V) (f : str -> V) :
  NoDup (Dict.keys d) ->
  (forall k, In k (Dict.keys d) -> Dict.lookup k d = Some (f k)) ->
  d = map (fun k => (k, f k)) (Dict.keys d).
Proof.
  induction d as [|[k v] d IH]; intros Hnd Hl; [reflexivity|].
  simpl in *. inversion Hnd as [|? ? Hk Hnd']; subst.
  pose proof (Hl k (or_introl eq_refl)) as H0.
  rewrite StrFacts.streqb_refl in H0. injection H0 as ->.
  f_equal. apply IH; [exact Hnd'|].
  intros k' Hk'. specialize (Hl k' (or_intror Hk')).
  destruct (Str.eqb k' k) eqn:E; [|exact Hl].
  apply StrFacts.streqb_eq in E. subst. contradiction.
Qed.

Section OneKey.

Variable key : CodePattern -> str.

Lemma tally_snoc ps p d :
  tally key (ps ++ [p]) d = bump (key p) (tally key ps d).
Proof. unfold tally. now rewrite fold_left_app. Qed.

Lemma occurrences_snoc k ps p :
  occurrences_with key k (ps ++ [p])
  = occurrences_with key k ps + (if Str.eqb (key p) k then 1 else 0).
Proof.
  unfold occurrences_with. rewrite filter_app, length_app. simpl.
  destruct (Str.eqb (key p) k); reflexivity.
Qed.

Lemma occurrences_zero k ps :
  occurrences_with key k ps = 0 <-> ~ In k (map key ps).
Proof.
  unfold occurrences_with. split.
  - intros H Hin. apply in_map_iff in Hin as (p & E & Hp).
    assert (Hf : In p (filter (fun q => Str.eqb (key q) k) ps)).
    { apply filter_In. split; [exact Hp|]. now apply StrFacts.streqb_eq. }
    destruct (filter _ ps); [contradiction|discriminate].
  - intros H. destruct (filter _ ps) as [|p l] eqn:F; [reflexivity|].
    exfalso. apply H.
    assert (Hf : In p (p :: l)) by now left.
    rewrite <- F in Hf. apply filter_In in Hf as [Hp E].
    apply StrFacts.streqb_eq in E. apply in_map_iff. eauto.
Qed.

Lemma keys_tally ps : Dict.keys (tally key ps []) = distinct (map key ps).
Proof.
  induction ps as [|p ps IH] using rev_ind; [reflexivity|].
  rewrite tally_snoc, map_app. cbn [map]. rewrite distinct_snoc.
  unfold bump. now rewrite keys_set, IH.
Qed.

Lemma lookup_tally ps k :
  Dict.lookup k (tally key ps [])
  = if occurrences_with key k ps =? 0 then None
    else Some (Z.of_nat (occurrences_with key k ps)).
Proof.
  induction ps as [|p ps IH] using rev_ind; [reflexivity|].
  rewrite tally_snoc, occurrences_snoc. unfold bump. rewrite lookup_set.
  destruct (Str.eqb k (key p)) eqn:E.
  - apply StrFacts.streqb_eq in E. subst k. rewrite StrFacts.streqb_refl.
    rewrite IH.
    destruct (occurrences_with key (key p) ps) as [|n] eqn:N; simpl.
    + reflexivity.
    + replace (n + 1 =? 0) with false by (symmetry; apply Nat.eqb_neq; lia).
      f_equal. lia.
  - assert (E' : Str.eqb (key p) k = false).
    { apply StrFacts.streqb_neq. apply StrFacts.streqb_neq in E. congruence. }
    rewrite E', Nat.add_0_r. exact IH.
Qed.

(** The tally of a list is exactly its table of counts. *)
Lemma tally_counted ps : tally key ps [] = counted key ps.
Proof.
  unfold counted. rewrite <- keys_tally.
  apply (dict_by_keys Z (tally key ps [])
           (fun k => Z.of_nat (occurrences_with key k ps))).
  - rewrite keys_tally. apply distinct_nodup.
  - intros k Hk. rewrite keys_tally, distinct_in in Hk.
    rewrite lookup_tally.
    destruct (occurrences_with key k ps =? 0) eqn:N; [|reflexivity].
    apply Nat.eqb_eq, occurrences_zero in N. contradiction.
Qed.

Lemma total_tally ps : forall d,
  total (tally key ps d) = (total d + Z.of_nat (length ps))%Z.
Proof.
  induction ps as [|p ps IH]; intros d; simpl.
  - lia.
  - unfold tally in *. simpl. rewrite IH, total_bump. lia.
Qed.

End OneKey.

Lemma count_patterns_tallies ps : forall c,
  fold_left count_pattern ps c
  = mkCounters (tally category_key ps (category_counts c))
      (tally severity_key ps (severity_counts c))
      (tally file_path ps (file_counts c))
      (tally pattern_type ps (pattern_type_counts c)).
Proof.
  induction ps as [|p ps IH]; intros c.
  - destruct c. reflexivity.
  - simpl fold_left. rewrite IH. reflexivity.
Qed.

End Counting.

(** ** Sorting by decreasing count *)

Section Sorting.

Implicit Types (l : list (str * Z)) (x : str * Z).

Lemma insert_desc_perm x l : Permutation (insert_desc x l) (x :: l).
Proof.
  induction l as [|y l IH]; simpl; [reflexivity|].
  destruct (snd x <? snd y)%Z; [|reflexivity].
  rewrite IH. apply perm_swap.
Qed.

Lemma sorted_desc_perm l : Permutation (sorted_desc l) l.
Proof.
  induction l as [|x l IH]; simpl; [reflexivity|].
  unfold sorted_desc in *. simpl. rewrite insert_desc_perm. now constructor.
Qed.

Lemma insert_desc_sorted x l :
  StronglySorted ge_count l -> StronglySorted ge_count (insert_desc x l).
Proof.
  induction l as [|y l IH]; intros H; simpl.
  - constructor; constructor.
  - inversion H as [|? ? Hs Hf]; subst.
    destruct (snd x <? snd y)%Z eqn:E.
    + apply Z.ltb_lt in E. constructor; [now apply IH|].
      assert (Hall : Forall (ge_count y) (x :: l))
        by (constructor; [unfold ge_count; lia|exact Hf]).
      rewrite Forall_forall in *. intros z Hz. apply Hall.
      apply (Permutation_in z (insert_desc_perm x l) Hz).
    + apply Z.ltb_ge in E. constructor; [exact H|].
      constructor; [exact E|].
      eapply Forall_impl; [|exact Hf].
      intros z Hz. unfold ge_count in *. lia.
Qed.

Lemma sorted_desc_sorted l : StronglySorted ge_count (sorted_desc l).
Proof.
  induction l as [|x l IH]; [constructor|].
  unfold sorted_desc in *. simpl. now apply insert_desc_sorted.
Qed.

Lemma with_count_insert c x l :
  StronglySorted ge_count l ->
  with_count c (insert_desc x l) = with_count c (x :: l).
Proof.
  unfold with_count. induction l as [|y l IH]; intros H; [reflexivity|].
  inversion H as [|? ? Hs Hf]; subst. simpl.
  destruct (snd x <? snd y)%Z eqn:E; [|reflexivity].
  apply Z.ltb_lt in E. simpl. rewrite (IH Hs). simpl.
  destruct (snd x =? c)%Z eqn:Ex; [|reflexivity].
  destruct (snd y =? c)%Z eqn:Ey; [|reflexivity].
  apply Z.eqb_eq in Ex, Ey. lia.
Qed.

(** The sort is stable: entries with the same count keep their order. *)
Lemma sorted_desc_stable c l : with_count c (sorted_desc l) = with_count c l.
Proof.
  induction l as [|x l IH]; [reflexivity|].
  unfold sorted_desc in *. simpl fold_right.
  rewrite with_count_insert by apply sorted_desc_sorted.
  unfold with_count in *. simpl. now rewrite IH.
Qed.

Lemma total_perm (a b : Dict.t Z) : Permutation a b -> total a = total b.
Proof.
  induction 1; simpl; lia.
Qed.

Lemma in_firstn (A : Type) (l : list A) n a : In a (firstn n l) -> In a l.
Proof.
  intros H. rewrite <- (firstn_skipn n l). apply in_or_app. now left.
Qed.

Lemma in_skipn (A : Type) (l : list A) n a : In a (skipn n l) -> In a l.
Proof.
  intros H. rewrite <- (firstn_skipn n l). apply in_or_app. now right.
Qed.

Lemma firstn_sorted (A : Type) (R : A -> A -> Prop) (l : list A) n :
  StronglySorted R l ->
  StronglySorted R (firstn n l)
  /\ forall a b, In a (firstn n l) -> In b (skipn n l) -> R a b.
Proof.
  revert n. induction l as [|x l IH]; intros n H.
  - rewrite firstn_nil, skipn_nil. split; [constructor|intros a b []].
  - destruct n as [|n]; [split; [constructor|intros a b []]|].
    inversion H as [|? ? Hs Hf]; subst.
    destruct (IH n Hs) as [I1 I2]. simpl. split.
    + constructor; [exact I1|].
      rewrite Forall_forall in *. intros y Hy. apply Hf.
      eapply in_firstn. exact Hy.
    + intros a b [<-|Ha] Hb.
      * rewrite Forall_forall in Hf. apply Hf.
        eapply in_skipn. exact Hb.
      * now apply I2.
Qed.

Lemma filter_firstn (A : Type) (f : A -> bool) (l : list A) n :
  filter f (firstn n l)
  = firstn (length (filter f (firstn n l))) (filter f l).
Proof.
  revert n. induction l as [|x l IH]; intros n.
  - now rewrite firstn_nil.
  - destruct n as [|n]; [reflexivity|]. simpl.
    destruct (f x); simpl; now rewrite <- IH.
Qed.

End Sorting.

(** ** The report's breakdowns *)

Section ReportBreakdowns.

Lemma report_fields env path p ps :
  generate_pattern_report env path (p :: ps)
  = Some (mkReport (Z.of_nat (length (p :: ps)))
            (counted category_key (p :: ps))
            (counted severity_key (p :: ps))
            (firstn 10 (sorted_desc (counted file_path (p :: ps))))
            (sorted_desc (counted pattern_type (p :: ps)))
            (now env 0) path).
Proof.
  unfold generate_pattern_report, count_patterns.
  rewrite count_patterns_tallies. cbn [category_counts severity_counts
    file_counts pattern_type_counts].
  now rewrite !tally_counted.
Qed.

Lemma counted_keys key ps :
  map fst (counted key ps) = distinct (map key ps).
Proof.
  unfold counted. rewrite map_map. cbn [fst]. apply map_id.
Qed.

Lemma counted_total key ps :
  total (counted key ps) = Z.of_nat (length ps).
Proof.
  rewrite <- tally_counted, total_tally. reflexivity.
Qed.

Lemma counted_in key ps k n :
  In (k, n) (counted key ps) ->
  n = Z.of_nat (occurrences_with key k ps) /\ (0 < n)%Z.
Proof.
  unfold counted. intros H. apply in_map_iff in H as (k' & E & Hk).
  injection E as -> <-. split; [reflexivity|].
  apply (proj1 (distinct_in _ _)) in Hk.
  destruct (occurrences_with key k ps) eqn:N; [|lia].
  apply occurrences_zero in N. contradiction.
Qed.

Lemma counted_has key ps k :
  In k (map key ps) ->
  In (k, Z.of_nat (occurrences_with key k ps)) (counted key ps).
Proof.
  intros H. unfold counted. apply in_map_iff. exists k.
  split; [reflexivity|]. now apply (proj2 (distinct_in _ _)).
Qed.

(** X1: in a report, [total_patterns] is the number of occurrences, and
    the category and severity breakdowns list every category value, resp.
    severity name, that occurs, in the order of first appearance, each
    with the number of occurrences that have it; so each breakdown sums
    to [total_patterns] and never holds a zero count. *)
Theorem report_counts (env : clock) (path : str)
  (patterns : list CodePattern) (r : report)
  (H : generate_pattern_report env path patterns = Some r) :
  total_patterns r = Z.of_nat (length patterns)
  /\ category_breakdown r = counted category_key patterns
  /\ severity_breakdown r = counted severity_key patterns
  /\ total (category_breakdown r) = total_patterns r
  /\ total (severity_breakdown r) = total_patterns r
  /\ (forall k n, In (k, n) (category_breakdown r)
                  \/ In (k, n) (severity_breakdown r) -> (0 < n)%Z)
  /\ report_repository_path r = path.
Proof.
  destruct patterns as [|p ps]; [discriminate|].
  rewrite report_fields in H. injection H as <-.
  cbn [total_patterns category_breakdown severity_breakdown
       report_repository_path].
  repeat split.
  - apply counted_total.
  - apply counted_total.
  - intros k n [Hin|Hin]; now apply counted_in in Hin.
Qed.

Lemma report_counts_witness :
  exists r,
    generate_pattern_report fixed_clock (lit "/repo") three_sightings = Some r
    /\ category_breakdown r = counted category_key three_sightings
    /\ category_breakdown r = [(lit "performance", 3%Z)].
Proof.
  eexists. split; [reflexivity|]. split; [|reflexivity].
  apply (report_counts fixed_clock (lit "/repo") three_sightings).
  reflexivity.
Defined.

(** X2: the rule breakdown of a report holds, for every rule id that
    occurs, its number of occurrences, ordered by decreasing count; rule
    ids with the same count stay in the order of their first appearance,
    and the counts sum to [total_patterns]. *)
Theorem report_pattern_types (env : clock) (path : str)
  (patterns : list CodePattern) (r : report)
  (H : generate_pattern_report env path patterns = Some r) :
  Permutation (pattern_type_breakdown r) (counted pattern_type patterns)
  /\ StronglySorted ge_count (pattern_type_breakdown r)
  /\ (forall c, with_count c (pattern_type_breakdown r)
                = with_count c (counted pattern_type patterns))
  /\ (forall k n, In (k, n) (pattern_type_breakdown r) ->
        n = Z.of_nat (occurrences_with pattern_type k patterns))
  /\ total (pattern_type_breakdown r) = total_patterns r.
Proof.
  destruct patterns as [|p ps]; [discriminate|].
  rewrite report_fields in H. injection H as <-.
  cbn [total_patterns pattern_type_breakdown].
  split; [apply sorted_desc_perm|].
  split; [apply sorted_desc_sorted|].
  split; [intros c; apply sorted_desc_stable|].
  split.
  - intros k n Hin.
    apply (Permutation_in _ (sorted_desc_perm _)) in Hin.
    now apply counted_in in Hin.
  - rewrite (total_perm _ _ (sorted_desc_perm _)). apply counted_total.
Qed.

Lemma report_pattern_types_witness :
  exists r,
    generate_pattern_report fixed_clock (lit "/repo")
      (async_read_b :: three_sightings) = Some r
    /\ pattern_type_breakdown r
       = [(lit "fs_async_operations", 2%Z); (lit "fs_sync_operations", 2%Z)]
    /\ StronglySorted ge_count (pattern_type_breakdown r).
Proof.
  eexists. split; [reflexivity|]. split; [reflexivity|].
  apply (report_pattern_types fixed_clock (lit "/repo")
           (async_read_b :: three_sightings)).
  reflexivity.
Defined.

Lemma nodup_firstn (A : Type) (l : list A) n : NoDup l -> NoDup (firstn n l).
Proof.
  intros H. rewrite <- (firstn_skipn n l) in H.
  now apply NoDup_app_remove_r in H.
Qed.

(** X3: the report's top files are at most ten files, each with its
    number of occurrences, in decreasing order of count; no file is
    listed twice, files with the same count come in the order in which
    the scan first met them, and a file that is left out has no more
    occurrences than any file listed (and then ten files are listed). *)
Theorem report_top_files (env : clock) (path : str)
  (patterns : list CodePattern) (r : report)
  (H : generate_pattern_report env path patterns = Some r) :
  let top := top_files_by_pattern_count r in
  length top = Nat.min 10 (length (distinct (map file_path patterns)))
  /\ StronglySorted ge_count top
  /\ NoDup (map fst top)
  /\ (forall f n, In (f, n) top ->
        n = Z.of_nat (occurrences_with file_path f patterns) /\ (0 < n)%Z)
  /\ (forall f, In f (map file_path patterns) -> ~ In f (map fst top) ->
        length top = 10
        /\ forall e, In e top ->
             (Z.of_nat (occurrences_with file_path f patterns) <= snd e)%Z)
  /\ (forall c, with_count c top
                = firstn (length (with_count c top))
                    (with_count c (counted file_path patterns))).
Proof.
  destruct patterns as [|p ps]; [discriminate|].
  rewrite report_fields in H. intros top.
  set (C := counted file_path (p :: ps)) in *.
  assert (E : top = firstn 10 (sorted_desc C))
    by (injection H as <-; reflexivity).
  rewrite E. clear E top H.
  pose proof (sorted_desc_perm C) as HP.
  pose proof (sorted_desc_sorted C) as HS.
  destruct (firstn_sorted _ ge_count (sorted_desc C) 10 HS) as [HS1 HS2].
  assert (HN : NoDup (map fst (sorted_desc C))).
  { apply (Permutation_NoDup (l := map fst C)).
    - symmetry. now apply Permutation_map.
    - unfold C. rewrite counted_keys. apply distinct_nodup. }
  split; [|split; [exact HS1|split; [|split; [|split]]]].
  - rewrite length_firstn, (Permutation_length HP). unfold C, counted.
    now rewrite length_map.
  - rewrite <- firstn_map. now apply nodup_firstn.
  - intros f n Hin. apply in_firstn in Hin.
    apply (Permutation_in _ HP) in Hin. now apply counted_in in Hin.
  - intros f Hf Hout.
    pose proof (counted_has file_path (p :: ps) f Hf) as Hc. fold C in Hc.
    apply (Permutation_in _ (Permutation_sym HP)) in Hc.
    rewrite <- (firstn_skipn 10 (sorted_desc C)) in Hc.
    apply in_app_or in Hc as [Hc|Hc].
    { exfalso. apply Hout. apply in_map_iff.
      exists (f, Z.of_nat (occurrences_with file_path f (p :: ps))).
      split; [reflexivity|exact Hc]. }
    split.
    + rewrite length_firstn.
      assert (10 < length (sorted_desc C)); [|lia].
      destruct (Nat.le_gt_cases (length (sorted_desc C)) 10) as [L|L];
        [|exact L].
      rewrite skipn_all2 in Hc by exact L. contradiction.
    + intros e He. apply (HS2 e _ He Hc).
  - intros c. rewrite <- (sorted_desc_stable c C).
    unfold with_count. apply filter_firstn.
Qed.

Lemma report_top_files_witness :
  exists r,
    generate_pattern_report fixed_clock (lit "/repo")
      (async_read_b :: three_sightings) = Some r
    /\ top_files_by_pattern_count r
       = [(lit "src/b.ts", 2%Z); (lit "src/a.ts", 1%Z); (lit "src/c.ts", 1%Z)]
    /\ NoDup (map fst (top_files_by_pattern_count r)).
Proof.
  eexists. split; [reflexivity|]. split; [reflexivity|].
  apply (report_top_files fixed_clock (lit "/repo")
           (async_read_b :: three_sightings)).
  reflexivity.
Defined.

End ReportBreakdowns.

(** ** Groups and rows *)

Section GroupsAndRows.

Lemma keys_snoc (V : Type) (d : Dict.t V) k v :
  Dict.keys (d ++ [(k, v)]) = Dict.keys d ++ [k].
Proof. unfold Dict.keys. now rewrite map_app. Qed.

Lemma keys_group_step gs p :
  Dict.keys (group_step gs p) = set_add (pattern_hash p) (Dict.keys gs).
Proof.
  unfold group_step. rewrite !DictFacts.keys_update. unfold set_add.
  destruct (Dict.lookup (pattern_hash p) gs) as [g|] eqn:L.
  - assert (E : existsb (Str.eqb (pattern_hash p)) (Dict.keys gs) = true).
    { apply existsb_streqb.
      destruct (in_dec (list_eq_dec ascii_dec) (pattern_hash p)
                  (Dict.keys gs)) as [I|I]; [exact I|].
      apply DictFacts.lookup_none_keys in I. congruence. }
    now rewrite E.
  - apply DictFacts.lookup_none_keys in L.
    destruct (existsb (Str.eqb (pattern_hash p)) (Dict.keys gs)) eqn:E.
    + apply existsb_streqb in E. contradiction.
    + apply keys_snoc.
Qed.

Lemma keys_pattern_groups ps :
  Dict.keys (pattern_groups ps) = distinct (map pattern_hash ps).
Proof.
  induction ps as [|p ps IH] using rev_ind; [reflexivity|].
  rewrite pattern_groups_snoc, keys_group_step, IH, map_app. cbn [map].
  now rewrite distinct_snoc.
Qed.

Lemma total_usage_app gs gs' :
  total_usage (gs ++ gs') = (total_usage gs + total_usage gs')%Z.
Proof.
  unfold total_usage. induction gs as [|g gs IH]; simpl; lia.
Qed.

Lemma total_usage_update k f gs :
  total_usage (Dict.update k f gs)
  = (total_usage gs
     + match Dict.lookup k gs with
       | Some g => g_count (f g) - g_count g
       | None => 0
       end)%Z.
Proof.
  induction gs as [|[k0 g0] gs IH]; simpl; [reflexivity|].
  destruct (Str.eqb k k0); simpl; lia.
Qed.

Lemma total_usage_step gs p :
  total_usage (group_step gs p) = (total_usage gs + 1)%Z.
Proof.
  unfold group_step. rewrite !total_usage_update.
  rewrite DictFacts.lookup_update_same.
  destruct (Dict.lookup (pattern_hash p) gs) as [g|] eqn:L.
  - rewrite L. simpl. lia.
  - rewrite DictFacts.lookup_snoc, L, StrFacts.streqb_refl, total_usage_app.
    simpl. lia.
Qed.

Lemma total_usage_groups ps :
  total_usage (pattern_groups ps) = Z.of_nat (length ps).
Proof.
  induction ps as [|p ps IH] using rev_ind; [reflexivity|].
  rewrite pattern_groups_snoc, total_usage_step, IH, length_app. simpl. lia.
Qed.

Lemma in_lookup (V : Type) (d : Dict.t V) k v :
  NoDup (Dict.keys d) -> In (k, v) d -> Dict.lookup k d = Some v.
Proof.
  induction d as [|[k0 v0] d IH]; intros Hn Hin; [contradiction|].
  simpl in *. inversion Hn as [|? ? Hk Hn']; subst.
  destruct Hin as [E|Hin].
  - injection E as -> ->. now rewrite StrFacts.streqb_refl.
  - destruct (Str.eqb k k0) eqn:E; [|now apply IH].
    apply StrFacts.streqb_eq in E. subst k0. exfalso. apply Hk.
    apply in_map_iff. exists (k, v). split; [reflexivity|exact Hin].
Qed.

Lemma group_in ps h g :
  In (h, g) (pattern_groups ps) -> group_of h ps g.
Proof.
  intros Hin. apply in_lookup in Hin.
  - pose proof (pattern_groups_by_hash ps h) as G. now rewrite Hin in G.
  - rewrite keys_pattern_groups. apply distinct_nodup.
Qed.

Lemma group_representative ps h g :
  In (h, g) (pattern_groups ps) ->
  In (g_pattern g) ps
  /\ pattern_hash (g_pattern g) = h
  /\ (1 <= g_count g)%Z
  /\ g_count g = Z.of_nat (count_hash h ps).
Proof.
  intros Hin. apply group_in in Hin. destruct Hin as (Hf & Hc & _).
  apply find_some in Hf as [Hp Hh]. apply StrFacts.streqb_eq in Hh.
  split; [exact Hp|]. split; [exact Hh|]. split; [|exact Hc].
  rewrite Hc. unfold count_hash.
  assert (I : In (g_pattern g)
                (filter (fun q => Str.eqb (pattern_hash q) h) ps)).
  { apply filter_In. split; [exact Hp|]. now apply StrFacts.streqb_eq. }
  destruct (filter _ ps); [contradiction|simpl; lia].
Qed.

Lemma groups_length ps : length (pattern_groups ps) <= length ps.
Proof.
  rewrite <- (length_map fst (pattern_groups ps)).
  fold (Dict.keys (pattern_groups ps)). rewrite keys_pattern_groups.
  rewrite <- (length_map pattern_hash ps). apply distinct_length.
Qed.

(** X4: the groups formed for a list of occurrences have as keys the
    distinct pattern hashes of the list, each once, in the order of first
    appearance; every group is represented by an occurrence of the list
    with the group's hash and counts at least one occurrence; and the
    usage counts of all groups add up to the number of occurrences. *)
Theorem pattern_groups_keys (ps : list CodePattern) :
  Dict.keys (pattern_groups ps) = distinct (map pattern_hash ps)
  /\ NoDup (Dict.keys (pattern_groups ps))
  /\ length (pattern_groups ps) <= length ps
  /\ total_usage (pattern_groups ps) = Z.of_nat (length ps)
  /\ (forall h g, In (h, g) (pattern_groups ps) ->
        In (g_pattern g) ps
        /\ pattern_hash (g_pattern g) = h
        /\ (1 <= g_count g)%Z
        /\ g_count g = Z.of_nat (count_hash h ps)).
Proof.
  split; [apply keys_pattern_groups|].
  split; [rewrite keys_pattern_groups; apply distinct_nodup|].
  split; [apply groups_length|].
  split; [apply total_usage_groups|].
  apply group_representative.
Qed.

Lemma rows_from_in env rid : forall gs i row,
  In row (rows_from env rid i gs) ->
  exists j h g, In (h, g) gs /\ row = row_of env rid j h g.
Proof.
  induction gs as [|[h g] gs IH]; intros i row Hin; [contradiction|].
  simpl in Hin. destruct Hin as [<-|Hin].
  - exists i, h, g. split; [now left|reflexivity].
  - apply IH in Hin as (j & h' & g' & H1 & H2).
    exists j, h', g'. split; [now right|exact H2].
Qed.

Lemma rows_from_hashes env rid : forall gs i,
  (forall h g, In (h, g) gs -> pattern_hash (g_pattern g) = h) ->
  map r_pattern_hash (rows_from env rid i gs) = Dict.keys gs.
Proof.
  induction gs as [|[h g] gs IH]; intros i H; [reflexivity|].
  simpl. f_equal.
  - apply H. now left.
  - apply IH. intros h' g' Hin. apply H. now right.
Qed.

Lemma rows_from_usage env rid : forall gs i,
  sum_usage (rows_from env rid i gs) = total_usage gs.
Proof.
  induction gs as [|[h g] gs IH]; intros i; [reflexivity|].
  simpl. now rewrite IH.
Qed.

(** X5: the rows written for a list of occurrences are one row per
    distinct pattern hash, in the order of first appearance, so no two
    rows of a run have the same [pattern_hash]; every row carries the
    repository identifier it was saved under, and the [usage_count]
    column adds up to the number of occurrences. *)
Theorem rows_of_hashes (env : clock) (repository_id : str)
  (ps : list CodePattern) :
  let rows := rows_of env repository_id ps in
  map r_pattern_hash rows = distinct (map pattern_hash ps)
  /\ NoDup (map r_pattern_hash rows)
  /\ length rows <= length ps
  /\ sum_usage rows = Z.of_nat (length ps)
  /\ Forall (fun r => r_repository_id r = repository_id) rows.
Proof.
  cbv zeta. unfold rows_of.
  assert (Hk : map r_pattern_hash
                 (rows_from env repository_id 0 (pattern_groups ps))
               = distinct (map pattern_hash ps)).
  { rewrite rows_from_hashes; [apply keys_pattern_groups|].
    intros h g Hin. now apply group_representative in Hin. }
  split; [exact Hk|].
  split; [rewrite Hk; apply distinct_nodup|].
  split.
  { rewrite rows_from_length. apply groups_length. }
  split.
  { rewrite rows_from_usage. apply total_usage_groups. }
  apply Forall_forall. intros r Hr.
  apply rows_from_in in Hr as (j & h & g & _ & ->). reflexivity.
Qed.

(** X6: every row written is the copy of the first occurrence with the
    row's pattern hash: all descriptive columns come from it; its
    [usage_count] is the number of occurrences with that hash; its
    metadata keeps every entry of that occurrence and gains [files], the
    distinct file paths of the occurrences with that hash, and
    [file_count], their number, which is at most [usage_count]. *)
Theorem row_of_first_occurrence (env : clock) (repository_id : str)
  (ps : list CodePattern) (row : row)
  (H : In row (rows_of env repository_id ps)) :
  exists p fs,
    find (fun q => Str.eqb (pattern_hash q) (r_pattern_hash row)) ps = Some p
    /\ copied_from p row
    /\ r_usage_count row = Z.of_nat (count_hash (r_pattern_hash row) ps)
    /\ (1 <= r_usage_count row)%Z
    /\ Dict.lookup (lit "files") (r_metadata row) = Some (PyList fs)
    /\ NoDup fs
    /\ (forall f, In f fs <->
          exists q, In q ps /\ pattern_hash q = r_pattern_hash row
                    /\ file_path q = f)
    /\ Dict.lookup (lit "file_count") (r_metadata row)
       = Some (PyInt (Z.of_nat (length fs)))
    /\ (Z.of_nat (length fs) <= r_usage_count row)%Z
    /\ (forall k, k <> lit "file_count" -> k <> lit "files" ->
          Dict.lookup k (r_metadata row) = Dict.lookup k (metadata p)).
Proof.
  apply rows_from_in in H as (j & h & g & Hin & ->).
  pose proof (group_representative ps h g Hin) as (Hp & Hh & H1 & Hc).
  pose proof (group_in ps h g Hin) as G.
  pose proof (group_files_le_count h ps g G) as Hle.
  destruct G as (Hf & _ & Hn & Hs).
  exists (g_pattern g), (g_files g).
  cbn [row_of r_pattern_hash r_usage_count r_metadata]. rewrite Hh.
  split; [exact Hf|].
  split; [unfold copied_from; cbn; repeat split|].
  split; [exact Hc|]. split; [exact H1|].
  split; [rewrite lookup_set; reflexivity|].
  split; [exact Hn|]. split; [exact Hs|].
  split; [rewrite !lookup_set; reflexivity|].
  split; [exact Hle|].
  intros k K1 K2. rewrite !lookup_set.
  apply StrFacts.streqb_neq in K1, K2. now rewrite K1, K2.
Qed.

Lemma row_of_first_occurrence_witness :
  let rows := rows_of fixed_clock (lit "r1") three_sightings in
  let first := nth 0 rows (old_row "r1" "none") in
  In first rows
  /\ r_usage_count first = 2%Z
  /\ (1 <= r_usage_count first)%Z.
Proof.
  cbv zeta.
  assert (H : In (nth 0 (rows_of fixed_clock (lit "r1") three_sightings)
                    (old_row "r1" "none"))
                (rows_of fixed_clock (lit "r1") three_sightings))
    by (vm_compute; left; reflexivity).
  split; [exact H|]. split; [vm_compute; reflexivity|].
  destruct (row_of_first_occurrence fixed_clock (lit "r1") three_sightings
              _ H) as (p & fs & _ & _ & _ & H1 & _).
  exact H1.
Defined.

End GroupsAndRows.

(** ** Persistence under any single failing call *)

Section AnyFault.

Variable env : clock.
Variable repository_id : str.

Ltac unfold_world :=
  cbn [conn calls fault log history apply_op committed pending current app].

Lemma sql_clear op w :
  (forall k, fault w = Some k -> k <> calls w) ->
  sql op w =
  (Returned tt,
   mkWorld (apply_op op (conn w)) (S (calls w)) (fault w)
     (log w ++ [op]) (history w ++ [committed (apply_op op (conn w))])).
Proof.
  intros H. destruct (sql_cases op w) as [[_ E]|[F _]]; [exact E|].
  apply faulty_true_behind in F as (k & Hk & Hc).
  specialize (H k Hk). congruence.
Qed.

Lemma sql_hit op w k :
  fault w = Some k -> calls w = k ->
  sql op w =
  (Raised SqliteError,
   mkWorld (conn w) (S (calls w)) (fault w) (log w) (history w)).
Proof.
  intros Hk Hc. destruct (sql_cases op w) as [[F _]|[_ E]]; [|exact E].
  unfold faulty in F. rewrite Hk in F. apply Nat.eqb_neq in F. lia.
Qed.

(** The inserts of a run whose failing call, if any, lies outside them. *)
Lemma for_each_inserts_clear : forall gs i w,
  (forall k, fault w = Some k -> k < calls w \/ calls w + length gs <= k) ->
  for_each gs (insert_group env repository_id) i w =
  (Returned tt,
   mkWorld
     (mkConn (committed (conn w))
        (match gs with
         | [] => pending (conn w)
         | _ :: _ => Some (current (conn w) ++ rows_from env repository_id i gs)
         end))
     (calls w + length gs) (fault w)
     (log w ++ map Insert (rows_from env repository_id i gs))
     (history w ++ map (fun _ => committed (conn w))
                     (rows_from env repository_id i gs))).
Proof.
  induction gs as [|[h g] gs IH]; intros i w F.
  - cbn [for_each rows_from map length]. unfold ret.
    rewrite !app_nil_r, Nat.add_0_r.
    destruct w as [[c p] n f l hs]. reflexivity.
  - cbn [for_each]. unfold bind, insert_group.
    rewrite sql_clear.
    2:{ intros k Hk. specialize (F k Hk). cbn [length] in F. lia. }
    rewrite IH.
    2:{ cbn [fault calls]. intros k Hk. specialize (F k Hk).
        cbn [length] in F. lia. }
    cbn [conn calls fault log history apply_op committed pending current
         rows_from map length fst snd].
    f_equal. f_equal.
    + f_equal. destruct gs as [|g' gs'].
      * cbn [rows_from pending]. reflexivity.
      * now rewrite <- app_assoc.
    + lia.
    + now rewrite <- app_assoc.
    + now rewrite <- app_assoc.
Qed.

(** A run whose failing call is the [close], or a call that is never
    made. *)
Lemma save_late p ps db k :
  let patterns := p :: ps in
  let rows := rows_of env repository_id patterns in
  let new := rows_not_for repository_id db ++ rows in
  length rows + 3 <= k ->
  save_patterns_to_database env patterns repository_id (start db (Some k))
  = if k =? length rows + 3 then
      (Raised SqliteError,
       mkWorld (mkConn new None) (length rows + 4) (Some k)
         ([Connect; Delete repository_id] ++ map Insert rows ++ [Commit])
         ([db; db] ++ map (fun _ => db) rows ++ [new]))
    else
      (Returned (Saved (length (pattern_groups patterns))),
       mkWorld (mkConn new None) (length rows + 4) (Some k)
         ([Connect; Delete repository_id] ++ map Insert rows
          ++ [Commit; Close])
         ([db; db] ++ map (fun _ => db) rows ++ [new; new])).
Proof.
  intros patterns rows new Hk.
  assert (Hn : length rows = length (pattern_groups patterns)).
  { unfold rows, rows_of. apply rows_from_length. }
  unfold save_patterns_to_database. cbn [patterns].
  unfold start. rewrite sql_clear.
  2:{ cbn [fault calls]. intros j Hj. injection Hj as <-. lia. }
  unfold_world.
  unfold try_finally, try_except, save_body, bind.
  rewrite sql_clear.
  2:{ cbn [fault calls]. intros j Hj. injection Hj as <-. lia. }
  unfold_world.
  rewrite for_each_inserts_clear.
  2:{ cbn [fault calls]. intros j Hj. injection Hj as <-. right.
      fold patterns. lia. }
  unfold_world.
  rewrite sql_clear.
  2:{ cbn [fault calls]. intros j Hj. injection Hj as <-. fold patterns. lia. }
  unfold_world. unfold ret.
  fold patterns. fold (rows_of env repository_id patterns). fold rows.
  fold (rows_not_for repository_id db).
  match goal with
  | |- context [current ?c] => assert (Hcur : current c = new)
  end.
  { unfold current, new, rows, rows_of. cbn [pending].
    destruct (pattern_groups patterns); [|reflexivity].
    cbn [rows_from]. now rewrite app_nil_r. }
  rewrite Hcur.
  destruct (k =? length rows + 3) eqn:Ek.
  - apply Nat.eqb_eq in Ek.
    rewrite (sql_hit Close _ k); [|reflexivity|cbn [calls]; lia].
    unfold_world. f_equal.
    f_equal; first [lia | now rewrite <- !app_assoc | reflexivity].
  - apply Nat.eqb_neq in Ek.
    rewrite sql_clear.
    2:{ cbn [fault calls]. intros j Hj. injection Hj as <-. lia. }
    unfold_world. f_equal.
    f_equal; first [lia | now rewrite <- !app_assoc | reflexivity].
Qed.

(** A run whose [connect] raises. *)
Lemma save_unconnected p ps db :
  save_patterns_to_database env (p :: ps) repository_id (start db (Some 0))
  = (Raised UnboundLocalError, mkWorld (mkConn db None) 1 (Some 0) [] []).
Proof. reflexivity. Qed.

End AnyFault.

Ltac inj_some :=
  match goal with
  | H : Some _ = Some _ |- _ => injection H as H
  end.

(** X7: whatever single call on the database raises, a run of the
    persistence step over a non-empty list leaves the table either as it
    was or with the rows of the repository replaced by the new ones, and
    the table was never anything else while the run lasted; the rows of
    other repositories are never changed.  When [connect] raises the
    function raises [UnboundLocalError] without any call carried out;
    when the delete, an insert or the commit raises it returns after a
    rollback, the table unchanged; when [close] raises the error
    propagates although the new rows are committed; a result of
    [Saved] always means that the new rows are stored. *)
Theorem save_single_fault (env : clock) (patterns : list CodePattern)
  (repository_id : str) (db : table) (fault : option nat)
  (Hne : patterns <> []) :
  let n := length (pattern_groups patterns) in
  let new := rows_not_for repository_id db
             ++ rows_of env repository_id patterns in
  let run := save_patterns_to_database env patterns repository_id
               (start db fault) in
  (stored (snd run) = db \/ stored (snd run) = new)
  /\ Forall (fun t => t = db \/ t = new) (history (snd run))
  /\ rows_not_for repository_id (stored (snd run))
     = rows_not_for repository_id db
  /\ (fault = Some 0 ->
      fst run = Raised UnboundLocalError
      /\ log (snd run) = [] /\ stored (snd run) = db)
  /\ (forall k, fault = Some k -> 1 <= k <= n + 2 ->
      fst run = Returned Failed /\ stored (snd run) = db)
  /\ (fault = Some (n + 3) ->
      fst run = Raised SqliteError /\ stored (snd run) = new)
  /\ (forall k, fault = Some k -> n + 3 < k ->
      fst run = Returned (Saved n) /\ stored (snd run) = new)
  /\ (fst run = Returned (Saved n) -> stored (snd run) = new)
  /\ (fst run = Returned Failed -> stored (snd run) = db).
Proof.
  destruct patterns as [|p ps]; [contradiction|]. cbn zeta.
  set (patterns := p :: ps).
  set (rows := rows_of env repository_id patterns).
  set (new := rows_not_for repository_id db ++ rows).
  assert (Hn : length rows = length (pattern_groups patterns)).
  { unfold rows, rows_of. apply rows_from_length. }
  assert (Hrows : forall r, In r rows -> belongs repository_id r = true).
  { intros r. apply rows_from_belong. }
  destruct (replaced_rows repository_id db rows Hrows) as [_ Hother].
  fold new in Hother.
  assert (Hdb : forall l : list row, Forall (fun t => t = db \/ t = new)
                           (map (fun _ => db) l)).
  { intros l. apply Forall_forall. intros t Ht.
    apply in_map_iff in Ht as (r & <- & _). now left. }
  assert (Hhist2 : Forall (fun t => t = db \/ t = new) [db; db]).
  { constructor; [now left|]. constructor; [now left|constructor]. }
  assert (Hnew2 : Forall (fun t => t = db \/ t = new) [new; new]).
  { constructor; [now right|]. constructor; [now right|constructor]. }
  assert (Hnew1 : Forall (fun t => t = db \/ t = new) [new]).
  { constructor; [now right|constructor]. }
  set (run := save_patterns_to_database env patterns repository_id
                (start db fault)).
  assert (Hrun : exists out t,
            fst run = out /\ stored (snd run) = t
            /\ Forall (fun t => t = db \/ t = new) (history (snd run))
            /\ match fault with
               | Some 0 => out = Raised UnboundLocalError /\ t = db
                           /\ log (snd run) = []
               | Some k =>
                   if k <=? length rows + 2
                   then out = Returned Failed /\ t = db
                   else if k =? length rows + 3
                   then out = Raised SqliteError /\ t = new
                   else out = Returned (Saved (length rows)) /\ t = new
               | None => out = Returned (Saved (length rows)) /\ t = new
               end).
  { exists (fst run), (stored (snd run)).
    split; [reflexivity|]. split; [reflexivity|].
    subst run. destruct fault as [[|k]|].
    - unfold patterns. rewrite save_unconnected. cbn [fst snd log history].
      split; [constructor|]. repeat split.
    - destruct (S k <=? length rows + 2) eqn:Kle.
      + apply Nat.leb_le in Kle.
        assert (Hk : 1 <= S k <= length (pattern_groups (p :: ps)) + 2)
          by (fold patterns; lia).
        destruct (save_fault env repository_id p ps db (S k) Hk)
          as (H1 & [H2 H3] & _).
        fold patterns in H1, H2, H3. split; [|split; assumption].
        eapply Forall_impl; [|exact H3]. intros t <-. now left.
      + apply Nat.leb_gt in Kle.
        pose proof (save_late env repository_id p ps db (S k)) as L.
        cbn zeta in L.
        fold patterns in L. fold rows in L. fold new in L.
        rewrite L by lia. clear L. rewrite <- Hn.
        destruct (S k =? length rows + 3) eqn:Ek;
          cbn [fst snd log history]; unfold stored; cbn [conn committed];
          (split; [rewrite !Forall_app; repeat split; auto|]);
          split; reflexivity.
    - unfold patterns. rewrite save_no_fault. cbn [fst snd log history].
      unfold stored. cbn [conn committed].
      fold patterns. fold rows. fold new. rewrite <- Hn.
      split; [rewrite !Forall_app; repeat split; auto|].
      split; reflexivity. }
  destruct Hrun as (out & t & R & St & Hh & Hcase).
  rewrite R, St. rewrite <- Hn.
  assert (T : t = db \/ t = new).
  { destruct fault as [[|k]|]; [tauto| |tauto].
    destruct (S k <=? length rows + 2); [tauto|].
    destruct (S k =? length rows + 3); tauto. }
  split; [exact T|]. split; [exact Hh|].
  split; [destruct T as [->| ->]; [reflexivity|exact Hother]|].
  destruct fault as [[|k]|].
  - destruct Hcase as (-> & -> & Hl).
    repeat split; intros; try inj_some; try discriminate; auto;
      exfalso; lia.
  - destruct (S k <=? length rows + 2) eqn:Kle;
      [apply Nat.leb_le in Kle|apply Nat.leb_gt in Kle].
    + destruct Hcase as (-> & ->).
      repeat split; intros; try inj_some; try discriminate; auto;
        exfalso; lia.
    + destruct (S k =? length rows + 3) eqn:Ek;
        [apply Nat.eqb_eq in Ek|apply Nat.eqb_neq in Ek];
        destruct Hcase as (-> & ->);
        repeat split; intros; try inj_some; try discriminate; auto;
        exfalso; lia.
  - destruct Hcase as (-> & ->).
    repeat split; intros; try discriminate; auto.
Qed.

Lemma save_single_fault_witness :
  three_sightings <> []
  /\ fst (save_patterns_to_database fixed_clock three_sightings (lit "r1")
            (start old_table (Some 5)))
     = Raised SqliteError
  /\ rows_not_for (lit "r1")
       (stored (snd (save_patterns_to_database fixed_clock three_sightings
                       (lit "r1") (start old_table (Some 5)))))
     = rows_not_for (lit "r1") old_table.
Proof.
  assert (Hne : three_sightings <> []) by discriminate.
  split; [exact Hne|]. split; [vm_compute; reflexivity|].
  destruct (save_single_fault fixed_clock three_sightings (lit "r1")
              old_table (Some 5) Hne) as (_ & _ & H & _).
  exact H.
Defined.

(** ** Which files are scanned *)

Section Scan.

Lemma starts_with_app p : forall a b,
  starts_with p a = true -> starts_with p (a ++ b) = true.
Proof.
  induction p as [|x p IH]; intros a b H; [reflexivity|].
  destruct a as [|y a]; [discriminate|].
  cbn [starts_with app] in *. apply andb_true_iff in H as [H1 H2].
  now rewrite H1, (IH a b H2).
Qed.

Lemma contains_app_l needle : forall a b,
  contains needle a = true -> contains needle (a ++ b) = true.
Proof.
  induction a as [|y a IH]; intros b H.
  - cbn [contains] in H. rewrite orb_false_r in H.
    destruct needle; [|discriminate]. destruct b; reflexivity.
  - cbn [contains app] in *. apply orb_true_iff in H as [H|H].
    + pose proof (starts_with_app needle (y :: a) b H) as S.
      cbn [app] in S. now rewrite S.
    + rewrite (IH b H). apply orb_true_r.
Qed.



Lemma vendored_app_l a b : vendored a = true -> vendored (a ++ b) = true.
Proof.
  unfold vendored. intros H. apply orb_true_iff in H as [H|H];
    rewrite (contains_app_l _ a b H); [reflexivity|apply orb_true_r].
Qed.



Lemma rglob_entries repo ext file :
  In file (rglob (root repo) ext)
  <-> In file (entries repo) /\ ends_with ext (name (fst file)) = true.
Proof.
  unfold rglob, entries. destruct (root repo) as [n|].
  - apply filter_In.
  - simpl. tauto.
Qed.

Lemma filtered_files_spec repo file :
  In file (filtered_files repo)
  <-> In file (entries repo)
      /\ has_source_extension (name (fst file)) = true
      /\ vendored (path_str repo (fst file)) = false.
Proof.
  unfold filtered_files. rewrite filter_In, !in_app_iff, !rglob_entries.
  unfold has_source_extension, source_extensions, vendored.
  cbn [existsb]. rewrite orb_false_r, !orb_true_iff, andb_true_iff,
    !negb_true_iff, orb_false_iff.
  tauto.
Qed.


(** X9: when the path of the repository itself has [dist] or
    [node_modules] in it, every file is filtered out: nothing is scanned
    and the walk returns the list of occurrences as it was, whatever the
    repository holds. *)
Theorem walk_below_vendored_path (repo : repository)
  (patterns : list CodePattern)
  (H : vendored (repository_path repo) = true) :
  filtered_files repo = []
  /\ found repo = []
  /\ extract_patterns_from_repository repo patterns = Returned patterns.
Proof.
  assert (E : filtered_files repo = []).
  { destruct (filtered_files repo) as [|file l] eqn:F; [reflexivity|].
    assert (I : In file (filtered_files repo)) by (rewrite F; now left).
    apply filtered_files_spec in I as (_ & _ & Hv).
    unfold path_str in Hv.
    rewrite (vendored_app_l _ _ H) in Hv. discriminate. }
  unfold found, extract_patterns_from_repository. rewrite E.
  repeat split.
Qed.

Lemma walk_below_vendored_path_witness :
  vendored (repository_path distributed_repo) = true
  /\ extract_patterns_from_repository small_repo [] <> Returned []
  /\ extract_patterns_from_repository distributed_repo [] = Returned [].
Proof.
  split; [reflexivity|]. split; [vm_compute; discriminate|].
  apply (walk_below_vendored_path distributed_repo []). reflexivity.
Defined.

Lemma fold_left_append (A B : Type) (f : A -> list B) : forall l acc,
  fold_left (fun acc x => acc ++ f x) l acc = acc ++ flat_map f l.
Proof.
  induction l as [|x l IH]; intros acc; cbn [fold_left flat_map].
  - now rewrite app_nil_r.
  - now rewrite IH, app_assoc.
Qed.

Lemma extract_appends repo patterns :
  extract_patterns_from_repository repo patterns
  = Returned (patterns ++ found repo).
Proof.
  unfold extract_patterns_from_repository, found.
  now rewrite fold_left_append.
Qed.

(** X10: a walk appends what it finds to the occurrences the extractor
    already holds and never resets them: on a fresh extractor it returns
    the occurrences found, and a second walk over the same corpus returns
    each of them twice, so that the total of the report doubles. *)
Theorem extract_accumulates (env : clock) (repo : repository)
  (patterns : list CodePattern) :
  extract_patterns_from_repository repo patterns
  = Returned (patterns ++ found repo)
  /\ extract_patterns_from_repository repo [] = Returned (found repo)
  /\ extract_patterns_from_repository repo (found repo)
     = Returned (found repo ++ found repo)
  /\ (forall r2,
        generate_pattern_report env (repository_path repo)
          (found repo ++ found repo) = Some r2 ->
        exists r1,
          generate_pattern_report env (repository_path repo) (found repo)
          = Some r1
          /\ total_patterns r2 = (2 * total_patterns r1)%Z).
Proof.
  split; [apply extract_appends|].
  split; [apply extract_appends|].
  split; [apply extract_appends|].
  intros r2 H. destruct (found repo) as [|p ps]; [discriminate|].
  eexists. split; [reflexivity|].
  cbn [app generate_pattern_report] in H. injection H as <-.
  cbn [total_patterns]. rewrite length_app. cbn [length]. lia.
Qed.

End Scan.

(** ** The language of a scanned file *)

Section Language.

Lemma ends_with_aux_spec p : forall n s,
  ends_with_aux p s n = true <-> n <= length s /\ skipn n s = p.
Proof.
  induction n as [|n IH]; intros s.
  - assert (E : ends_with_aux p s 0 = Str.eqb p s) by (destruct s; reflexivity).
    rewrite E, StrFacts.streqb_eq. cbn [skipn]. split.
    + intros ->. split; [lia|reflexivity].
    + intros [_ H]. now symmetry.
  - destruct s as [|c s]; cbn [ends_with_aux skipn length].
    + split; [discriminate|]. intros [H _]. lia.
    + rewrite IH. split; intros [H1 H2]; (split; [lia|exact H2]).
Qed.

Lemma ends_with_spec p s :
  ends_with p s = true <-> exists pre, s = pre ++ p.
Proof.
  unfold ends_with. rewrite andb_true_iff, Nat.leb_le, ends_with_aux_spec.
  split.
  - intros (_ & _ & H). exists (firstn (length s - length p) s).
    rewrite <- (firstn_skipn (length s - length p) s) at 1. now rewrite H.
  - intros [pre ->]. rewrite length_app.
    replace (length pre + length p - length p) with (length pre) by lia.
    split; [lia|]. split; [lia|].
    rewrite skipn_app, skipn_all, Nat.sub_diag. reflexivity.
Qed.

Lemma rfind_after c rest : forall pre,
  rfind c rest = None ->
  rfind c (pre ++ c :: rest) = Some (length pre).
Proof.
  induction pre as [|x pre IH]; intros H.
  - cbn [app rfind length]. rewrite H.
    unfold chr_eqb. now rewrite Ascii.eqb_refl.
  - cbn [app rfind length]. now rewrite (IH H).
Qed.

(** The suffix of a name that ends in an extension without a further
    dot. *)
Lemma suffix_of_extension f pre ext :
  name f = pre ++ DOT :: ext -> rfind DOT ext = None -> ext <> [] ->
  suffix f = if match pre with [] => true | _ => false end
             then [] else DOT :: ext.
Proof.
  intros Hn Hr He. unfold suffix. cbv zeta. rewrite Hn.
  rewrite (rfind_after DOT ext pre Hr).
  rewrite length_app. cbn [length].
  destruct pre as [|x pre].
  - reflexivity.
  - assert (L : 0 < length ext) by (destruct ext; [contradiction|simpl; lia]).
    replace (0 <? length (x :: pre)) with true
      by (symmetry; apply Nat.ltb_lt; simpl; lia).
    replace (S (length (x :: pre)) <? length (x :: pre) + S (length ext))
      with true by (symmetry; apply Nat.ltb_lt; simpl; lia).
    cbn [andb]. rewrite skipn_app, skipn_all, Nat.sub_diag. reflexivity.
Qed.

Lemma language_of_extension f pre ext :
  In ext source_extensions -> name f = pre ++ ext ->
  _determine_language f
  = match pre with
    | [] => lit "unknown"
    | _ :: _ =>
        if Str.eqb ext (lit ".ts") || Str.eqb ext (lit ".tsx")
        then lit "typescript" else lit "javascript"
    end.
Proof.
  intros Hin Hn. unfold _determine_language. cbv zeta.
  assert (S : suffix f = match pre with [] => [] | _ :: _ => ext end).
  { unfold source_extensions in Hin.
    destruct Hin as [<-|[<-|[<-|[<-|[]]]]];
      (rewrite (suffix_of_extension f pre _ Hn);
       [destruct pre; reflexivity|reflexivity|discriminate]). }
  rewrite S. destruct pre as [|x pre]; [reflexivity|].
  unfold source_extensions in Hin.
  destruct Hin as [<-|[<-|[<-|[<-|[]]]]]; reflexivity.
Qed.

Lemma has_source_extension_spec nm :
  has_source_extension nm = true
  <-> exists pre ext, In ext source_extensions /\ nm = pre ++ ext.
Proof.
  unfold has_source_extension. rewrite existsb_exists. split.
  - intros (ext & Hin & He). apply ends_with_spec in He as [pre ->].
    now exists pre, ext.
  - intros (pre & ext & Hin & ->). exists ext. split; [exact Hin|].
    apply ends_with_spec. now exists pre.
Qed.

Lemma ends_with_app pre p s :
  length p = length s -> ends_with p (pre ++ s) = Str.eqb p s.
Proof.
  intros L. destruct (Str.eqb p s) eqn:E.
  - apply StrFacts.streqb_eq in E as ->. apply ends_with_spec. now exists pre.
  - apply not_true_is_false. intros H. apply ends_with_spec in H as [pre' H].
    apply StrFacts.streqb_neq in E. apply E.
    assert (Lp : length pre = length pre').
    { apply (f_equal (@length ascii)) in H. rewrite !length_app in H. lia. }
    apply (f_equal (skipn (length pre))) in H.
    rewrite skipn_app, skipn_all, Nat.sub_diag in H.
    rewrite Lp, skipn_app, skipn_all, Nat.sub_diag in H.
    cbn [skipn app] in H. now symmetry.
Qed.

(** X11: every file that is scanned gets the language [typescript] when
    its name ends in [.ts] or [.tsx] and [javascript] when it ends in
    [.js] or [.jsx], except a file whose whole name is one of the four
    extensions (such as a file called [.ts]), which is scanned with the
    language [unknown]; and every occurrence found carries one of these
    three languages. *)
Theorem language_of_scanned_file (repo : repository) (file : path * node)
  (H : In file (filtered_files repo)) :
  let file_name := name (fst file) in
  _determine_language (fst file)
  = (if bare_extension file_name then lit "unknown"
     else if ends_with (lit ".ts") file_name
             || ends_with (lit ".tsx") file_name
     then lit "typescript" else lit "javascript")
  /\ (forall p,
        In p (_extract_patterns_from_file repo file) ->
        language p = _determine_language (fst file)).
Proof.
  cbv zeta. split.
  - apply filtered_files_spec in H as (_ & He & _).
    apply has_source_extension_spec in He as (pre & ext & Hin & Hn).
    rewrite (language_of_extension (fst file) pre ext Hin Hn), Hn.
    destruct pre as [|x pre].
    + cbn [app]. unfold source_extensions in Hin.
      destruct Hin as [<-|[<-|[<-|[<-|[]]]]]; reflexivity.
    + assert (B : bare_extension ((x :: pre) ++ ext) = false).
      { unfold bare_extension. apply not_true_is_false. intros B.
        apply existsb_exists in B as (e & He & B).
        apply StrFacts.streqb_eq in B.
        unfold source_extensions in Hin, He.
        destruct Hin as [<-|[<-|[<-|[<-|[]]]]];
          destruct He as [<-|[<-|[<-|[<-|[]]]]];
          try (apply (f_equal (@length ascii)) in B;
               rewrite length_app in B; cbn in B; lia);
          apply (f_equal (@rev ascii)) in B; rewrite rev_app_distr in B;
          discriminate. }
      rewrite B. unfold source_extensions in Hin.
      destruct Hin as [<-|[<-|[<-|[<-|[]]]]].
      * rewrite (ends_with_app (x :: pre) (lit ".ts") (lit ".ts") eq_refl).
        reflexivity.
      * replace (ends_with (lit ".ts") ((x :: pre) ++ lit ".js")) with false.
        2:{ symmetry.
            apply (ends_with_app (x :: pre) (lit ".ts") (lit ".js") eq_refl). }
        replace (ends_with (lit ".tsx") ((x :: pre) ++ lit ".js")) with false.
        2:{ symmetry. apply not_true_is_false. intros E.
            apply ends_with_spec in E as [pre' E].
            apply (f_equal (@rev ascii)) in E. rewrite !rev_app_distr in E.
            discriminate. }
        reflexivity.
      * replace (ends_with (lit ".tsx") ((x :: pre) ++ lit ".tsx")) with true.
        2:{ symmetry.
            apply (ends_with_app (x :: pre) (lit ".tsx") (lit ".tsx") eq_refl). }
        destruct (ends_with (lit ".ts") ((x :: pre) ++ lit ".tsx"));
          reflexivity.
      * replace (ends_with (lit ".ts") ((x :: pre) ++ lit ".jsx")) with false.
        2:{ symmetry. apply not_true_is_false. intros E.
            apply ends_with_spec in E as [pre' E].
            apply (f_equal (@rev ascii)) in E. rewrite !rev_app_distr in E.
            discriminate. }
        replace (ends_with (lit ".tsx") ((x :: pre) ++ lit ".jsx")) with false.
        2:{ symmetry.
            apply (ends_with_app (x :: pre) (lit ".tsx") (lit ".jsx") eq_refl). }
        reflexivity.
  - intros p Hp. destruct file as [f n]. cbn [fst snd] in *.
    cbn [_extract_patterns_from_file] in Hp.
    destruct (read n) as [content|]; [|contradiction].
    unfold patterns_of_content in Hp.
    apply in_flat_map in Hp as ([nm def] & _ & Hp).
    apply in_map_iff in Hp as ([s e] & <- & _). reflexivity.
Qed.

Lemma language_of_scanned_file_witness :
  In a_ts (filtered_files small_repo)
  /\ _determine_language (fst a_ts) = lit "typescript".
Proof.
  assert (H : In a_ts (filtered_files small_repo))
    by (vm_compute; left; reflexivity).
  split; [exact H|].
  destruct (language_of_scanned_file small_repo a_ts H) as [E _].
  rewrite E. reflexivity.
Defined.

End Language.

(** ** Occurrences and the rules they come from *)

Section Provenance.

Lemma found_built repo p :
  In p (found repo) -> exists nm def content span, built p nm def content span.
Proof.
  unfold found. intros Hp.
  apply in_flat_map in Hp as ([f n] & _ & Hp).
  cbn [_extract_patterns_from_file] in Hp.
  destruct (read n) as [content|]; [|contradiction].
  unfold patterns_of_content in Hp.
  apply in_flat_map in Hp as ([nm def] & Hr & Hp).
  apply in_map_iff in Hp as (span & <- & Hs).
  exists nm, def, content, span. split; [exact Hr|]. split; [exact Hs|].
  eexists _, _, _. reflexivity.
Qed.

Lemma registry_keys_nodup : NoDup (Dict.keys pattern_definitions).
Proof.
  replace (Dict.keys pattern_definitions)
    with (distinct (Dict.keys pattern_definitions))
    by (vm_compute; reflexivity).
  apply distinct_nodup.
Qed.

Lemma registry_functional nm d d' :
  In (nm, d) pattern_definitions -> In (nm, d') pattern_definitions -> d = d'.
Proof.
  intros H H'.
  apply (in_lookup _ _ _ _ registry_keys_nodup) in H, H'. congruence.
Qed.

Lemma registry_no_colon nm d :
  In (nm, d) pattern_definitions -> no_colon nm = true.
Proof.
  assert (F : forallb (fun e : str * pattern_def => no_colon (fst e))
                pattern_definitions = true) by (vm_compute; reflexivity).
  intros H. now apply (proj1 (forallb_forall _ _) F (nm, d)).
Qed.

(** X12: the rule id of an occurrence found in a corpus fixes everything
    the occurrence takes from the registry: two occurrences with the same
    [pattern_type], from whatever files or repositories, have the same
    category, description, subcategory, confidence score and tags.  So
    for occurrences found by the extractor the hashed text is the same
    exactly when the rule id and the stored matched text are the same,
    and then the pattern hash is the same. *)
Theorem rule_id_determines_rule (repo1 repo2 : repository)
  (p q : CodePattern)
  (Hp : In p (found repo1)) (Hq : In q (found repo2)) :
  (exists def,
     In (pattern_type p, def) pattern_definitions
     /\ category p = rule_category def
     /\ description p = rule_description def
     /\ subcategory p = Some (rule_subcategory def)
     /\ confidence_score p = severity_value (rule_severity def)
     /\ tags p = rule_tags def)
  /\ (pattern_type p = pattern_type q ->
      category p = category q
      /\ description p = description q
      /\ subcategory p = subcategory q
      /\ confidence_score p = confidence_score q
      /\ tags p = tags q)
  /\ (hash_content p = hash_content q
      <-> pattern_type p = pattern_type q
          /\ pattern_content p = pattern_content q)
  /\ (pattern_type p = pattern_type q ->
      pattern_content p = pattern_content q ->
      pattern_hash p = pattern_hash q).
Proof.
  apply found_built in Hp as (n1 & d1 & c1 & [s1 e1] & R1 & _ & B1).
  apply found_built in Hq as (n2 & d2 & c2 & [s2 e2] & R2 & _ & B2).
  destruct B1 as (rel1 & l1 & f1 & ->). destruct B2 as (rel2 & l2 & f2 & ->).
  cbn [build_pattern pattern_type category description subcategory
       confidence_score tags pattern_content].
  assert (Same : n1 = n2 -> d1 = d2).
  { intros <-. exact (registry_functional n1 d1 d2 R1 R2). }
  split; [|split; [|split]].
  - exists d1. repeat split. exact R1.
  - intros E. rewrite (Same E). repeat split.
  - split.
    + intros H. apply hash_content_inj in H.
      * unfold key_triple in H. cbn in H. injection H as H1 H2 _.
        split; assumption.
      * cbn. exact (registry_no_colon n1 d1 R1).
      * cbn. exact (registry_no_colon n2 d2 R2).
    + intros [E1 E2]. apply hash_content_of_key. unfold key_triple.
      cbn [build_pattern pattern_type category pattern_content] in *.
      now rewrite E1, E2, (Same E1).
  - intros E1 E2. apply pattern_hash_of_key. unfold key_triple.
    cbn [build_pattern pattern_type category pattern_content] in *.
    now rewrite E1, E2, (Same E1).
Qed.

Lemma rule_id_determines_rule_witness :
  let p := nth 0 (found small_repo) sync_read_a in
  let q := nth 1 (found small_repo) sync_read_a in
  In p (found small_repo) /\ In q (found small_repo)
  /\ (hash_content p = hash_content q
      <-> pattern_type p = pattern_type q
          /\ pattern_content p = pattern_content q).
Proof.
  cbv zeta.
  assert (Hp : In (nth 0 (found small_repo) sync_read_a) (found small_repo))
    by (vm_compute; left; reflexivity).
  assert (Hq : In (nth 1 (found small_repo) sync_read_a) (found small_repo))
    by (vm_compute; right; left; reflexivity).
  split; [exact Hp|]. split; [exact Hq|].
  apply (rule_id_determines_rule small_repo small_repo _ _ Hp Hq).
Defined.

Lemma all_ascii_complete c : In c all_ascii.
Proof.
  unfold all_ascii. apply in_map_iff. exists (nat_of_ascii c).
  split; [apply ascii_nat_embedding|].
  apply in_seq. pose proof (nat_ascii_bounded c). lia.
Qed.

Lemma star_shorter p : forall rest prev cur',
  In cur' (Re.star p prev rest) -> length (snd cur') <= length rest.
Proof.
  induction rest as [|c rest IH]; intros prev cur' H; cbn [Re.star] in H.
  - destruct H as [<-|[]]. reflexivity.
  - destruct (p c).
    + apply in_app_iff in H as [H|[<-|[]]].
      * apply IH in H. simpl. lia.
      * reflexivity.
    + destruct H as [<-|[]]. reflexivity.
Qed.

Lemma run_shorter : forall r cur cur',
  In cur' (Re.run r cur) -> length (snd cur') <= length (snd cur).
Proof.
  induction r as [|p|r1 IH1 r2 IH2|r1 IH1 r2 IH2|p|]; intros cur cur' H;
    cbn [Re.run] in H.
  - destruct H as [<-|[]]. reflexivity.
  - destruct (snd cur) as [|c rest]; [contradiction|].
    destruct (p c); [|contradiction].
    destruct H as [<-|[]]. simpl. lia.
  - apply in_flat_map in H as (mid & H1 & H2).
    apply IH1 in H1. apply IH2 in H2. lia.
  - apply in_app_iff in H as [H|H]; [now apply IH1|now apply IH2].
  - now apply star_shorter in H.
  - destruct (xorb _ _); [|contradiction].
    destruct H as [<-|[]]. reflexivity.
Qed.

Lemma run_zero : forall r cur cur',
  zero r = true -> In cur' (Re.run r cur) -> cur' = cur.
Proof.
  induction r as [|p|r1 IH1 r2 IH2|r1 IH1 r2 IH2|p|]; intros cur cur' Z H;
    cbn [zero] in Z; try discriminate; cbn [Re.run] in H.
  - now destruct H as [<-|[]].
  - apply andb_true_iff in Z as [Z1 Z2].
    apply in_flat_map in H as (mid & H1 & H2).
    apply (IH1 _ _ Z1) in H1. subst mid. now apply (IH2 _ _ Z2).
  - destruct (xorb _ _); [|contradiction]. now destruct H as [<-|[]].
Qed.

(** What [leads] decides. *)
Lemma run_leads : forall r cur cur',
  leads r = true -> In cur' (Re.run r cur) ->
  exists c rest0,
    snd cur = c :: rest0 /\ is_space c = false
    /\ length (snd cur') <= length rest0.
Proof.
  induction r as [|p|r1 IH1 r2 IH2|r1 IH1 r2 IH2|p|]; intros cur cur' L H;
    cbn [leads] in L; try discriminate; cbn [Re.run] in H.
  - destruct (snd cur) as [|c rest]; [contradiction|].
    destruct (p c) eqn:Pc; [|contradiction].
    destruct H as [<-|[]]. exists c, rest.
    split; [reflexivity|]. split; [|reflexivity].
    pose proof (proj1 (forallb_forall _ _) L c (all_ascii_complete c)) as F.
    cbv beta in F. rewrite Pc in F. cbn [implb] in F.
    now apply negb_true_iff in F.
  - apply in_flat_map in H as (mid & H1 & H2).
    apply orb_true_iff in L as [L|L].
    + destruct (IH1 _ _ L H1) as (c & rest0 & E & Sp & Len).
      exists c, rest0. split; [exact E|]. split; [exact Sp|].
      apply run_shorter in H2. lia.
    + apply andb_true_iff in L as [Z L].
      apply (run_zero _ _ _ Z) in H1. subst mid. now apply IH2.
  - apply andb_true_iff in L as [L1 L2].
    apply in_app_iff in H as [H|H]; [now apply IH1|now apply IH2].
Qed.

Lemma registry_leads nm d :
  In (nm, d) pattern_definitions -> leads (rule_regex d) = true.
Proof.
  assert (F : forallb (fun e : str * pattern_def => leads (rule_regex (snd e)))
                pattern_definitions = true) by (vm_compute; reflexivity).
  intros H. now apply (proj1 (forallb_forall _ _) F (nm, d)).
Qed.

(** Every span that [finditer] reports is a match at its start. *)
Lemma iter_match r : forall rest skip off prev s e,
  In (s, e) (Re.iter r skip off prev rest) ->
  off <= s
  /\ exists prev', Re.match_len r prev' (skipn (s - off) rest) = Some (e - s).
Proof.
  induction rest as [|c rest IH]; intros skip off prev s e H.
  - destruct skip as [|k]; cbn [Re.iter] in H; [|contradiction].
    destruct (Re.match_len r prev []) as [n|] eqn:M; [|contradiction].
    destruct H as [H|[]]. injection H as <- <-.
    split; [lia|]. exists prev. rewrite Nat.sub_diag. cbn [skipn].
    rewrite M. f_equal. lia.
  - assert (Tail : forall k prev0,
              In (s, e) (Re.iter r k (S off) prev0 rest) ->
              off <= s
              /\ exists prev',
                   Re.match_len r prev' (skipn (s - off) (c :: rest))
                   = Some (e - s)).
    { intros k prev0 T. apply IH in T as (Hs & prev' & M).
      split; [lia|]. exists prev'.
      replace (s - off) with (S (s - S off)) by lia. exact M. }
    destruct skip as [|k]; cbn [Re.iter] in H.
    + destruct (Re.match_len r prev (c :: rest)) as [n|] eqn:M.
      * destruct H as [H|H]; [|now apply Tail in H].
        injection H as <- <-. split; [lia|]. exists prev.
        rewrite Nat.sub_diag. cbn [skipn]. rewrite M. f_equal. lia.
      * now apply Tail in H.
    + now apply Tail in H.
Qed.

Lemma match_len_run r prev rest n :
  Re.match_len r prev rest = Some n ->
  exists q rest',
    In (q, rest') (Re.run r (prev, rest))
    /\ length rest - length rest' = n.
Proof.
  unfold Re.match_len.
  destruct (Re.run r (prev, rest)) as [|[q rest'] l]; [discriminate|].
  intros H. injection H as <-. exists q, rest'. split; [now left|reflexivity].
Qed.

Lemma lstrip_keeps c s : is_space c = false -> lstrip (c :: s) = c :: s.
Proof. intros H. cbn [lstrip]. now rewrite H. Qed.

Lemma lstrip_snoc c : forall s,
  is_space c = false -> lstrip (s ++ [c]) = lstrip s ++ [c].
Proof.
  induction s as [|x s IH]; intros H; cbn [app lstrip].
  - now rewrite H.
  - destruct (is_space x); [now apply IH|reflexivity].
Qed.

Lemma lstrip_head s :
  lstrip s = [] \/ exists c t, lstrip s = c :: t /\ is_space c = false.
Proof.
  induction s as [|x s IH]; [now left|].
  cbn [lstrip]. destruct (is_space x) eqn:E; [exact IH|].
  right. now exists x, s.
Qed.

Lemma rstrip_cons c s :
  is_space c = false -> rstrip (c :: s) = c :: rstrip s.
Proof.
  intros H. unfold rstrip. cbn [rev].
  rewrite (lstrip_snoc c (rev s) H), rev_app_distr. reflexivity.
Qed.

Lemma rstrip_last s d :
  rstrip s <> [] -> is_space (last (rstrip s) d) = false.
Proof.
  unfold rstrip. intros N.
  destruct (lstrip_head (rev s)) as [E|(c & t & E & Sp)].
  - rewrite E in N. now contradiction N.
  - rewrite E. cbn [rev]. now rewrite last_last.
Qed.

Lemma rstrip_fixed s d :
  s <> [] -> is_space (last s d) = false -> rstrip s = s.
Proof.
  intros N Sp. destruct (exists_last N) as (t & c & ->).
  rewrite last_last in Sp. unfold rstrip.
  rewrite rev_app_distr. cbn [rev app].
  rewrite (lstrip_keeps c (rev t) Sp). cbn [rev].
  now rewrite rev_involutive.
Qed.

Lemma strip_length s : length (strip s) <= length s.
Proof.
  destruct (strip_inside s) as (x & y & E).
  rewrite E at 2. rewrite !length_app. lia.
Qed.

(** X13: the matched text stored for an occurrence found in a corpus is
    never empty: it begins with the first character of the match, which
    is not white space for any rule of the registry, it does not end in
    white space, and trimming it again changes nothing.  Its length is at
    most the [match_length] recorded in the metadata, which is at least 1
    and at most the recorded [file_size]. *)
Theorem extracted_content_trimmed (repo : repository) (p : CodePattern)
  (Hp : In p (found repo)) :
  exists c rest m size,
    pattern_content p = c :: rest
    /\ is_space c = false
    /\ is_space (last (pattern_content p) c) = false
    /\ strip (pattern_content p) = pattern_content p
    /\ Dict.lookup (lit "match_length") (metadata p) = Some (PyInt m)
    /\ Dict.lookup (lit "file_size") (metadata p) = Some (PyInt size)
    /\ (1 <= Z.of_nat (length (pattern_content p)) <= m)%Z
    /\ (m <= size)%Z.
Proof.
  apply found_built in Hp as (nm & def & content & [s e] & R & Hs & B).
  destruct B as (rel & lang & fw & ->).
  pose proof (finditer_span _ _ _ _ Hs) as [Hse Hlen].
  unfold Re.finditer in Hs. apply iter_match in Hs as (_ & prev' & M).
  rewrite Nat.sub_0_r in M.
  apply match_len_run in M as (q & rest' & I & M).
  destruct (run_leads _ _ _ (registry_leads nm def R) I)
    as (c & rest0 & E & Sp & Len).
  cbn [snd] in E, Len.
  assert (G : substring content s e = c :: firstn (e - s - 1) rest0).
  { unfold substring. rewrite E. rewrite E in M. cbn [length] in M.
    destruct (e - s) as [|k]; [lia|]. cbn [firstn].
    f_equal. f_equal. lia. }
  cbn [build_pattern pattern_content metadata]. rewrite G.
  assert (St : strip (c :: firstn (e - s - 1) rest0)
               = c :: rstrip (firstn (e - s - 1) rest0)).
  { unfold strip. rewrite (lstrip_keeps _ _ Sp). now apply rstrip_cons. }
  assert (La : is_space (last (strip (c :: firstn (e - s - 1) rest0)) c)
               = false).
  { unfold strip. apply rstrip_last. fold (strip (c :: firstn (e - s - 1) rest0)).
    rewrite St. discriminate. }
  exists c, (rstrip (firstn (e - s - 1) rest0)),
    (Z.of_nat (length (c :: firstn (e - s - 1) rest0))),
    (Z.of_nat (length content)).
  split; [exact St|]. split; [exact Sp|]. split; [exact La|].
  split.
  { rewrite St at 1. unfold strip at 1. rewrite (lstrip_keeps _ _ Sp).
    rewrite <- St. apply (rstrip_fixed _ c); [rewrite St; discriminate|exact La]. }
  split; [reflexivity|]. split; [reflexivity|].
  split.
  - split.
    + rewrite St. cbn [length]. lia.
    + apply inj_le. apply strip_length.
  - apply inj_le. rewrite <- G. unfold substring.
    rewrite length_firstn. lia.
Qed.

Lemma extracted_content_trimmed_witness :
  let p := nth 0 (found small_repo) sync_read_a in
  In p (found small_repo)
  /\ exists c rest m size,
       pattern_content p = c :: rest
       /\ is_space c = false
       /\ is_space (last (pattern_content p) c) = false
       /\ strip (pattern_content p) = pattern_content p
       /\ Dict.lookup (lit "match_length") (metadata p) = Some (PyInt m)
       /\ Dict.lookup (lit "file_size") (metadata p) = Some (PyInt size)
       /\ (1 <= Z.of_nat (length (pattern_content p)) <= m)%Z
       /\ (m <= size)%Z.
Proof.
  cbv zeta.
  assert (Hp : In (nth 0 (found small_repo) sync_read_a) (found small_repo))
    by (vm_compute; left; reflexivity).
  split; [exact Hp|].
  apply (extracted_content_trimmed small_repo _ Hp).
Defined.

End Provenance.

(** ** The command line *)

Section Main.




End Main.

(** ** The matches of one rule *)

Section Order.

Lemma iter_from r : forall rest skip off prev s e,
  In (s, e) (Re.iter r skip off prev rest) -> off + skip <= s.
Proof.
  induction rest as [|c rest IH]; intros skip off prev s e H.
  - destruct skip as [|k]; cbn [Re.iter] in H; [|contradiction].
    destruct (Re.match_len r prev []) as [n|]; [|contradiction].
    destruct H as [H|[]]. injection H as <- <-. lia.
  - destruct skip as [|k]; cbn [Re.iter] in H.
    + destruct (Re.match_len r prev (c :: rest)) as [n|].
      * destruct H as [H|H].
        -- injection H as <- <-. lia.
        -- apply IH in H. lia.
      * apply IH in H. lia.
    + apply IH in H. lia.
Qed.

Lemma iter_sorted r : forall rest skip off prev,
  StronglySorted before (Re.iter r skip off prev rest).
Proof.
  induction rest as [|c rest IH]; intros skip off prev.
  - destruct skip as [|k]; cbn [Re.iter]; [|constructor].
    destruct (Re.match_len r prev []) as [n|]; repeat constructor.
  - destruct skip as [|k]; cbn [Re.iter]; [|apply IH].
    destruct (Re.match_len r prev (c :: rest)) as [n|]; [|apply IH].
    constructor; [apply IH|].
    apply Forall_forall. intros [s e] H. apply iter_from in H.
    unfold before. cbn [fst snd]. lia.
Qed.

Lemma sorted_map (A B : Type) (R : A -> A -> Prop) (R' : B -> B -> Prop)
  (f : A -> B) l :
  (forall a b, R a b -> R' (f a) (f b)) ->
  StronglySorted R l -> StronglySorted R' (map f l).
Proof.
  intros HR. induction 1 as [|a l Hs IH Hf]; cbn [map]; constructor.
  - exact IH.
  - apply Forall_forall. intros y Hy. apply in_map_iff in Hy as (b & <- & Hb).
    apply HR. exact (proj1 (Forall_forall _ _) Hf b Hb).
Qed.

Lemma sorted_nodup (l : list (nat * nat)) : StronglySorted before l -> NoDup l.
Proof.
  induction 1 as [|a l Hs IH Hf]; constructor; [|exact IH].
  intros Hin. apply (proj1 (Forall_forall _ _) Hf) in Hin.
  unfold before in Hin. lia.
Qed.

(** X15: the matches of one rule in one text are reported from left to
    right and never overlap: each begins where the one before has ended,
    or later, and strictly after its beginning.  So the occurrences built
    for them come in text order: each begins on the line where the one
    before ends, or on a later line. *)
Theorem matches_in_text_order (content : str) (pattern_name : str)
  (pattern_def : pattern_def) (relative_path language : str)
  (framework : option str) :
  let spans := Re.finditer (rule_regex pattern_def) content in
  let occurrences :=
    map (build_pattern pattern_name pattern_def relative_path language
           framework content (splitlines content)) spans in
  StronglySorted before spans
  /\ NoDup spans
  /\ StronglySorted (fun p q => (line_end p <= line_start q)%Z) occurrences.
Proof.
  cbv zeta.
  assert (S : StronglySorted before
                (Re.finditer (rule_regex pattern_def) content))
    by apply iter_sorted.
  split; [exact S|]. split; [now apply sorted_nodup|].
  apply (sorted_map _ _ before); [|exact S].
  intros [s1 e1] [s2 e2] [H _]. cbn [fst snd] in H.
  cbn [build_pattern line_start line_end]. unfold line_number.
  pose proof (count_nl_firstn_le content e1 s2 H). lia.
Qed.

End Order.

(** ** The occurrences after a save *)

Section Aliasing.

Variable order : listing.
Variable G : Dict.t group.

Lemma hash_annotate_in p :
  pattern_hash (annotate_in order G p) = pattern_hash p.
Proof. unfold annotate_in. destruct (Dict.lookup _ G); reflexivity. Qed.

Lemma file_annotate_in p : file_path (annotate_in order G p) = file_path p.
Proof. unfold annotate_in. destruct (Dict.lookup _ G); reflexivity. Qed.

Lemma map_annotated (A : Type) (key : CodePattern -> A) :
  (forall p, key (annotate_in order G p) = key p) ->
  forall ps seen, map key (annotated order G seen ps) = map key ps.
Proof.
  intros K. induction ps as [|p ps IH]; intros seen; [reflexivity|].
  cbn [annotated]. cbv zeta.
  destruct (existsb _ seen); cbn [map]; now rewrite ?K, IH.
Qed.

Lemma lookup_regroup h gs :
  Dict.lookup h (map (regroup order G) gs)
  = option_map (fun g => snd (regroup order G (h, g))) (Dict.lookup h gs).
Proof.
  induction gs as [|[k g] gs IH]; [reflexivity|].
  cbn [map Dict.lookup regroup fst snd].
  destruct (Str.eqb h k); [reflexivity|exact IH].
Qed.

Lemma update_regroup h (f : group -> group) gs :
  (forall g, f (snd (regroup order G (h, g)))
             = snd (regroup order G (h, f g))) ->
  Dict.update h f (map (regroup order G) gs)
  = map (regroup order G) (Dict.update h f gs).
Proof.
  intros F. induction gs as [|[k g] gs IH]; [reflexivity|].
  cbn [map Dict.update regroup fst snd].
  destruct (Str.eqb h k); cbn [map regroup fst snd].
  - f_equal. unfold regroup. cbn [fst snd]. f_equal. exact (F g).
  - now rewrite IH.
Qed.

Lemma group_step_regroup gs p p' :
  pattern_hash p' = pattern_hash p -> file_path p' = file_path p ->
  (Dict.lookup (pattern_hash p) gs = None -> p' = annotate_in order G p) ->
  group_step (map (regroup order G) gs) p'
  = map (regroup order G) (group_step gs p).
Proof.
  intros Hh Hf Hn. unfold group_step. rewrite Hh, Hf, lookup_regroup.
  destruct (Dict.lookup (pattern_hash p) gs) as [g|] eqn:L; cbn [option_map].
  - rewrite !update_regroup; reflexivity.
  - rewrite (Hn eq_refl).
    change (map (regroup order G) gs
            ++ [(pattern_hash p, mkGroup (annotate_in order G p) 0 [])])
      with (map (regroup order G) gs
            ++ map (regroup order G) [(pattern_hash p, mkGroup p 0 [])]).
    rewrite <- map_app. rewrite !update_regroup; reflexivity.
Qed.

Lemma groups_annotated : forall ps seen gs,
  (forall h, existsb (Str.eqb h) seen
             = match Dict.lookup h gs with Some _ => true | None => false end) ->
  fold_left group_step (annotated order G seen ps) (map (regroup order G) gs)
  = map (regroup order G) (fold_left group_step ps gs).
Proof.
  induction ps as [|p ps IH]; intros seen gs Inv; [reflexivity|].
  cbn [annotated]. cbv zeta.
  pose proof (Inv (pattern_hash p)) as Ip.
  destruct (existsb (Str.eqb (pattern_hash p)) seen) eqn:E;
    cbn [fold_left].
  - rewrite (group_step_regroup gs p p eq_refl eq_refl).
    2:{ intros L. rewrite L in Ip. discriminate. }
    apply IH. intros h. rewrite lookup_group_step, Inv.
    destruct (Str.eqb h (pattern_hash p)) eqn:Eh; [|reflexivity].
    apply StrFacts.streqb_eq in Eh. subst h.
    destruct (Dict.lookup (pattern_hash p) gs); [reflexivity|discriminate].
  - rewrite (group_step_regroup gs p (annotate_in order G p)
               (hash_annotate_in p) (file_annotate_in p) (fun _ => eq_refl)).
    apply IH. intros h. rewrite lookup_group_step. cbn [existsb].
    rewrite Inv.
    destruct (Str.eqb h (pattern_hash p)); reflexivity.
Qed.

Lemma find_annotated h : forall ps seen,
  find (fun q => Str.eqb (pattern_hash q) h) (annotated order G seen ps)
  = if existsb (Str.eqb h) seen
    then find (fun q => Str.eqb (pattern_hash q) h) ps
    else option_map (annotate_in order G)
           (find (fun q => Str.eqb (pattern_hash q) h) ps).
Proof.
  induction ps as [|p ps IH]; intros seen.
  - cbn. now destruct (existsb _ seen).
  - cbn [annotated]. cbv zeta.
    destruct (existsb (Str.eqb (pattern_hash p)) seen) eqn:E; cbn [find].
    + destruct (Str.eqb (pattern_hash p) h) eqn:Eh.
      * apply StrFacts.streqb_eq in Eh. subst h. now rewrite E.
      * apply IH.
    + rewrite hash_annotate_in.
      destruct (Str.eqb (pattern_hash p) h) eqn:Eh.
      * apply StrFacts.streqb_eq in Eh. subst h. now rewrite E.
      * rewrite IH. cbn [existsb].
        assert (Eh' : Str.eqb h (pattern_hash p) = false).
        { apply StrFacts.streqb_neq. apply StrFacts.streqb_neq in Eh.
          congruence. }
        now rewrite Eh'.
Qed.

End Aliasing.

Lemma set_present (V : Type) k (v : V) d :
  Dict.lookup k d = Some v -> Dict.set k v d = d.
Proof.
  induction d as [|[k0 v0] d IH]; [discriminate|].
  cbn [Dict.lookup Dict.set]. destruct (Str.eqb k k0).
  - intros H. injection H as ->. reflexivity.
  - intros H. now rewrite (IH H).
Qed.

Lemma set_again (V : Type) k (v v' : V) d :
  Dict.set k v (Dict.set k v' d) = Dict.set k v d.
Proof.
  induction d as [|[k0 v0] d IH]; cbn [Dict.set].
  - now rewrite StrFacts.streqb_refl.
  - destruct (Str.eqb k k0) eqn:E; cbn [Dict.set]; rewrite E.
    + reflexivity.
    + now rewrite IH.
Qed.

(** Writing the row of a group again, in whatever order of its files,
    from the representative that an earlier writing has left. *)
Lemma row_listed_annotate first second env repository_id i h g :
  row_listed second env repository_id i h
    (mkGroup (annotate first g (g_pattern g)) (g_count g) (g_files g))
  = row_listed second env repository_id i h g.
Proof.
  unfold row_listed, row_of. cbv zeta.
  cbn [g_pattern g_count g_files annotate metadata
    pattern_type pattern_content description category subcategory tags
    file_path line_start line_end language framework confidence_score
    context_before context_after
    r_id r_repository_id r_pattern_type r_pattern_content r_pattern_hash
    r_description r_category r_subcategory r_tags r_file_path r_line_start
    r_line_end r_language r_framework r_confidence_score r_usage_count
    r_context_before r_context_after r_metadata r_created_at r_updated_at].
  set (n := PyInt (Z.of_nat (length (g_files g)))).
  set (m := Dict.set (lit "file_count") n (metadata (g_pattern g))).
  assert (E1 : Dict.set (lit "file_count") n
                 (Dict.set (lit "files") (PyList (first (g_files g))) m)
               = Dict.set (lit "files") (PyList (first (g_files g))) m).
  { apply set_present. unfold m. rewrite !lookup_set. reflexivity. }
  rewrite E1, !set_again. reflexivity.
Qed.

(** The rows of [rows_of] list the files in the order in which they were
    added. *)
Lemma rows_listed_as_added env repository_id : forall gs i,
  rows_listed_from as_added env repository_id i gs
  = rows_from env repository_id i gs.
Proof.
  induction gs as [|[h g] gs IH]; intros i; [reflexivity|].
  cbn [rows_listed_from rows_from]. rewrite IH. f_equal.
  unfold row_listed, as_added, row_of. cbv zeta.
  cbn [r_id r_repository_id r_pattern_type r_pattern_content r_pattern_hash
    r_description r_category r_subcategory r_tags r_file_path r_line_start
    r_line_end r_language r_framework r_confidence_score r_usage_count
    r_context_before r_context_after r_metadata r_created_at r_updated_at].
  now rewrite set_again.
Qed.

Lemma tally_map key ps : forall c,
  tally key ps c = fold_left (fun d k => bump k d) (map key ps) c.
Proof.
  unfold tally. induction ps as [|p ps IH]; intros c; [reflexivity|].
  cbn [fold_left map]. apply IH.
Qed.

Lemma groups_after_save order ps :
  pattern_groups (patterns_after_save order ps)
  = map (regroup order (pattern_groups ps)) (pattern_groups ps).
Proof.
  unfold patterns_after_save, pattern_groups.
  exact (groups_annotated order (fold_left group_step ps []) ps [] []
           (fun h => eq_refl)).
Qed.

(** The report reads four keys of each occurrence and nothing else. *)
Lemma report_by_keys env repository_path ps ps' :
  map category_key ps = map category_key ps' ->
  map severity_key ps = map severity_key ps' ->
  map file_path ps = map file_path ps' ->
  map pattern_type ps = map pattern_type ps' ->
  generate_pattern_report env repository_path ps
  = generate_pattern_report env repository_path ps'.
Proof.
  intros Kc Ks Kf Kt.
  assert (L : length ps = length ps').
  { rewrite <- (length_map file_path ps), Kf. apply length_map. }
  destruct ps as [|p ps], ps' as [|p' ps']; try discriminate L;
    [reflexivity|].
  unfold generate_pattern_report. cbv zeta. rewrite L.
  unfold count_patterns. rewrite !count_patterns_tallies.
  cbn [category_counts severity_counts file_counts pattern_type_counts].
  rewrite !tally_map, Kc, Ks, Kf, Kt. reflexivity.
Qed.

(** X16: the persistence step changes the occurrences that the extractor
    holds: after a run in which every group was inserted, the first
    occurrence with each hash has [file_count] and [files] in its
    metadata: the number of the group's files, and these files in the
    order in which that run listed them, whatever it was; its other
    metadata and all its other fields are as before.  Nothing else
    changes: the hashes are the same, the report is the same, and what a
    second run writes does not depend on what the first has left: it
    writes, in whatever order it lists the files itself, the rows it
    would write for the occurrences as they were. *)
Theorem save_annotates_representatives (first second : listing)
  (env : clock) (repository_id repository_path : str)
  (patterns : list CodePattern) :
  let after := patterns_after_save first patterns in
  map pattern_hash after = map pattern_hash patterns
  /\ (forall h g,
        In (h, g) (pattern_groups patterns) ->
        exists p,
          find (fun q => Str.eqb (pattern_hash q) h) after = Some p
          /\ key_triple p = key_triple (g_pattern g)
          /\ file_path p = file_path (g_pattern g)
          /\ Dict.lookup (lit "file_count") (metadata p)
             = Some (PyInt (Z.of_nat (length (g_files g))))
          /\ Dict.lookup (lit "files") (metadata p)
             = Some (PyList (first (g_files g)))
          /\ (forall k, k <> lit "file_count" -> k <> lit "files" ->
                Dict.lookup k (metadata p)
                = Dict.lookup k (metadata (g_pattern g)))
          /\ (Permutation (first (g_files g)) (g_files g) ->
              NoDup (first (g_files g))
              /\ forall f, In f (first (g_files g)) <->
                    exists q, In q patterns /\ pattern_hash q = h
                              /\ file_path q = f))
  /\ rows_listed second env repository_id after
     = rows_listed second env repository_id patterns
  /\ rows_listed as_added env repository_id patterns
     = rows_of env repository_id patterns
  /\ generate_pattern_report env repository_path after
     = generate_pattern_report env repository_path patterns.
Proof.
  cbv zeta. set (G := pattern_groups patterns).
  assert (Nd : NoDup (Dict.keys G)).
  { unfold G. rewrite keys_pattern_groups. apply distinct_nodup. }
  assert (Rep : forall h g, In (h, g) G ->
            annotate_in first G (g_pattern g)
            = annotate first g (g_pattern g)).
  { intros h g Hin.
    pose proof (group_representative patterns h g Hin) as (_ & Hh & _).
    unfold annotate_in. rewrite Hh.
    now rewrite (in_lookup _ G h g Nd Hin). }
  split; [|split; [|split; [|split]]].
  - apply map_annotated. apply hash_annotate_in.
  - intros h g Hin. exists (annotate first g (g_pattern g)).
    pose proof (group_in patterns h g Hin) as (Hf & _ & Hn & Hs).
    split.
    { unfold patterns_after_save. fold G. rewrite find_annotated.
      cbn [existsb]. rewrite Hf. cbn [option_map]. f_equal.
      exact (Rep h g Hin). }
    split; [reflexivity|]. split; [reflexivity|].
    cbn [annotate metadata].
    split; [rewrite !lookup_set; reflexivity|].
    split; [rewrite lookup_set; reflexivity|].
    split.
    { intros k K1 K2. rewrite !lookup_set.
      apply StrFacts.streqb_neq in K1, K2. now rewrite K1, K2. }
    intros P. split.
    + apply (Permutation_NoDup (Permutation_sym P)). exact Hn.
    + intros f. rewrite <- Hs. split; intros I.
      * exact (Permutation_in f P I).
      * exact (Permutation_in f (Permutation_sym P) I).
  - unfold rows_listed. rewrite groups_after_save. fold G.
    assert (K : forall gs i,
              (forall h g, In (h, g) gs -> In (h, g) G) ->
              rows_listed_from second env repository_id i
                (map (regroup first G) gs)
              = rows_listed_from second env repository_id i gs).
    { induction gs as [|[h g] gs IH]; intros i Sub; [reflexivity|].
      cbn [map rows_listed_from regroup fst snd].
      rewrite (Rep h g (Sub h g (or_introl eq_refl))).
      rewrite row_listed_annotate. f_equal. apply IH.
      intros h' g' H'. apply Sub. now right. }
    apply K. auto.
  - apply rows_listed_as_added.
  - unfold patterns_after_save. fold G.
    assert (Keep : forall (A : Type) (key : CodePattern -> A) p,
              (forall g q, key (annotate first g q) = key q) ->
              key (annotate_in first G p) = key p).
    { intros A key p K. unfold annotate_in.
      destruct (Dict.lookup _ G); [apply K|reflexivity]. }
    apply report_by_keys; apply map_annotated; intros q; apply Keep;
      reflexivity.
Qed.

(** A second run that lists the files of each group in the reverse order
    of the first writes the rows it would write without the first. *)
Example second_save_in_reverse_order :
  rows_listed (@rev str) fixed_clock (lit "r1")
    (patterns_after_save as_added three_sightings)
  = rows_listed (@rev str) fixed_clock (lit "r1") three_sightings
  /\ map (fun r => Dict.lookup (lit "files") (r_metadata r))
       (rows_listed (@rev str) fixed_clock (lit "r1") three_sightings)
     <> map (fun r => Dict.lookup (lit "files") (r_metadata r))
          (rows_of fixed_clock (lit "r1") three_sightings).
Proof.
  split; [vm_compute; reflexivity|vm_compute; discriminate].
Qed.
